(** * Patient registration form: validation core

  A shallow embedding of [src/lib/validators.ts], [src/lib/schema.ts] and
  the short-query guards of [src/lib/api.ts], with the properties of the
  specification proved about it.

  Conventions.
  - A JavaScript string is a [string]: a sequence of code units, each an
    [ascii] (code units 0..255).  [length], indexing, [trim] and the
    character classes [\d] and [\D] work per code unit, as in JavaScript.
  - A JavaScript number that only ever holds small integers or NaN (the
    checksum loop) is an [option Z], [None] being NaN.  The number produced
    by [z.coerce.number()] is a [jsnum].
  - [null] / [undefined] passed where TypeScript announces a [string] is
    [None] of [option string].
  - A built-in that can throw returns an [option], [None] being the
    exception; a parser that it leaves that way has the status [Threw]. *)

From Stdlib Require Import String Ascii List ZArith QArith Bool Lia Arith.
Import ListNotations.
Local Close Scope Q_scope.
Local Open Scope string_scope.
Local Set Warnings "-register-all".

(* ================================================================== *)
(** * Part I: the model                                                *)
(* ================================================================== *)

(** ** JavaScript strings *)
Module JsString.

Definition code (c : ascii) : N := N_of_ascii c.

(** [\d] without the [u] flag: the ten ASCII digits. *)
Definition isDigit (c : ascii) : bool :=
  ((48 <=? code c) && (code c <=? 57))%N.

(** [\D]: everything else. *)
Definition isNonDigit (c : ascii) : bool := negb (isDigit c).

(** Value of a digit code unit. *)
Definition digitValue (c : ascii) : Z := Z.of_N (code c) - 48.

(** WhiteSpace and LineTerminator code units below 256:
    TAB, LF, VT, FF, CR, SP and NBSP. *)
Definition isWhiteSpace (c : ascii) : bool :=
  (((9 <=? code c) && (code c <=? 13)) || (code c =? 32) || (code c =? 160))%N.

(** [s[i]]: [None] is [undefined]. *)
Definition charAt (s : string) (i : Z) : option ascii :=
  if (i <? 0)%Z then None else String.get (Z.to_nat i) s.

(** [s.length]. *)
Definition len (s : string) : Z := Z.of_nat (String.length s).

(** [!s] for a string [s]: only the empty string is falsy. *)
Definition falsy (s : string) : bool :=
  match s with EmptyString => true | _ => false end.

(** [s.replace(/C/g, "")] for a one-character class [C]: every code unit
    in the class is dropped, the others are kept in order. *)
Fixpoint removeAll (cls : ascii -> bool) (s : string) : string :=
  match s with
  | EmptyString => EmptyString
  | String c s' => if cls c then removeAll cls s' else String c (removeAll cls s')
  end.

Fixpoint trimStart (s : string) : string :=
  match s with
  | EmptyString => EmptyString
  | String c s' => if isWhiteSpace c then trimStart s' else s
  end.

(** Drops trailing white space: a character is dropped when everything
    that remains after it was dropped too. *)
Fixpoint trimEnd (s : string) : string :=
  match s with
  | EmptyString => EmptyString
  | String c s' =>
      match trimEnd s' with
      | EmptyString => if isWhiteSpace c then EmptyString else String c EmptyString
      | t => String c t
      end
  end.

(** [s.trim()]. *)
Definition trim (s : string) : string := trimEnd (trimStart s).

(** [Number(s[i])] for the result of indexing a string: a digit gives its
    value, a white-space character gives 0, [undefined] and every other
    character give NaN ([None]). *)
Definition NumberOfChar (c : option ascii) : option Z :=
  match c with
  | None => None
  | Some c =>
      if isDigit c then Some (digitValue c)
      else if isWhiteSpace c then Some 0%Z
      else None
  end.

(** Replace the code unit at index [i] (no change out of range). *)
Fixpoint setChar (i : nat) (c : ascii) (s : string) : string :=
  match s, i with
  | EmptyString, _ => EmptyString
  | String _ s', O => String c s'
  | String a s', S j => String a (setChar j c s')
  end.

(** The string does not begin with white space. *)
Definition startsClean (s : string) : bool :=
  match s with
  | EmptyString => true
  | String c _ => negb (isWhiteSpace c)
  end.

Fixpoint forallb (p : ascii -> bool) (s : string) : bool :=
  match s with
  | EmptyString => true
  | String c s' => p c && forallb p s'
  end.

End JsString.

(** ** Regular expressions

  The fragment of JavaScript regular expressions used by the validators:
  character classes, concatenation, alternation and bounded repetition.
  None of the patterns has back-references or look-around, so a pattern
  anchored by [^] and [$] (no [m] flag) accepts exactly the strings of its
  language; [test] decides it with Brzozowski derivatives. *)
Module Regex.

Inductive regex : Type :=
| Void : regex
| Eps : regex
| Class (p : ascii -> bool) : regex
| Cat (r1 r2 : regex) : regex
| Alt (r1 r2 : regex) : regex
| Star (r : regex) : regex.

(** A literal character. *)
Definition Chr (c : ascii) : regex := Class (Ascii.eqb c).

(** [[a-b]]. *)
Definition Range (a b : ascii) : regex :=
  Class (fun c => (N_of_ascii a <=? N_of_ascii c)%N && (N_of_ascii c <=? N_of_ascii b)%N).

(** [\d]. *)
Definition Digit : regex := Class JsString.isDigit.

(** [r{n}]. *)
Fixpoint Rep (n : nat) (r : regex) : regex :=
  match n with
  | O => Eps
  | S k => Cat r (Rep k r)
  end.

Fixpoint nullable (r : regex) : bool :=
  match r with
  | Void => false
  | Eps => true
  | Class _ => false
  | Cat r1 r2 => nullable r1 && nullable r2
  | Alt r1 r2 => nullable r1 || nullable r2
  | Star _ => true
  end.

Fixpoint deriv (c : ascii) (r : regex) : regex :=
  match r with
  | Void => Void
  | Eps => Void
  | Class p => if p c then Eps else Void
  | Cat r1 r2 =>
      if nullable r1
      then Alt (Cat (deriv c r1) r2) (deriv c r2)
      else Cat (deriv c r1) r2
  | Alt r1 r2 => Alt (deriv c r1) (deriv c r2)
  | Star r1 => Cat (deriv c r1) (Star r1)
  end.

(** [/^r$/.test(s)]. *)
Fixpoint test (r : regex) (s : string) : bool :=
  match s with
  | EmptyString => nullable r
  | String c s' => test (deriv c r) s'
  end.

(** The language of a pattern. *)
Inductive Matches : regex -> string -> Prop :=
| MEps : Matches Eps ""
| MClass p c : p c = true -> Matches (Class p) (String c "")
| MCat r1 r2 s1 s2 :
    Matches r1 s1 -> Matches r2 s2 -> Matches (Cat r1 r2) (s1 ++ s2)
| MAltL r1 r2 s : Matches r1 s -> Matches (Alt r1 r2) s
| MAltR r1 r2 s : Matches r2 s -> Matches (Alt r1 r2) s
| MStar0 r : Matches (Star r) ""
| MStarS r s1 s2 :
    Matches r s1 -> Matches (Star r) s2 -> Matches (Star r) (s1 ++ s2).

End Regex.

(** ** [src/lib/validators.ts] *)
Module Validators.
Import JsString Regex.

(** [/^\d{9}$/] *)
Definition nineDigits : regex := Rep 9 Digit.

(** One turn of the loop body, lines 15-17:
    [digit = Number(id[i]); step = digit * ((i % 2) + 1);
     sum += step > 9 ? step - 9 : step]. *)
Definition idStep (id : string) (sum : option Z) (i : Z) : option Z :=
  let digit := NumberOfChar (charAt id i) in
  let step := option_map (fun d => d * (Z.rem i 2 + 1))%Z digit in
  match sum, step with
  | Some acc, Some st => Some (acc + (if (st >? 9)%Z then st - 9 else st))%Z
  | _, _ => None
  end.

(** [for (let i = 0; i < 9; i++)] *)
Definition idIndices : list Z := map Z.of_nat (seq 0 9).

Definition idSum (id : string) : option Z :=
  fold_left (idStep id) idIndices (Some 0%Z).

Definition isValidIsraeliId (id : option string) : bool :=
  match id with
  | None => false
  | Some id =>
      if falsy id || negb (len id =? 9)%Z || negb (test nineDigits id)
      then false
      else
        match idSum id with
        | Some sum => (Z.rem sum 10 =? 0)%Z
        | None => false
        end
  end.

(** [/^(0(2|3|4|5[0-9]|7[1-9]|8|9))\d{7}$/] *)
Definition israelPhoneRegex : regex :=
  Cat
    (Cat (Chr "0")
       (Alt (Chr "2")
       (Alt (Chr "3")
       (Alt (Chr "4")
       (Alt (Cat (Chr "5") (Range "0" "9"))
       (Alt (Cat (Chr "7") (Range "1" "9"))
       (Alt (Chr "8")
            (Chr "9"))))))))
    (Rep 7 Digit).

Definition isValidIsraeliPhoneNumber (phone : option string) : bool :=
  match phone with
  | None => false
  | Some phone =>
      if falsy phone then false
      else
        let cleaned := removeAll isNonDigit phone in
        test israelPhoneRegex cleaned
  end.

End Validators.

(** ** JavaScript values and the fragment of zod (v3) used by the schema

  Raw form values are JSON-like: primitives, arrays and plain objects.
  An object is an association list; the first binding of a key is the
  value of the property. *)
Module Zod.
Local Open Scope list_scope.

Inductive jsnum : Type :=
| JNaN : jsnum
| JInf (negative : bool) : jsnum
| JFin (q : Q) : jsnum.

Inductive jsval : Type :=
| JUndefined : jsval
| JNull : jsval
| JBool (b : bool) : jsval
| JNum (n : jsnum) : jsval
| JStr (s : string) : jsval
| JArr (items : list jsval) : jsval
| JObj (fields : list (string * jsval)) : jsval.

(** [obj[key]]: [undefined] when the property is absent. *)
Fixpoint getProp (key : string) (fields : list (string * jsval)) : jsval :=
  match fields with
  | [] => JUndefined
  | (k, v) :: rest => if String.eqb k key then v else getProp key rest
  end.

(** [Number.isInteger]. *)
Definition isInteger (n : jsnum) : bool :=
  match n with
  | JFin q => (Qden (Qred q) =? 1)%positive
  | _ => false
  end.

(** [n < v] and [n <= v] for a finite bound [v]. *)
Definition ltNum (n : jsnum) (v : Q) : bool :=
  match n with
  | JNaN => false
  | JInf negative => negative
  | JFin q => negb (Qle_bool v q)
  end.

Definition leNum (n : jsnum) (v : Q) : bool :=
  match n with
  | JNaN => false
  | JInf negative => negative
  | JFin q => Qle_bool q v
  end.

(** *** Issues *)

Inductive path_elem : Type :=
| PKey (k : string)
| PIdx (i : nat).

Definition path := list path_elem.

Inductive issue_code : Type :=
| invalid_type | invalid_enum_value | too_small | too_big | custom.

(** The message of an issue: one written in the schema, or the default
    text of the library's error map. *)
Inductive msg : Type :=
| Message (text : string)
| DefaultMessage.

Record issue : Type := mkIssue {
  code : issue_code;
  ipath : path;
  message : msg
}.

(** *** Parse results

    A parser returns a status with a value ([aborted] carries none) and
    the issues it added to the shared context, oldest first.  [Threw] is
    no status of the library: it stands for a parse that did not return,
    because a built-in it called threw.  The exception leaves every
    enclosing parser, so the issues listed beside [Threw] reach nobody. *)
Inductive pstatus (A : Type) : Type :=
| Aborted : pstatus A
| Dirty (a : A) : pstatus A
| Valid (a : A) : pstatus A
| Threw : pstatus A.
Arguments Aborted {A}.
Arguments Dirty {A} a.
Arguments Valid {A} a.
Arguments Threw {A}.

Definition threw {A} (st : pstatus A) : bool :=
  match st with Threw => true | _ => false end.

Definition res (A : Type) : Type := (pstatus A * list issue)%type.

Definition schema (A : Type) : Type := path -> jsval -> res A.

Definition INVALID {A} (iss : list issue) : res A := (Aborted, iss).
Definition OK {A} (a : A) : res A := (Valid a, []).

Definition withDirty {A} (dirty : bool) (a : A) : pstatus A :=
  if dirty then Dirty a else Valid a.

(** [required_error] / [invalid_type_error] of the creation parameters. *)
Record create_params : Type := mkParams {
  required_error : option string;
  invalid_type_error : option string
}.
Definition noParams : create_params := mkParams None None.

Definition optMsg (m : option string) : msg :=
  match m with Some t => Message t | None => DefaultMessage end.

(** Message of an [invalid_type] issue raised on [data]. *)
Definition typeErrorMessage (p : create_params) (data : jsval) : msg :=
  match data with
  | JUndefined => optMsg (required_error p)
  | _ => optMsg (invalid_type_error p)
  end.

(** *** [z.string()] and its checks, run in declaration order *)
Inductive string_check : Type :=
| SMin (n : Z) (m : string)
| SMax (n : Z) (m : string)
| SLength (n : Z) (m : string)
| STrim.

Fixpoint runStringChecks (p : path) (checks : list string_check)
    (dirty : bool) (data : string) : bool * string * list issue :=
  match checks with
  | [] => (dirty, data, [])
  | chk :: rest =>
      let '(dirty1, data1, is1) :=
        match chk with
        | SMin n m =>
            if (JsString.len data <? n)%Z
            then (true, data, [mkIssue too_small p (Message m)])
            else (dirty, data, [])
        | SMax n m =>
            if (JsString.len data >? n)%Z
            then (true, data, [mkIssue too_big p (Message m)])
            else (dirty, data, [])
        | SLength n m =>
            let tooBig := (JsString.len data >? n)%Z in
            let tooSmall := (JsString.len data <? n)%Z in
            if tooBig || tooSmall
            then (true, data,
                  [mkIssue (if tooBig then too_big else too_small) p (Message m)])
            else (dirty, data, [])
        | STrim => (dirty, JsString.trim data, [])
        end in
      let '(dirty2, data2, is2) := runStringChecks p rest dirty1 data1 in
      (dirty2, data2, is1 ++ is2)
  end.

Definition z_string (checks : list string_check) : schema string :=
  fun p data =>
    match data with
    | JStr s =>
        let '(dirty, s', iss) := runStringChecks p checks false s in
        (withDirty dirty s', iss)
    | _ => INVALID [mkIssue invalid_type p (typeErrorMessage noParams data)]
    end.

(** *** [z.enum([...], params)] *)
Definition z_enum (values : list string) (params : create_params) : schema string :=
  fun p data =>
    match data with
    | JStr s =>
        if existsb (String.eqb s) values
        then OK s
        else INVALID [mkIssue invalid_enum_value p DefaultMessage]
    | _ => INVALID [mkIssue invalid_type p (typeErrorMessage params data)]
    end.

(** *** [z.boolean()] *)
Definition z_boolean : schema bool :=
  fun p data =>
    match data with
    | JBool b => OK b
    | _ => INVALID [mkIssue invalid_type p (typeErrorMessage noParams data)]
    end.

(** *** [.default(d)]: [undefined] is replaced before the inner parse *)
Definition z_default {A} (inner : schema A) (d : jsval) : schema A :=
  fun p data =>
    match data with
    | JUndefined => inner p d
    | _ => inner p data
    end.

(** *** [.optional()] *)
Definition z_optional {A} (inner : schema A) : schema (option A) :=
  fun p data =>
    match data with
    | JUndefined => OK None
    | _ =>
        match inner p data with
        | (Aborted, iss) => (Aborted, iss)
        | (Dirty a, iss) => (Dirty (Some a), iss)
        | (Valid a, iss) => (Valid (Some a), iss)
        | (Threw, iss) => (Threw, iss)
        end
    end.

(** *** [z.coerce.number(params)] and its checks

    [.int(m)] is [NInt m]; [.positive(m)] is [NMin 0 false m];
    [.min(v, m)] is [NMin v true m]. *)
Inductive number_check : Type :=
| NInt (m : string)
| NMin (value : Q) (inclusive : bool) (m : string).

Fixpoint runNumberChecks (p : path) (checks : list number_check)
    (dirty : bool) (data : jsnum) : bool * list issue :=
  match checks with
  | [] => (dirty, [])
  | chk :: rest =>
      let '(dirty1, is1) :=
        match chk with
        | NInt m =>
            if negb (isInteger data)
            then (true, [mkIssue invalid_type p (Message m)])
            else (dirty, [])
        | NMin value inclusive m =>
            let tooSmall :=
              if inclusive then ltNum data value else leNum data value in
            if tooSmall
            then (true, [mkIssue too_small p (Message m)])
            else (dirty, [])
        end in
      let '(dirty2, is2) := runNumberChecks p rest dirty1 data in
      (dirty2, is1 ++ is2)
  end.

Section Coercion.
(** [Number(s)] for a string and [Number(o)] for an array or object are
    built-ins of the runtime.  The second converts the object to a
    primitive first, which throws a [TypeError] when the object has none
    ([None] here): an object whose [toString] is not callable, say. *)
Variable StringToNumber : string -> jsnum.
Variable ObjectToNumber : jsval -> option jsnum.

(** [Number(v)]; [None] when it throws. *)
Definition Number (v : jsval) : option jsnum :=
  match v with
  | JUndefined => Some JNaN
  | JNull => Some (JFin 0)
  | JBool b => Some (if b then JFin 1 else JFin 0)
  | JNum n => Some n
  | JStr s => Some (StringToNumber s)
  | JArr _ | JObj _ => ObjectToNumber v
  end.

(** [input.data = Number(input.data)] comes first and is not guarded. *)
Definition z_coerce_number (params : create_params)
    (checks : list number_check) : schema jsnum :=
  fun p data =>
    match Number data with
    | None => (Threw, [])
    | Some n =>
        match n with
        | JNaN => INVALID [mkIssue invalid_type p (typeErrorMessage params (JNum n))]
        | _ =>
            let '(dirty, iss) := runNumberChecks p checks false n in
            (withDirty dirty n, iss)
        end
    end.
End Coercion.

(** *** [z.array(elem).min(n, m)] *)

(** Status of a sequence of results: aborted when one of them is. *)
Fixpoint mergeArray {A} (dirty : bool) (rs : list (pstatus A)) (acc : list A)
    : pstatus (list A) :=
  match rs with
  | [] => withDirty dirty (rev acc)
  | Aborted :: _ => Aborted
  | Dirty a :: rest => mergeArray true rest (a :: acc)
  | Valid a :: rest => mergeArray dirty rest (a :: acc)
  | Threw :: _ => Threw
  end.

(** [items.map((item, i) => elem._parse(item at path ++ [i]))] *)
Fixpoint parseItems {A} (elem : schema A) (p : path) (i : nat)
    (items : list jsval) : list (res A) :=
  match items with
  | [] => []
  | item :: rest => elem (p ++ [PIdx i]) item :: parseItems elem p (S i) rest
  end.

Definition z_array {A} (elem : schema A) (minLength : option (nat * string))
    : schema (list A) :=
  fun p data =>
    match data with
    | JArr items =>
        let '(dirty, is0) :=
          match minLength with
          | Some (n, m) =>
              if (length items <? n)%nat
              then (true, [mkIssue too_small p (Message m)])
              else (false, [])
          | None => (false, [])
          end in
        let results := parseItems elem p 0 items in
        (* every item is parsed before the statuses are merged: a parse
           that throws ends the whole [map] *)
        ((if existsb threw (map fst results) then Threw
          else mergeArray dirty (map fst results) []),
         is0 ++ concat (map snd results))
    | _ => INVALID [mkIssue invalid_type p (typeErrorMessage noParams data)]
    end.

(** *** Refinements

    The refinement runs on the inner value unless the inner parse
    aborted; every issue it adds makes the result dirty. *)
Definition z_superRefine {A} (inner : schema A)
    (refinement : path -> A -> list issue) : schema A :=
  fun p data =>
    match inner p data with
    | (Aborted, iss) => (Aborted, iss)
    | (Dirty a, iss) => (Dirty a, iss ++ refinement p a)
    | (Valid a, iss) =>
        match refinement p a with
        | [] => (Valid a, iss)
        | added => (Dirty a, iss ++ added)
        end
    | (Threw, iss) => (Threw, iss)
    end.

(** [.refine(check, { message })] *)
Definition z_refine {A} (inner : schema A) (check : A -> bool) (m : string)
    : schema A :=
  z_superRefine inner
    (fun p a => if check a then [] else [mkIssue custom p (Message m)]).

(** *** [z.object({...})]

    Every key of the shape is parsed, in order, whatever the status of
    the others; the statuses are merged afterwards.  A parse that throws
    ends the loop, so the object throws when one of its keys does. *)
Definition obj_parser (A : Type) : Type := path -> list (string * jsval) -> res A.

Definition shape_pure {A} (a : A) : obj_parser A := fun _ _ => OK a.

Definition mergeStatus {A B} (sf : pstatus (A -> B)) (sa : pstatus A) : pstatus B :=
  match sf, sa with
  | Threw, _ => Threw
  | _, Threw => Threw
  | Aborted, _ => Aborted
  | _, Aborted => Aborted
  | Valid f, Valid a => Valid (f a)
  | Valid f, Dirty a => Dirty (f a)
  | Dirty f, Valid a => Dirty (f a)
  | Dirty f, Dirty a => Dirty (f a)
  end.

(** Adds the key [key], parsed by [s], to a shape. *)
Definition shape_field {A B} (pf : obj_parser (A -> B)) (key : string)
    (s : schema A) : obj_parser B :=
  fun p fields =>
    let '(sf, is1) := pf p fields in
    let '(sa, is2) := s (p ++ [PKey key]) (getProp key fields) in
    (mergeStatus sf sa, is1 ++ is2).

Definition z_object {A} (shape : obj_parser A) : schema A :=
  fun p data =>
    match data with
    | JObj fields => shape p fields
    | _ => INVALID [mkIssue invalid_type p (typeErrorMessage noParams data)]
    end.

(** *** [schema.safeParse(data)]

    Nothing catches what a parser throws.  The library itself throws when
    the status is not valid and no issue was recorded. *)
Inductive safe_result (A : Type) : Type :=
| Success (data : A)
| Failure (error : list issue)
| Throws.
Arguments Success {A} data.
Arguments Failure {A} error.
Arguments Throws {A}.

Definition safeParse {A} (s : schema A) (data : jsval) : safe_result A :=
  match s [] data with
  | (Threw, _) => Throws
  | (Valid a, _) => Success a
  | (_, []) => Throws
  | (_, iss) => Failure iss
  end.

(** *** Vocabulary for the properties of parsers *)

(** A result is coherent when, the parse having returned, it is valid
    exactly when it recorded no issue. *)
Definition Coherent {A} (r : res A) : Prop :=
  fst r <> Threw -> (snd r = [] <-> exists a, fst r = Valid a).

(** A parser that always returns. *)
Definition NoThrow {A} (s : schema A) : Prop :=
  forall p data, fst (s p data) <> Threw.

Definition CoherentSchema {A} (s : schema A) : Prop :=
  forall p data, Coherent (s p data).

Definition CoherentShape {A} (sh : obj_parser A) : Prop :=
  forall p fields, Coherent (sh p fields).

(** Every issue of the parser sits exactly at the path it was run at. *)
Definition ExactPath {A} (s : schema A) : Prop :=
  forall p data x, In x (snd (s p data)) -> ipath x = p.

(** Parsing the value of a valid result again, at the same path, gives the
    same valid result and no issue. *)
Definition Stable {A} (s : schema A) (toJs : A -> jsval) : Prop :=
  forall p data a, fst (s p data) = Valid a -> s p (toJs a) = (Valid a, []).

(** No check of the list rewrites the string. *)
Definition noTrim (checks : list string_check) : bool :=
  List.forallb (fun c => match c with STrim => false | _ => true end) checks.

(** How an optional value goes back to JavaScript. *)
Definition optionToJs {A} (toJs : A -> jsval) (o : option A) : jsval :=
  match o with Some a => toJs a | None => JUndefined end.

(** The result is a failure that carries the issue [x]; that has an issue
    at the path [q]. *)
Definition reports {A} (result : safe_result A) (x : issue) : Prop :=
  exists errs, result = Failure errs /\ In x errs.

Definition reportedAt {A} (result : safe_result A) (q : path) : Prop :=
  exists x, reports result x /\ ipath x = q.

End Zod.

(** ** [src/lib/schema.ts] *)
Module Schema.
Import Zod Validators.
Local Open Scope list_scope.

Local Notation "sh '<+' key '~>' s" := (shape_field sh key s)
  (at level 50, left associativity, key at next level, s at next level).

(** *** Inferred types *)
Record PhoneNumberData : Type := mkPhone {
  type : string;
  number : string;
  isMain : bool
}.

Record AddressData : Type := mkAddress {
  cityCode : string;
  cityName : string;
  streetCode : string;
  streetName : string;
  streetNumber : jsnum;
  addressType : string;
  comments : option string
}.

Record PatientFormData : Type := mkPatient {
  id : string;
  firstName : string;
  lastName : string;
  phoneNumbers : list PhoneNumberData;
  hmo : string;
  addresses : list AddressData
}.

(** *** Enums *)
Definition phoneTypeEnum : schema string :=
  z_enum ["Home"; "Mobile"; "Work"; "Other"]
    (mkParams (Some "Phone type is required") None).
Definition addressTypeEnum : schema string :=
  z_enum ["Home"; "Work"; "Other"]
    (mkParams (Some "Address type is required") None).
Definition hmoEnum : schema string :=
  z_enum ["Clalit"; "Maccabi"; "Mehuedet"; "Leumit"]
    (mkParams (Some "HMO is required") None).

(** *** Sub-schemas *)
Definition phoneNumberField : schema string :=
  z_refine (z_string [SMin 1 "Phone number is required"])
    (fun s => isValidIsraeliPhoneNumber (Some s))
    "Invalid Israeli phone number format".

Definition isMainField : schema bool := z_default z_boolean (JBool false).

Definition phoneNumberSchema : schema PhoneNumberData :=
  z_object (shape_pure mkPhone
    <+ "type" ~> phoneTypeEnum
    <+ "number" ~> phoneNumberField
    <+ "isMain" ~> isMainField).

Definition commentsField : schema (option string) :=
  z_optional (z_string [SMax 500 "Comments too long"]).

(** The main-phone rule, the callback of [superRefine] (lines 61-82).
    [p] is the path of the array; an issue's path is relative to it. *)
Fixpoint phonesForEach (p : path) (index : nat) (phones : list PhoneNumberData)
    : list issue :=
  match phones with
  | [] => []
  | phone :: rest =>
      (if isMain phone
       then [mkIssue custom (p ++ [PIdx index; PKey "isMain"])
               (Message "Only one phone can be main.")]
       else [])
      ++ phonesForEach p (S index) rest
  end.

Definition mainPhoneRefine (p : path) (phones : list PhoneNumberData) : list issue :=
  let mainPhones := filter isMain phones in
  if (length mainPhones =? 0)%nat then
    [mkIssue custom (p ++ []) (Message "One phone number must be marked as main.")]
  else if (1 <? length mainPhones)%nat then
    phonesForEach p 0 phones
  else [].

(** The two issues of the rule, as values. *)
Definition entryIssue (p : path) (i : nat) : issue :=
  mkIssue custom (p ++ [PIdx i; PKey "isMain"]) (Message "Only one phone can be main.").

Definition rootIssue (p : path) : issue :=
  mkIssue custom p (Message "One phone number must be marked as main.").

Definition idField : schema string :=
  z_refine (z_string [SLength 9 "ID must be exactly 9 digits"])
    (fun s => isValidIsraeliId (Some s))
    "Invalid Israeli ID number".

Definition firstNameField : schema string :=
  z_string [STrim; SMin 1 "First name is required"].
Definition lastNameField : schema string :=
  z_string [STrim; SMin 1 "Last name is required"].

Definition phoneNumbersField : schema (list PhoneNumberData) :=
  z_superRefine
    (z_array phoneNumberSchema (Some (1%nat, "At least one phone number is required")))
    mainPhoneRefine.

Section Runtime.
Variable StringToNumber : string -> jsnum.
Variable ObjectToNumber : jsval -> option jsnum.

Definition streetNumberField : schema jsnum :=
  z_coerce_number StringToNumber ObjectToNumber
    (mkParams None (Some "Street number must be a number"))
    [NInt "Street number must be a whole number";
     NMin 0 false "Street number must be positive";
     NMin 1 true "Street number is required"].

Definition addressSchema : schema AddressData :=
  z_object (shape_pure mkAddress
    <+ "cityCode" ~> z_string [SMin 1 "City selection is required"]
    <+ "cityName" ~> z_string [SMin 1 "City name is required"]
    <+ "streetCode" ~> z_string [SMin 1 "Street selection is required"]
    <+ "streetName" ~> z_string [SMin 1 "Street name is required"]
    <+ "streetNumber" ~> streetNumberField
    <+ "addressType" ~> addressTypeEnum
    <+ "comments" ~> commentsField).

Definition addressesField : schema (list AddressData) :=
  z_array addressSchema (Some (1%nat, "At least one address is required")).

(** *** Main patient schema *)
Definition patientSchema : schema PatientFormData :=
  z_object (shape_pure mkPatient
    <+ "id" ~> idField
    <+ "firstName" ~> firstNameField
    <+ "lastName" ~> lastNameField
    <+ "phoneNumbers" ~> phoneNumbersField
    <+ "hmo" ~> hmoEnum
    <+ "addresses" ~> addressesField).

(** [validate(rawRecord)] *)
Definition validate (raw : jsval) : safe_result PatientFormData :=
  safeParse patientSchema raw.

End Runtime.

(** *** A normalized record as a JavaScript value again *)
Definition phoneToJs (ph : PhoneNumberData) : jsval :=
  JObj [("type", JStr (type ph)); ("number", JStr (number ph));
        ("isMain", JBool (isMain ph))].

Definition addressToJs (a : AddressData) : jsval :=
  JObj ([("cityCode", JStr (cityCode a)); ("cityName", JStr (cityName a));
         ("streetCode", JStr (streetCode a)); ("streetName", JStr (streetName a));
         ("streetNumber", JNum (streetNumber a));
         ("addressType", JStr (addressType a))]
        ++ match comments a with
           | Some c => [("comments", JStr c)]
           | None => []
           end).

Definition patientToJs (r : PatientFormData) : jsval :=
  JObj [("id", JStr (id r)); ("firstName", JStr (firstName r));
        ("lastName", JStr (lastName r));
        ("phoneNumbers", JArr (map phoneToJs (phoneNumbers r)));
        ("hmo", JStr (hmo r));
        ("addresses", JArr (map addressToJs (addresses r)))].

End Schema.

(** ** [src/lib/api.ts]: the lookup client

  An [async] function is a tree of the effects it performs: console
  output, one awaited HTTP request, and the settlement of its promise.
  A tree that is [Resolved] at its root settles without awaiting. *)
Module Api.
Import JsString.
Local Open Scope list_scope.

Record ApiCity : Type := mkCity {
  city_id : Z;
  city_semel_yishuv : string;   (* city code *)
  city_shem_yishuv : string     (* city name *)
}.

Record ApiStreet : Type := mkStreet {
  street_id : Z;
  street_semel_rechov : string; (* street code *)
  street_shem_rechov : string;  (* street name *)
  street_semel_yishuv : string  (* code of the city it belongs to *)
}.

(** [response.data]: [records] is [None] when [result.records] is falsy. *)
Record ApiResponse (T : Type) : Type := mkResponse {
  success : bool;
  records : option (list T)
}.
Arguments mkResponse {T}.
Arguments success {T}.
Arguments records {T}.

(** A value thrown or rejected with. *)
Inductive thrown : Type :=
| Cancel                       (* [axios.isCancel] holds *)
| Error (message : string)     (* an [Error] instance *)
| NotAnError.                  (* anything else *)

Definition isCancel (e : thrown) : bool :=
  match e with Cancel => true | _ => false end.

(** An [AbortSignal], known by an identifier; the caller aborts the
    request through it, and the request then rejects with [Cancel]. *)
Definition AbortSignal : Type := nat.

Record request : Type := mkRequest {
  url : string;
  resource_id : string;
  q : string;
  filters : option string;
  limit : Z;
  signal : option AbortSignal
}.

Inductive Async (R A : Type) : Type :=
| Resolved (a : A)
| Rejected (e : thrown)
| ConsoleLog (line : string) (k : Async R A)
| ConsoleError (line : string) (k : Async R A)
| AwaitGet (req : request) (k : thrown + R -> Async R A).
Arguments Resolved {R A}.
Arguments Rejected {R A}.
Arguments ConsoleLog {R A}.
Arguments ConsoleError {R A}.
Arguments AwaitGet {R A}.

(** Number of requests a run performs, the answers being given by [net]. *)
Fixpoint requestCount {R A} (net : request -> thrown + R) (t : Async R A) : nat :=
  match t with
  | Resolved _ | Rejected _ => 0
  | ConsoleLog _ k | ConsoleError _ k => requestCount net k
  | AwaitGet req k => S (requestCount net (k (net req)))
  end.

(** [Array.from(new Map(xs.map(x => [key(x), x])).values())]: a key keeps
    the position of its first occurrence and the value of its last. *)
Fixpoint mapSet {V} (k : string) (v : V) (m : list (string * V)) : list (string * V) :=
  match m with
  | [] => [(k, v)]
  | (k', v') :: rest =>
      if String.eqb k' k then (k', v) :: rest else (k', v') :: mapSet k v rest
  end.

Definition uniqueBy {V} (key : V -> string) (xs : list V) : list V :=
  map snd (fold_left (fun m x => mapSet (key x) x m) xs []).

Definition dquote : string := String (ascii_of_nat 34) EmptyString.

Section Config.
(** [import.meta.env] and [JSON.stringify]. *)
Variable env : string -> option string.
Variable stringifyCityFilter : string -> string.
Variable stringifyCities : ApiResponse ApiCity -> string.
Variable stringifyStreets : ApiResponse ApiStreet -> string.

(** [import.meta.env.X || fallback] *)
Definition envOr (name fallback : string) : string :=
  match env name with
  | Some v => if falsy v then fallback else v
  | None => fallback
  end.

Definition CITIES_API_URL : string :=
  envOr "VITE_CITIES_API_URL" "https://data.gov.il/api/3/action/datastore_search".
Definition CITIES_RESOURCE_ID : string :=
  envOr "VITE_CITIES_RESOURCE_ID" "5c78e9fa-c2e2-4771-93ff-7f400a12f7ba".
Definition STREETS_API_URL : string :=
  envOr "VITE_STREETS_API_URL" "https://data.gov.il/api/3/action/datastore_search".
Definition STREETS_RESOURCE_ID : string :=
  envOr "VITE_STREETS_RESOURCE_ID" "9ad3862c-8391-4b2f-84a4-2d4c68625f4b".

(** The [catch] block of [fetchCities] / [fetchStreets]. *)
Definition catchFetch {R A} (cancelled failed fallback : string) (error : thrown)
    : Async R (list A) :=
  if isCancel error then ConsoleLog cancelled (Resolved [])
  else ConsoleError failed
         (Rejected (match error with
                    | NotAnError => Error fallback
                    | e => e
                    end)).

Definition fetchCities (query : string) (signal : option AbortSignal)
    : Async (ApiResponse ApiCity) (list ApiCity) :=
  let trimmedQuery := trim query in
  if falsy trimmedQuery || (len trimmedQuery <? 2)%Z then Resolved []
  else
    ConsoleLog ("Workspaceing cities for query: " ++ dquote ++ trimmedQuery ++ dquote)%string
      (AwaitGet (mkRequest CITIES_API_URL CITIES_RESOURCE_ID trimmedQuery None 20 signal)
         (fun outcome =>
            let handler :=
              catchFetch "City fetch request cancelled" "Error fetching cities:"
                "Failed to fetch cities" in
            match outcome with
            | inl error => handler error
            | inr response =>
                match success response, records response with
                | true, Some recs => Resolved (uniqueBy city_semel_yishuv recs)
                | true, None =>
                    handler (Error "API Error fetching cities: Unknown reason")
                | false, _ =>
                    handler (Error ("API Error fetching cities: API returned success: false. Response: "
                                    ++ stringifyCities response)%string)
                end
            end)).

Definition fetchStreets (query cityCode : string) (signal : option AbortSignal)
    : Async (ApiResponse ApiStreet) (list ApiStreet) :=
  let trimmedQuery := trim query in
  if falsy trimmedQuery || (len trimmedQuery <? 2)%Z then Resolved []
  else if falsy cityCode then
    Rejected (Error "City code is required to fetch streets.")
  else
    ConsoleLog ("Workspaceing streets for query: " ++ dquote ++ trimmedQuery
                ++ dquote ++ " in city: " ++ cityCode)%string
      (AwaitGet (mkRequest STREETS_API_URL STREETS_RESOURCE_ID trimmedQuery
                   (Some (stringifyCityFilter cityCode)) 20 signal)
         (fun outcome =>
            let handler :=
              catchFetch "Street fetch request cancelled" "Error fetching streets:"
                "Failed to fetch streets" in
            match outcome with
            | inl error => handler error
            | inr response =>
                match success response, records response with
                | true, Some recs => Resolved (uniqueBy street_semel_rechov recs)
                | true, None =>
                    handler (Error "API Error fetching streets: Unknown reason")
                | false, _ =>
                    handler (Error ("API Error fetching streets: API returned success: false. Response: "
                                    ++ stringifyStreets response)%string)
                end
            end)).
End Config.

End Api.

(** ** The wording of the specification

  Definitions that follow the text of the specification (sections 4.1 and
  4.2), to be compared with the code. *)
Module Spec.
Import JsString.

(** "multiply the digit by 1 if its position is even, by 2 if odd; if the
    product exceeds 9, subtract 9 from it" *)
Definition adjusted (position : nat) (digit : Z) : Z :=
  let product := (digit * (if Nat.even position then 1 else 2))%Z in
  if (product >? 9)%Z then (product - 9)%Z else product.

(** "sum all 9 adjusted values" *)
Fixpoint weightedSumFrom (position : nat) (s : string) : Z :=
  match s with
  | EmptyString => 0%Z
  | String c s' =>
      (adjusted position (digitValue c) + weightedSumFrom (S position) s')%Z
  end.

Definition weightedSum (s : string) : Z := weightedSumFrom 0 s.

(** "exactly 9 characters, all ASCII digits" *)
Definition nineDigitShape (s : string) : Prop :=
  String.length s = 9 /\ forallb isDigit s = true.

(** "the identifier is valid iff the sum is divisible by 10" *)
Definition validIdentifier (s : string) : Prop :=
  nineDigitShape s /\ (10 | weightedSum s)%Z.

(** "a digit 1-9" *)
Definition isDigit1to9 (c : ascii) : bool :=
  ((49 <=? code c) && (code c <=? 57))%N.

(** "one of the accepted prefix patterns: 2, 3, 4, 5 followed by any
    digit, 7 followed by a digit 1-9, 8, or 9" *)
Definition acceptedPrefix (p : string) : Prop :=
  p = "2" \/ p = "3" \/ p = "4"
  \/ (exists d, isDigit d = true /\ p = String "5" (String d ""))
  \/ (exists d, isDigit1to9 d = true /\ p = String "7" (String d ""))
  \/ p = "8" \/ p = "9".

(** "a leading 0, followed by one of the accepted prefix patterns,
    followed by exactly 7 more digits" *)
Definition domesticShape (cleaned : string) : Prop :=
  exists prefix rest,
    cleaned = ("0" ++ prefix ++ rest)%string
    /\ acceptedPrefix prefix
    /\ String.length rest = 7 /\ forallb isDigit rest = true.

End Spec.

(** ** The data model of the specification, on raw values

    What section 3 of the specification asks of each field, said of the
    value the raw record holds under the field's key.  The schema is not
    looked at: these are the rules it is checked against. *)
Module Rules.
Import JsString Zod Spec.
Local Open Scope list_scope.

Definition rule : Type := jsval -> Prop.

(** "string, exactly 9 ASCII digits, must pass the identifier checksum" *)
Definition idRule : rule :=
  fun v => exists s, v = JStr s /\ validIdentifier s.

(** "non-empty strings, whitespace-trimmed" *)
Definition nameRule : rule :=
  fun v => exists s, v = JStr s /\ trim s <> "".

(** "enum of ..." *)
Definition oneOf (values : list string) : rule :=
  fun v => exists s, v = JStr s /\ In s values.

(** "ordered sequence of ..., length >= 1" *)
Definition collectionRule : rule :=
  fun v => exists items, v = JArr items /\ items <> [].

(** "string, must satisfy the phone-format predicate" *)
Definition phoneRule : rule :=
  fun v => exists s, v = JStr s /\ domesticShape (removeAll isNonDigit s).

(** "boolean, default false" *)
Definition flagRule : rule :=
  fun v => v = JUndefined \/ exists b, v = JBool b.

(** "non-empty strings" *)
Definition textRule : rule :=
  fun v => exists s, v = JStr s /\ s <> "".

(** "optional string, <= 500 characters" *)
Definition commentsRule : rule :=
  fun v => v = JUndefined \/ exists s, v = JStr s /\ String.length s <= 500.

(** "integer, positive" *)
Definition positiveInteger (n : jsnum) : Prop :=
  exists q z, n = JFin q /\ (0 < z)%Z /\ Qeq q (inject_Z z).

Definition patientRules : list (string * rule) :=
  [("id", idRule); ("firstName", nameRule); ("lastName", nameRule);
   ("phoneNumbers", collectionRule);
   ("hmo", oneOf ["Clalit"; "Maccabi"; "Mehuedet"; "Leumit"]);
   ("addresses", collectionRule)].

Definition phoneRules : list (string * rule) :=
  [("type", oneOf ["Home"; "Mobile"; "Work"; "Other"]);
   ("number", phoneRule); ("isMain", flagRule)].

(** The entry is marked main. *)
Definition markedMain (item : jsval) : bool :=
  match item with
  | JObj entry =>
      match getProp "isMain" entry with
      | JBool b => b
      | _ => false
      end
  | _ => false
  end.

(** The three fields of the entry have their types: the type is one of
    the four, the number a string, [isMain] a boolean or absent. *)
Definition phoneEntryTyped (item : jsval) : bool :=
  match item with
  | JObj entry =>
      match getProp "type" entry with
      | JStr s => existsb (String.eqb s) ["Home"; "Mobile"; "Work"; "Other"]
      | _ => false
      end
      && match getProp "number" entry with
         | JStr _ => true
         | _ => false
         end
      && match getProp "isMain" entry with
         | JBool _ | JUndefined => true
         | _ => false
         end
  | _ => false
  end.

Section Runtime.
Variable StringToNumber : string -> jsnum.
Variable ObjectToNumber : jsval -> option jsnum.

(** "integer, positive, coerced from input" *)
Definition streetNumberRule : rule :=
  fun v => exists n, Number StringToNumber ObjectToNumber v = Some n
                     /\ positiveInteger n.

Definition addressRules : list (string * rule) :=
  [("cityCode", textRule); ("cityName", textRule);
   ("streetCode", textRule); ("streetName", textRule);
   ("streetNumber", streetNumberRule);
   ("addressType", oneOf ["Home"; "Work"; "Other"]);
   ("comments", commentsRule)].

(** Coercing the street number of an address entry of the record throws. *)
Definition coercionThrows (raw : jsval) : Prop :=
  exists fields items i entry,
    raw = JObj fields
    /\ getProp "addresses" fields = JArr items
    /\ nth_error items i = Some (JObj entry)
    /\ Number StringToNumber ObjectToNumber (getProp "streetNumber" entry) = None.
End Runtime.

End Rules.

(** ** A runtime and sample records for running the model *)
Module Samples.
Import JsString Zod Schema.
Local Open Scope list_scope.

Fixpoint decimalValue (acc : Z) (s : string) : Z :=
  match s with
  | EmptyString => acc
  | String c s' => decimalValue (10 * acc + digitValue c)%Z s'
  end.

(** An unsigned literal: one to fifteen ASCII digits (an integer that a
    double holds exactly) or [Infinity]. *)
Definition unsignedToNumber (s : string) : jsnum :=
  if String.eqb s "Infinity" then JInf false
  else if negb (falsy s) && JsString.forallb isDigit s
          && (String.length s <=? 15)%nat
  then JFin (inject_Z (decimalValue 0 s))
  else JNaN.

Definition negate (n : jsnum) : jsnum :=
  match n with
  | JNaN => JNaN
  | JInf negative => JInf (negb negative)
  | JFin q => JFin (- q)
  end.

(** [Number(s)] on a string: white space around the literal is dropped,
    nothing is left gives 0, a sign may come first.  The other numeric
    literals of JavaScript (fractions, exponents, hexadecimal, octal and
    binary, longer integers) are left out and give NaN here. *)
Definition decimalToNumber (s : string) : jsnum :=
  match trim s with
  | EmptyString => JFin 0
  | String "+" u => unsignedToNumber u
  | String "-" u => negate (unsignedToNumber u)
  | t => unsignedToNumber t
  end.

(** An object has the own property [key]. *)
Definition hasOwnProperty (key : string) (fields : list (string * jsval)) : bool :=
  existsb (fun kv => String.eqb (fst kv) key) fields.

(** Converting the value to a string throws: it is, or an array holds, a
    plain object with an own [toString], which data never makes callable. *)
Fixpoint toStringThrows (v : jsval) : bool :=
  match v with
  | JObj fields => hasOwnProperty "toString" fields
  | JArr items => existsb toStringThrows items
  | _ => false
  end.

(** [Number(String(v))] for a value whose conversion does not throw: a
    plain object gives "[object Object]", an array the [join] of its
    items, in which [null] and [undefined] give the empty string and two
    items or more leave a comma. *)
Fixpoint numberOfString (v : jsval) : jsnum :=
  match v with
  | JUndefined => JNaN
  | JNull => JNaN
  | JBool _ => JNaN
  | JNum n => n
  | JStr s => decimalToNumber s
  | JObj _ => JNaN
  | JArr [] => JFin 0
  | JArr [item] =>
      match item with
      | JUndefined | JNull => JFin 0
      | _ => numberOfString item
      end
  | JArr _ => JNaN
  end.

(** [Number(o)] of an array or of a plain object, whose prototype is
    [Object.prototype]: [valueOf] returns the object itself, so the
    result is that of [toString]. *)
Definition plainObjectToNumber (v : jsval) : option jsnum :=
  if toStringThrows v then None else Some (numberOfString v).

Definition samplePhone (isMainValue : list (string * jsval)) : jsval :=
  JObj ([("type", JStr "Mobile"); ("number", JStr "050-123-4567")] ++ isMainValue).

Definition sampleAddress : jsval :=
  JObj [("cityCode", JStr "3000"); ("cityName", JStr "Jerusalem");
        ("streetCode", JStr "101"); ("streetName", JStr "Jaffa");
        ("streetNumber", JStr "12"); ("addressType", JStr "Home")].

(** A raw record as the form holds it: padded names, a street number typed
    as text, a second phone without [isMain]. *)
Definition sampleRaw : jsval :=
  JObj [("id", JStr "000000018"); ("firstName", JStr "  Dana ");
        ("lastName", JStr "Levi");
        ("phoneNumbers",
          JArr [samplePhone [("isMain", JBool true)]; samplePhone []]);
        ("hmo", JStr "Clalit");
        ("addresses", JArr [sampleAddress])].

Definition sampleRecord : PatientFormData :=
  mkPatient "000000018" "Dana" "Levi"
    [mkPhone "Mobile" "050-123-4567" true; mkPhone "Mobile" "050-123-4567" false]
    "Clalit"
    [mkAddress "3000" "Jerusalem" "101" "Jaffa" (JFin (inject_Z 12)) "Home" None].

(** The same record with no phone at all. *)
Definition sampleNoPhones : list (string * jsval) :=
  [("id", JStr "000000018"); ("firstName", JStr "Dana");
   ("lastName", JStr "Levi"); ("phoneNumbers", JArr []);
   ("hmo", JStr "Clalit"); ("addresses", JArr [sampleAddress])].

(** A record wrong in several places at once: the identifier, the first
    name, the number of the first phone and the street number. *)
Definition sampleManyErrors : jsval :=
  JObj [("id", JStr "123456789"); ("firstName", JStr "   ");
        ("lastName", JStr "Levi");
        ("phoneNumbers",
          JArr [JObj [("type", JStr "Mobile"); ("number", JStr "1234567");
                      ("isMain", JBool true)]]);
        ("hmo", JStr "Clalit");
        ("addresses",
          JArr [JObj [("cityCode", JStr "3000"); ("cityName", JStr "Jerusalem");
                      ("streetCode", JStr "101"); ("streetName", JStr "Jaffa");
                      ("streetNumber", JStr "0"); ("addressType", JStr "Home")]])].

(** One phone, marked main by nobody, whose [type] is missing. *)
Definition sampleAbortedEntry : jsval :=
  JArr [JObj [("number", JStr "050-123-4567"); ("isMain", JBool false)]].

(** Entries that hold [isMain] and nothing else. *)
Definition sampleFlagsOnly (flags : list bool) : list jsval :=
  map (fun b => JObj [("isMain", JBool b)]) flags.

(** Two phones marked main, the first of a type that is not one of the
    four. *)
Definition sampleFaxAndMobile : list jsval :=
  [JObj [("type", JStr "Fax"); ("number", JStr "050-123-4567");
         ("isMain", JBool true)];
   samplePhone [("isMain", JBool true)]].

(** The sample record with these two phones. *)
Definition sampleTwoMain : jsval :=
  JObj [("id", JStr "000000018"); ("firstName", JStr "Dana");
        ("lastName", JStr "Levi"); ("phoneNumbers", JArr sampleFaxAndMobile);
        ("hmo", JStr "Clalit"); ("addresses", JArr [sampleAddress])].

(** A record with no phone whose address holds, as street number, the
    object that [JSON.parse] makes of [{"toString": null}]. *)
Definition sampleThrowing : list (string * jsval) :=
  [("id", JStr "000000018"); ("firstName", JStr "Dana");
   ("lastName", JStr "Levi"); ("phoneNumbers", JArr []);
   ("hmo", JStr "Clalit");
   ("addresses",
     JArr [JObj [("cityCode", JStr "3000"); ("cityName", JStr "Jerusalem");
                 ("streetCode", JStr "101"); ("streetName", JStr "Jaffa");
                 ("streetNumber", JObj [("toString", JNull)]);
                 ("addressType", JStr "Home")]])].

End Samples.

(** ** Edits of an identifier, for statements about the checksum *)
Module Edits.
Import JsString.

(** Exchange the characters at [i] and [i + 1] (no change when one of them
    is missing). *)
Definition swapAdjacent (i : nat) (s : string) : string :=
  match String.get i s, String.get (S i) s with
  | Some a, Some b => setChar i b (setChar (S i) a s)
  | _, _ => s
  end.

(** The digit character of a value in 0..9. *)
Definition digitChar (v : Z) : ascii := ascii_of_N (Z.to_N (v + 48)).

End Edits.

(** ** What a normalized record holds

    The constraints of [schema.ts] read as predicates on the inferred
    types, to state which records validation returns. *)
Module Accepted.
Import JsString Zod Schema Validators.
Local Open Scope list_scope.

(** The string does not end with white space. *)
Fixpoint endsClean (s : string) : bool :=
  match s with
  | EmptyString => true
  | String c EmptyString => negb (isWhiteSpace c)
  | String _ s' => endsClean s'
  end.

(** [.trim().min(1)]: not empty, and nothing left to trim. *)
Definition nonBlankTrimmed (s : string) : Prop := s <> "" /\ trim s = s.

(** [.int().positive().min(1)]: a finite whole number, at least 1. *)
Definition wholeAtLeastOne (n : jsnum) : Prop :=
  exists q z, n = JFin q /\ (1 <= z)%Z /\ Qeq q (inject_Z z).

Definition phoneOk (ph : PhoneNumberData) : Prop :=
  In (type ph) ["Home"; "Mobile"; "Work"; "Other"]
  /\ isValidIsraeliPhoneNumber (Some (number ph)) = true.

Definition addressOk (a : AddressData) : Prop :=
  cityCode a <> "" /\ cityName a <> ""
  /\ streetCode a <> "" /\ streetName a <> ""
  /\ wholeAtLeastOne (streetNumber a)
  /\ In (addressType a) ["Home"; "Work"; "Other"]
  /\ (forall c, comments a = Some c -> String.length c <= 500).

Definition WellFormed (r : PatientFormData) : Prop :=
  isValidIsraeliId (Some (id r)) = true
  /\ nonBlankTrimmed (firstName r)
  /\ nonBlankTrimmed (lastName r)
  /\ Forall phoneOk (phoneNumbers r)
  /\ length (filter isMain (phoneNumbers r)) = 1
  /\ In (hmo r) ["Clalit"; "Maccabi"; "Mehuedet"; "Leumit"]
  /\ addresses r <> []
  /\ Forall addressOk (addresses r).

(** On the JavaScript form of a value, the parser returns that value
    exactly when the value has the property. *)
Definition Decides {A} (s : schema A) (toJs : A -> jsval) (P : A -> Prop) : Prop :=
  forall p a,
    (fst (s p (toJs a)) = Valid a -> P a)
    /\ (P a -> s p (toJs a) = (Valid a, [])).

End Accepted.

(** ** Running a lookup against a network *)
Module Lookup.
Import Api.
Local Open Scope list_scope.

(** How the promise of an [async] function settles when [net] answers its
    requests: [inr] is the value it resolves with, [inl] what it rejects
    with. *)
Fixpoint settle {R A} (net : request -> thrown + R) (t : Async R A) : thrown + A :=
  match t with
  | Resolved a => inr a
  | Rejected e => inl e
  | ConsoleLog _ k | ConsoleError _ k => settle net k
  | AwaitGet req k => settle net (k (net req))
  end.

(** The requests of a run, in order. *)
Fixpoint requests {R A} (net : request -> thrown + R) (t : Async R A) : list request :=
  match t with
  | Resolved _ | Rejected _ => []
  | ConsoleLog _ k | ConsoleError _ k => requests net k
  | AwaitGet req k => req :: requests net (k (net req))
  end.

(** A table built by [mapSet]: keys are distinct and each value sits under
    its own key. *)
Definition Keyed {V} (key : V -> string) (m : list (string * V)) : Prop :=
  NoDup (map fst m) /\ forall k x, In (k, x) m -> k = key x.

End Lookup.

(** ** [src/components/patient-form]: the handlers of the form

    The values react-hook-form holds for [phoneNumbers] and [addresses] are
    lists of the inferred types.  [append] adds at the end, [remove(i)]
    drops the entry at [i] (nothing out of range), [setValue] of a field of
    entry [i] replaces that field.  The handlers are called with the index
    of a rendered row; for an index out of range [setValue] would create an
    entry, which these lists do not show: there the model changes nothing.
    What [removePhoneRow] defers with [setTimeout(..., 0)] runs right after
    the removal, no other edit in between. *)
Module Form.
Import JsString Zod Schema Api Lookup.
Local Open Scope list_scope.

Definition MIN_QUERY_LENGTH : Z := 2.

Definition defaultPhoneNumber : PhoneNumberData := mkPhone "Mobile" "" false.

Definition defaultAddress : AddressData :=
  mkAddress "" "" "" "" (JFin 1) "Home" (Some "").

(** [{ ...ph, isMain: b }] *)
Definition withMain (b : bool) (ph : PhoneNumberData) : PhoneNumberData :=
  mkPhone (type ph) (number ph) b.

(** [defaultValues] of [useForm]. *)
Definition defaultValues : PatientFormData :=
  mkPatient "" "" "" [withMain true defaultPhoneNumber] "Clalit" [defaultAddress].

(** Replace entry [i] by [f] of it. *)
Fixpoint updateAt {T} (i : nat) (f : T -> T) (l : list T) : list T :=
  match l, i with
  | [], _ => []
  | x :: rest, O => f x :: rest
  | x :: rest, S j => x :: updateAt j f rest
  end.

(** [remove(index)] of [useFieldArray]. *)
Fixpoint removeAt {T} (i : nat) (l : list T) : list T :=
  match l, i with
  | [], _ => []
  | _ :: rest, O => rest
  | x :: rest, S j => x :: removeAt j rest
  end.

(** [form.setValue(`phoneNumbers.${i}.isMain`, b)] *)
Definition setIsMain (i : nat) (b : bool) (phones : list PhoneNumberData)
    : list PhoneNumberData :=
  updateAt i (withMain b) phones.


(** [removePhoneRow], lines 177-203. *)
Definition removePhoneRow (index : nat) (phones : list PhoneNumberData)
    : list PhoneNumberData :=
  let isRemovingMain :=
    match nth_error phones index with
    | Some ph => isMain ph
    | None => false
    end in
  let remainingPhones := removeAt index phones in
  if isRemovingMain && (0 <? length remainingPhones)%nat then
    let isAnotherMain := existsb isMain remainingPhones in
    if negb isAnotherMain then setIsMain 0 true remainingPhones
    else remainingPhones
  else remainingPhones.

(** The [forEach] of [handleMainPhoneChange]: every entry but the selected
    one has [isMain] set to false. *)
Fixpoint clearOthers (selectedIndex index : nat) (phones : list PhoneNumberData)
    : list PhoneNumberData :=
  match phones with
  | [] => []
  | ph :: rest =>
      (if negb (index =? selectedIndex)%nat then withMain false ph else ph)
      :: clearOthers selectedIndex (S index) rest
  end.

(** [handleMainPhoneChange], lines 206-223. *)
Definition handleMainPhoneChange (selectedIndex : nat)
    (phones : list PhoneNumberData) : list PhoneNumberData :=
  setIsMain selectedIndex true (clearOthers selectedIndex 0 phones).

(** [onCheckedChange] of the "Set as Main Phone" box of row [index]
    ([PhoneFields.tsx], lines 113-118). *)
Definition onCheckedChange (index : nat) (checked : bool)
    (phones : list PhoneNumberData) : list PhoneNumberData :=
  let phones1 := setIsMain index checked phones in
  if checked then handleMainPhoneChange index phones1 else phones1.


(** Rows in which exactly the row [selectedIndex] is main, the rows being
    numbered from [index]: what ticking a box amounts to. *)
Fixpoint markOnly (selectedIndex index : nat) (phones : list PhoneNumberData)
    : list PhoneNumberData :=
  match phones with
  | [] => []
  | ph :: rest =>
      withMain (index =? selectedIndex)%nat ph :: markOnly selectedIndex (S index) rest
  end.

(** Number of rows marked main. *)
Definition countMain (phones : list PhoneNumberData) : nat :=
  length (filter isMain phones).

(** [onSelect] of a city of the list ([AddressFields.tsx], lines 260-300):
    the city is stored and the street of the row is reset. *)
Definition selectCity (index : nat) (city : ApiCity) (addresses : list AddressData)
    : list AddressData :=
  updateAt index
    (fun a => mkAddress (city_semel_yishuv city) (city_shem_yishuv city)
                "" "" (JFin 1) (addressType a) (comments a))
    addresses.

(** [onSelect] of a street of the list (lines 398-425). *)
Definition selectStreet (index : nat) (street : ApiStreet)
    (addresses : list AddressData) : list AddressData :=
  updateAt index
    (fun a => mkAddress (cityCode a) (cityName a)
                (street_semel_rechov street) (street_shem_rechov street)
                (streetNumber a) (addressType a) (comments a))
    addresses.

(** The state around the shared city search, and the toasts shown. *)
Record CityState : Type := mkCityState {
  cities : list ApiCity;
  cityLoading : bool
}.

Record StreetState : Type := mkStreetState {
  streets : list ApiStreet;
  streetLoading : bool
}.

Record toast : Type := mkToast {
  title : string;
  description : string
}.

(** [error instanceof Error ? error.message : fallback] *)
Definition messageOr (fallback : string) (error : thrown) : string :=
  match error with
  | Error m => m
  | _ => fallback
  end.

Section Effects.
Variable env : string -> option string.
Variable stringifyCityFilter : string -> string.
Variable stringifyCities : ApiResponse ApiCity -> string.
Variable stringifyStreets : ApiResponse ApiStreet -> string.
Variable netCities : request -> thrown + ApiResponse ApiCity.
Variable netStreets : request -> thrown + ApiResponse ApiStreet.

(** The condition of the effect of [PatientForm.tsx], lines 127-130. *)
Definition cityEffectFetches (debouncedCityQuery : string) : bool :=
  negb (falsy debouncedCityQuery)
  && (MIN_QUERY_LENGTH <=? len (trim debouncedCityQuery))%Z.

(** The effect on [debouncedCityQuery], lines 126-154: the state it leaves
    and the toasts it shows, once the lookup has settled. *)
Definition cityEffect (debouncedCityQuery : string) (st : CityState)
    : CityState * list toast :=
  if cityEffectFetches debouncedCityQuery then
    (* setCityLoading(true); setCities([]) *)
    match settle netCities (fetchCities env stringifyCities debouncedCityQuery None) with
    | inr results =>
        (* setCities(results); finally setCityLoading(false) *)
        (mkCityState results false, [])
    | inl error =>
        (* setCities([]); toast.error(...); finally setCityLoading(false) *)
        (mkCityState [] false,
         [mkToast "Error Fetching Cities"
            (messageOr "Could not fetch city data." error)])
    end
  else
    (* setCities([]) *)
    (mkCityState [] (cityLoading st), []).

(** The requests the effect causes. *)
Definition cityEffectRequests (debouncedCityQuery : string) : list request :=
  if cityEffectFetches debouncedCityQuery
  then requests netCities (fetchCities env stringifyCities debouncedCityQuery None)
  else [].

(** The condition of the effect of [AddressFields.tsx], lines 110-114. *)
Definition streetEffectFetches (cityCode debouncedStreetQuery : string) : bool :=
  negb (falsy cityCode)
  && negb (falsy debouncedStreetQuery)
  && (MIN_QUERY_LENGTH <=? len (trim debouncedStreetQuery))%Z.

(** The effect on [debouncedStreetQuery] and [cityCode], lines 108-145. *)
Definition streetEffect (cityCode debouncedStreetQuery : string) (st : StreetState)
    : StreetState * list toast :=
  if streetEffectFetches cityCode debouncedStreetQuery then
    match settle netStreets
            (fetchStreets env stringifyCityFilter stringifyStreets
               debouncedStreetQuery cityCode None) with
    | inr results => (mkStreetState results false, [])
    | inl error =>
        (mkStreetState [] false,
         [mkToast "Error Fetching Streets"
            (messageOr "Could not fetch street data." error)])
    end
  else (mkStreetState [] (streetLoading st), []).

Definition streetEffectRequests (cityCode debouncedStreetQuery : string)
    : list request :=
  if streetEffectFetches cityCode debouncedStreetQuery
  then requests netStreets
         (fetchStreets env stringifyCityFilter stringifyStreets
            debouncedStreetQuery cityCode None)
  else [].
End Effects.

End Form.

(** ** Submission: [postPatientData] of [src/lib/api.ts] and the relay
    [api/submit-zapier.js] *)
Module Submit.
Import JsString Zod Schema Api.
Local Open Scope list_scope.

(** Truthiness of a value. *)
Definition truthy (v : jsval) : bool :=
  match v with
  | JUndefined | JNull => false
  | JBool b => b
  | JNum JNaN => false
  | JNum (JInf _) => true
  | JNum (JFin q) => negb (Qeq_bool q 0)
  | JStr s => negb (falsy s)
  | JArr _ | JObj _ => true
  end.

(** [v.status] of a value that is neither [null] nor [undefined]: only an
    object has the property. *)
Definition statusOf (v : jsval) : jsval :=
  match v with
  | JObj fields => getProp "status" fields
  | _ => JUndefined
  end.

(** [data && data.status === "success"] *)
Definition saysSuccess (data : jsval) : bool :=
  truthy data
  && match statusOf data with
     | JStr s => String.eqb s "success"
     | _ => false
     end.

(** What [axios.post] rejects with or what is thrown: an [AxiosError] (with
    the text of a truthy [response.data.message], if any), another [Error],
    or a value that is not an error. *)
Inductive failure : Type :=
| AxiosFailure (message : string) (responseMessage : option string)
| OtherError (message : string)
| NotError.

Inductive event : Type :=
| Log (line : string)
| Warn (line : string)
| ErrorLog (line : string)
| Post (url : string) (body : jsval).

(** The requests among the events, in order. *)
Fixpoint posts (events : list event) : list (string * jsval) :=
  match events with
  | [] => []
  | Post url body :: rest => (url, body) :: posts rest
  | _ :: rest => posts rest
  end.

(** [responseMessage || message] *)
Definition orMessage (responseMessage : option string) (message : string) : string :=
  match responseMessage with
  | Some m => if falsy m then message else m
  | None => message
  end.

Section Client.
Variable env : string -> option string.
Variable stringify : jsval -> string.
(** How [apiClient.post] settles, its interceptors included: [inr] is
    [response.data].  The console line of the response interceptor is not
    among the events below. *)
Variable post : string -> jsval -> failure + jsval.

Definition ZAPIER_WEBHOOK_URL : string :=
  envOr env "VITE_ZAPIER_WEBHOOK_URL" "YOUR_ZAPIER_WEBHOOK_URL_HERE".

(** The [catch] block, lines 260-279. *)
Definition catchPost (error : failure) : list event * (thrown + jsval) :=
  match error with
  | AxiosFailure message responseMessage =>
      ([ErrorLog "Error submitting data to Zapier:"; ErrorLog "Axios error details:"],
       inl (Error ("Failed to submit data: " ++ orMessage responseMessage message)%string))
  | OtherError message =>
      ([ErrorLog "Error submitting data to Zapier:"], inl (Error message))
  | NotError =>
      ([ErrorLog "Error submitting data to Zapier:"],
       inl (Error "Failed to submit data to Zapier"))
  end.

(** [postPatientData], lines 232-280: the console lines and the request,
    in order, and how the promise settles. *)
Definition postPatientData (data : PatientFormData) : list event * (thrown + jsval) :=
  let body := patientToJs data in
  let before := [Log "Submitting data to Zapier:"; Post ZAPIER_WEBHOOK_URL body] in
  match post ZAPIER_WEBHOOK_URL body with
  | inr responseData =>
      if saysSuccess responseData then
        (before ++ [Log "Zapier response:"], inr responseData)
      else
        let '(logged, result) :=
          catchPost (OtherError ("Zapier submission may have failed: "
                                 ++ stringify responseData)%string) in
        (before ++ [Log "Zapier response:";
                    Warn "Zapier hook response did not indicate clear success:"]
                ++ logged,
         result)
  | inl error =>
      let '(logged, result) := catchPost error in
      (before ++ logged, result)
  end.
End Client.

(** *** The relay *)

Record http_request : Type := mkHttpRequest {
  method : string;
  body : jsval
}.

Record http_response : Type := mkHttpResponse {
  status : Z;
  allow : option (list string);   (* the [Allow] header *)
  json : jsval
}.

Section Server.
(** [process.env.ZAPIER_WEBHOOK_URL] and [axios.post]; what it rejects
    with is an error object. *)
Variable ZAPIER_WEBHOOK_URL_env : option string.
Variable post : string -> jsval -> failure + jsval.

(** [!ZAPIER_URL || ZAPIER_URL === "YOUR_ZAPIER_WEBHOOK_URL_HERE"] *)
Definition unconfigured : bool :=
  match ZAPIER_WEBHOOK_URL_env with
  | None => true
  | Some u => falsy u || String.eqb u "YOUR_ZAPIER_WEBHOOK_URL_HERE"
  end.

(** [handler(request, response)]: the requests it sends upstream and the
    response it gives. *)
Definition handler (request : http_request) : list event * http_response :=
  if negb (String.eqb (method request) "POST") then
    ([],
     mkHttpResponse 405 (Some ["POST"])
       (JObj [("error", JStr ("Method " ++ method request ++ " Not Allowed")%string)]))
  else if unconfigured then
    ([ErrorLog "Zapier URL not configured in environment variables."],
     mkHttpResponse 500 None (JObj [("error", JStr "Server configuration error.")]))
  else
    let ZAPIER_URL :=
      match ZAPIER_WEBHOOK_URL_env with Some u => u | None => EmptyString end in
    let patientData := body request in
    let before :=
      [Log "Serverless function received data:"; Post ZAPIER_URL patientData] in
    let failed :=
      mkHttpResponse 500 None (JObj [("error", JStr "Failed to submit data.")]) in
    match post ZAPIER_URL patientData with
    | inr zapierData =>
        if saysSuccess zapierData then
          (before ++ [Log "Zapier responded:"],
           mkHttpResponse 200 None
             (JObj [("success", JBool true); ("zapierData", zapierData)]))
        else
          (before ++ [Log "Zapier responded:";
                      ErrorLog "Error forwarding data to Zapier:"],
           failed)
    | inl _ =>
        (before ++ [ErrorLog "Error forwarding data to Zapier:"], failed)
    end.
End Server.

End Submit.

(** ** The submission handler of the form ([PatientForm.tsx], lines
    226-260)

    The page holds the values of the form and the state of the shared city
    search; [form.reset()] puts [defaultValues] back.  The loading toast is
    replaced, under the same id, by the one returned here. *)
Module Page.
Import JsString Zod Schema Api Form Submit.
Local Open Scope list_scope.

Record PageState : Type := mkPageState {
  values : PatientFormData;
  cityQuery : string;
  citySearch : CityState;
  isCityPopoverOpen : bool
}.

Definition resetState : PageState :=
  mkPageState defaultValues "" (mkCityState [] false) false.

Section Handler.
Variable env : string -> option string.
Variable stringify : jsval -> string.
Variable post : string -> jsval -> failure + jsval.

Definition onSubmit (data : PatientFormData) (st : PageState)
    : list event * toast * PageState :=
  let '(events, result) := postPatientData env stringify post data in
  let before := Log "Form Data Validated:" :: events in
  match result with
  | inr _ =>
      (before, mkToast "Success!" "Patient information submitted.", resetState)
  | inl error =>
      (before ++ [ErrorLog "Submission Handler Error:"],
       mkToast "Submission Error"
         (messageOr "Could not submit form. Please check connection or server logs."
            error),
       st)
  end.

(** The description of the error toast for each way the POST can fail. *)
Definition failureText (answer : failure + jsval) : string :=
  match answer with
  | inr d => ("Zapier submission may have failed: " ++ stringify d)%string
  | inl (AxiosFailure message responseMessage) =>
      ("Failed to submit data: " ++ orMessage responseMessage message)%string
  | inl (OtherError message) => message
  | inl NotError => "Failed to submit data to Zapier"
  end.
End Handler.

End Page.

(* ================================================================== *)
(** * Part II: properties                                              *)
(* ================================================================== *)

(** ** Strings *)
Section StringFacts.
Import JsString.

Lemma append_empty_inv (s1 s2 : string) :
  (s1 ++ s2)%string = "" -> s1 = "" /\ s2 = "".
Proof. destruct s1; simpl; intros H; [auto | discriminate]. Qed.

Lemma append_cons_inv (s1 s2 : string) c s :
  (s1 ++ s2)%string = String c s ->
  (s1 = "" /\ s2 = String c s) \/
  (exists s1', s1 = String c s1' /\ s = (s1' ++ s2)%string).
Proof.
  destruct s1 as [|a s1]; simpl; intros H.
  - left; auto.
  - right; injection H as -> <-; eauto.
Qed.

Lemma isDigit_range c :
  isDigit c = true -> (0 <= digitValue c <= 9)%Z.
Proof.
  unfold isDigit, digitValue; intros H.
  apply andb_true_iff in H as [H1 H2].
  apply N.leb_le in H1, H2; lia.
Qed.

Lemma digitValue_inj c d :
  digitValue c = digitValue d -> c = d.
Proof.
  unfold digitValue, code; intros H.
  rewrite <- (ascii_N_embedding c), <- (ascii_N_embedding d).
  f_equal; lia.
Qed.

Lemma trimStart_length s : String.length (trimStart s) <= String.length s.
Proof.
  induction s as [|c s IH]; simpl; [lia|].
  destruct (isWhiteSpace c); simpl; lia.
Qed.

Lemma trimEnd_length s : String.length (trimEnd s) <= String.length s.
Proof.
  induction s as [|c s IH]; simpl; [lia|].
  destruct (trimEnd s); [destruct (isWhiteSpace c)|]; simpl in *; lia.
Qed.

Lemma trim_length s : String.length (trim s) <= String.length s.
Proof.
  unfold trim.
  pose proof (trimEnd_length (trimStart s)); pose proof (trimStart_length s); lia.
Qed.
End StringFacts.

(** ** Derivatives decide the language *)
Section RegexFacts.
Import JsString Regex.

Lemma nullable_Matches r : nullable r = true <-> Matches r "".
Proof.
  split.
  - induction r; simpl; intros H; try discriminate.
    + constructor.
    + apply andb_true_iff in H as [H1 H2].
      change "" with ("" ++ "")%string; constructor; auto.
    + apply orb_true_iff in H as [H|H]; [apply MAltL | apply MAltR]; auto.
    + constructor.
  - intros H; remember "" as s eqn:Es.
    induction H; simpl; try reflexivity; try discriminate.
    + apply append_empty_inv in Es as [-> ->].
      rewrite IHMatches1, IHMatches2; auto.
    + rewrite IHMatches; auto.
    + rewrite IHMatches; auto using orb_true_r.
Qed.

Lemma Matches_Eps_inv s : Matches Eps s -> s = "".
Proof. intros H; inversion H; reflexivity. Qed.

Lemma Matches_Class_inv p s :
  Matches (Class p) s -> exists c, s = String c "" /\ p c = true.
Proof. intros H; inversion H; subst; eauto. Qed.

Lemma Matches_Cat_inv r1 r2 s :
  Matches (Cat r1 r2) s ->
  exists s1 s2, s = (s1 ++ s2)%string /\ Matches r1 s1 /\ Matches r2 s2.
Proof. intros H; inversion H; subst; eauto. Qed.

Lemma Matches_Alt_inv r1 r2 s :
  Matches (Alt r1 r2) s -> Matches r1 s \/ Matches r2 s.
Proof. intros H; inversion H; subst; auto. Qed.

Lemma Matches_Cat_cons r1 r2 c s1 s2 :
  Matches r1 (String c s1) -> Matches r2 s2 ->
  Matches (Cat r1 r2) (String c (s1 ++ s2)).
Proof.
  intros H1 H2.
  change (String c (s1 ++ s2)) with (String c s1 ++ s2)%string.
  constructor; assumption.
Qed.

Lemma Matches_Star_cons r c s :
  Matches (Star r) (String c s) ->
  exists s1 s2, s = (s1 ++ s2)%string /\ Matches r (String c s1) /\ Matches (Star r) s2.
Proof.
  intros H; remember (Star r) as r' eqn:Er; remember (String c s) as t eqn:Et.
  induction H; try discriminate.
  injection Er as ->.
  destruct (append_cons_inv _ _ _ _ Et) as [[-> ->] | (s1' & -> & ->)].
  - apply IHMatches2; reflexivity.
  - eauto.
Qed.

Lemma deriv_Matches r : forall c s,
  Matches (deriv c r) s <-> Matches r (String c s).
Proof.
  induction r; intros c s; simpl.
  - split; intros H; inversion H.
  - split; intros H; inversion H.
  - destruct (p c) eqn:E; split; intros H.
    + apply Matches_Eps_inv in H as ->; constructor; assumption.
    + apply Matches_Class_inv in H as (c' & [= -> ->] & _); constructor.
    + inversion H.
    + apply Matches_Class_inv in H as (c' & [= -> ->] & H); congruence.
  - destruct (nullable r1) eqn:N; split; intros H.
    + apply Matches_Alt_inv in H as [H|H].
      * apply Matches_Cat_inv in H as (s1 & s2 & -> & H1 & H2).
        apply Matches_Cat_cons; [apply IHr1|]; assumption.
      * change (String c s) with ("" ++ String c s)%string.
        constructor; [apply nullable_Matches | apply IHr2]; assumption.
    + apply Matches_Cat_inv in H as (s1 & s2 & Es & H1 & H2).
      symmetry in Es.
      destruct (append_cons_inv _ _ _ _ Es) as [[-> ->] | (s1' & -> & ->)].
      * apply MAltR, IHr2; assumption.
      * apply MAltL; constructor; [apply IHr1|]; assumption.
    + apply Matches_Cat_inv in H as (s1 & s2 & -> & H1 & H2).
      apply Matches_Cat_cons; [apply IHr1|]; assumption.
    + apply Matches_Cat_inv in H as (s1 & s2 & Es & H1 & H2).
      symmetry in Es.
      destruct (append_cons_inv _ _ _ _ Es) as [[-> ->] | (s1' & -> & ->)].
      * apply nullable_Matches in H1; congruence.
      * constructor; [apply IHr1|]; assumption.
  - split; intros H.
    + apply Matches_Alt_inv in H as [H|H];
        [apply MAltL, IHr1 | apply MAltR, IHr2]; assumption.
    + apply Matches_Alt_inv in H as [H|H];
        [apply MAltL, IHr1 | apply MAltR, IHr2]; assumption.
  - split; intros H.
    + apply Matches_Cat_inv in H as (s1 & s2 & -> & H1 & H2).
      change (String c (s1 ++ s2)) with (String c s1 ++ s2)%string.
      apply MStarS; [apply IHr|]; assumption.
    + apply Matches_Star_cons in H as (s1 & s2 & -> & H1 & H2).
      constructor; [apply IHr|]; assumption.
Qed.

Lemma test_Matches s : forall r, test r s = true <-> Matches r s.
Proof.
  induction s as [|c s IH]; intros r; simpl.
  - apply nullable_Matches.
  - rewrite IH; apply deriv_Matches.
Qed.

(** [C{n}] for a class [C]: the strings of [n] characters of the class. *)
Lemma Matches_Rep_Class p n : forall s,
  Matches (Rep n (Class p)) s <-> String.length s = n /\ forallb p s = true.
Proof.
  induction n as [|n IH]; intros s; simpl.
  - split.
    + intros H; apply Matches_Eps_inv in H as ->; auto.
    + intros [H _]; destruct s; [constructor | discriminate].
  - split.
    + intros H; apply Matches_Cat_inv in H as (s1 & s2 & -> & H1 & H2).
      apply Matches_Class_inv in H1 as (c & -> & Hc); simpl.
      apply IH in H2 as [-> ->]; rewrite Hc; auto.
    + intros [Hl Hp]; destruct s as [|c s]; [discriminate|].
      simpl in Hl, Hp; apply andb_true_iff in Hp as [Hc Hp].
      change (String c s) with (String c "" ++ s)%string.
      constructor; [constructor; assumption | apply IH; split; congruence].
Qed.
End RegexFacts.

Ltac case_gtb :=
repeat match goal with
       | |- context [(?a >? ?b)%Z] => destruct (Z.gtb_spec a b)
       end.

(** ** The identifier validator *)
Section IdentifierFacts.
Import JsString Regex Validators Spec.

Lemma nine_chars (s : string) :
  String.length s = 9 ->
  exists c0 c1 c2 c3 c4 c5 c6 c7 c8,
    s = String c0 (String c1 (String c2 (String c3 (String c4
          (String c5 (String c6 (String c7 (String c8 "")))))))).
Proof.
  intros H.
  do 9 (destruct s as [|? s]; [discriminate|]).
  destruct s; [|discriminate].
  repeat eexists.
Qed.

Lemma NumberOfChar_digit c :
  isDigit c = true -> NumberOfChar (Some c) = Some (digitValue c).
Proof. intros H; simpl; rewrite H; reflexivity. Qed.

Lemma rem2_even (i : nat) :
  i < 9 -> (Z.rem (Z.of_nat i) 2 + 1 = if Nat.even i then 1 else 2)%Z.
Proof. intros H; do 9 (destruct i; [reflexivity|]); lia. Qed.

(** One turn of the loop on a digit adds its adjusted value. *)
Lemma idStep_digit (id : string) (acc : Z) (i : nat) (c : ascii) :
  i < 9 -> String.get i id = Some c -> isDigit c = true ->
  idStep id (Some acc) (Z.of_nat i) = Some (acc + adjusted i (digitValue c))%Z.
Proof.
  intros Hi Hg Hc; unfold idStep, charAt, adjusted.
  destruct (Z.ltb_spec (Z.of_nat i) 0) as [Hn|_]; [lia|].
  rewrite Nat2Z.id, Hg, (NumberOfChar_digit c Hc), (rem2_even i Hi).
  reflexivity.
Qed.

(** On nine digits the loop computes the weighted sum of the text. *)
Lemma idSum_nineDigits (s : string) :
  nineDigitShape s -> idSum s = Some (weightedSum s).
Proof.
  intros [Hl Hd].
  destruct (nine_chars s Hl) as (c0&c1&c2&c3&c4&c5&c6&c7&c8&->).
  simpl in Hd.
  repeat (apply andb_true_iff in Hd as [?H Hd]).
  unfold idSum, idIndices, weightedSum.
  cbn [seq map fold_left weightedSumFrom].
  rewrite (idStep_digit _ _ 0 c0), (idStep_digit _ _ 1 c1),
    (idStep_digit _ _ 2 c2), (idStep_digit _ _ 3 c3), (idStep_digit _ _ 4 c4),
    (idStep_digit _ _ 5 c5), (idStep_digit _ _ 6 c6), (idStep_digit _ _ 7 c7),
    (idStep_digit _ _ 8 c8) by first [lia | reflexivity | assumption].
  f_equal; lia.
Qed.

(** The code accepts exactly the identifiers the specification describes. *)
Lemma isValidIsraeliId_spec (id : string) :
  isValidIsraeliId (Some id) = true <-> validIdentifier id.
Proof.
  unfold isValidIsraeliId, validIdentifier.
  split.
  - intros H.
    destruct (falsy id) eqn:Hf; [discriminate|].
    destruct (Z.eqb_spec (len id) 9) as [Hlen|]; [|discriminate].
    destruct (test nineDigits id) eqn:Ht; [|discriminate].
    simpl in H.
    apply test_Matches, Matches_Rep_Class in Ht.
    rewrite (idSum_nineDigits id Ht) in H.
    split; [exact Ht|].
    apply Z.eqb_eq in H; apply Z.rem_divide in H; [exact H | lia].
  - intros [Hs Hdiv].
    assert (Ht : test nineDigits id = true)
      by (apply test_Matches, Matches_Rep_Class; exact Hs).
    rewrite (idSum_nineDigits id Hs), Ht.
    destruct Hs as [Hl Hd].
    destruct id; [discriminate|]; simpl falsy.
    unfold len; rewrite Hl; simpl.
    apply Z.eqb_eq, Z.rem_divide; [lia | exact Hdiv].
Qed.

(** Replacing one character moves the sum by the difference of the two
    adjusted values at that position. *)
Lemma weightedSumFrom_setChar (s : string) : forall k i c d,
  String.get i s = Some c ->
  weightedSumFrom k (setChar i d s)
  = (weightedSumFrom k s - adjusted (k + i) (digitValue c)
     + adjusted (k + i) (digitValue d))%Z.
Proof.
  induction s as [|a s IH]; intros k [|i] c d H; simpl in *; try discriminate.
  - injection H as ->; rewrite Nat.add_0_r; lia.
  - rewrite (IH (S k) i c d H).
    replace (S k + i) with (k + S i) by lia; lia.
Qed.

Lemma adjusted_range pos v :
  (0 <= v <= 9)%Z -> (0 <= adjusted pos v <= 9)%Z.
Proof.
  intros H; unfold adjusted.
  destruct (Nat.even pos); case_gtb; lia.
Qed.

Lemma adjusted_inj pos v w :
  (0 <= v <= 9)%Z -> (0 <= w <= 9)%Z ->
  adjusted pos v = adjusted pos w -> v = w.
Proof.
  intros Hv Hw; unfold adjusted.
  destruct (Nat.even pos); case_gtb; lia.
Qed.

Lemma forallb_get p (s : string) : forall i c,
  forallb p s = true -> String.get i s = Some c -> p c = true.
Proof.
  induction s as [|a s IH]; intros [|i] c H Hg; simpl in *; try discriminate;
    apply andb_true_iff in H as [Ha H].
  - congruence.
  - eauto.
Qed.

(** C1. [isValidIsraeliId] returns true exactly for the strings of nine
    ASCII digits whose weighted checksum (digit times 1 at even 0-indexed
    positions and times 2 at odd ones, 9 subtracted from a product above 9,
    the nine values summed) is divisible by 10; every other input,
    [null] included, gives false.  "000000018" is accepted and
    "123456789" is rejected. *)
Theorem isValidIsraeliId_checksum :
  (forall id : string, isValidIsraeliId (Some id) = true <-> validIdentifier id)
  /\ isValidIsraeliId None = false
  /\ isValidIsraeliId (Some "000000018") = true
  /\ isValidIsraeliId (Some "123456789") = false.
Proof.
  split; [exact isValidIsraeliId_spec|].
  repeat split; reflexivity.
Qed.

(** C10. The all-zero identifier passes: its weighted sum is 0, which is
    divisible by 10, and nothing but shape and checksum is required. *)
Theorem isValidIsraeliId_all_zero :
  isValidIsraeliId (Some "000000000") = true
  /\ weightedSum "000000000" = 0%Z.
Proof. split; reflexivity. Qed.

(** C5. Replacing one digit of an accepted identifier by a different
    digit always gives a rejected identifier. *)
Theorem isValidIsraeliId_single_digit_mutation
    (id : string) (i : nat) (c d : ascii) :
  isValidIsraeliId (Some id) = true ->
  i < 9 ->
  String.get i id = Some c ->
  isDigit d = true ->
  d <> c ->
  isValidIsraeliId (Some (setChar i d id)) = false.
Proof.
  intros Hv Hi Hg Hd Hne.
  apply isValidIsraeliId_spec in Hv as [[Hl Hds] Hdiv].
  destruct (isValidIsraeliId (Some (setChar i d id))) eqn:E; [|reflexivity].
  exfalso.
  apply isValidIsraeliId_spec in E as [_ Hdiv'].
  unfold weightedSum in Hdiv, Hdiv'.
  rewrite (weightedSumFrom_setChar id 0 i c d Hg) in Hdiv'.
  pose proof (forallb_get _ _ _ _ Hds Hg) as Hc.
  apply isDigit_range in Hc, Hd.
  pose proof (adjusted_range (0 + i) _ Hc) as Rc.
  pose proof (adjusted_range (0 + i) _ Hd) as Rd.
  assert (Hneq : adjusted (0 + i) (digitValue d) <> adjusted (0 + i) (digitValue c)).
  { intros Heq; apply adjusted_inj in Heq; [|assumption..].
    apply digitValue_inj in Heq; contradiction. }
  destruct Hdiv as [k Hk], Hdiv' as [k' Hk'].
  lia.
Qed.

Lemma isValidIsraeliId_single_digit_mutation_witness :
  isValidIsraeliId (Some (setChar 8 "9"%char "000000018")) = false.
Proof.
  apply (isValidIsraeliId_single_digit_mutation "000000018" 8 "8"%char "9"%char).
  - reflexivity.
  - lia.
  - reflexivity.
  - reflexivity.
  - discriminate.
Defined.
End IdentifierFacts.

(** ** The phone validator *)
Section PhoneFacts.
Import JsString Regex Validators Spec.

Lemma Matches_Chr_inv c s : Matches (Chr c) s -> s = String c "".
Proof.
  intros H; apply Matches_Class_inv in H as (c' & -> & H).
  apply Ascii.eqb_eq in H; congruence.
Qed.

Lemma Matches_Chr c : Matches (Chr c) (String c "").
Proof. constructor; apply Ascii.eqb_refl. Qed.

(** The pattern of line 34 describes the domestic shape of section 4.2. *)
Lemma israelPhoneRegex_shape (s : string) :
  Matches israelPhoneRegex s <-> domesticShape s.
Proof.
  unfold israelPhoneRegex, domesticShape; split.
  - intros H.
    apply Matches_Cat_inv in H as (s12 & rest & -> & H12 & Hr).
    apply Matches_Cat_inv in H12 as (s1 & prefix & -> & H1 & Hp).
    apply Matches_Chr_inv in H1 as ->.
    apply Matches_Rep_Class in Hr as [Hl Hd].
    exists prefix, rest; split; [|split; [|split; assumption]].
    { reflexivity. }
    unfold acceptedPrefix.
    repeat (apply Matches_Alt_inv in Hp as [Hp|Hp]).
    + apply Matches_Chr_inv in Hp; auto.
    + apply Matches_Chr_inv in Hp; auto.
    + apply Matches_Chr_inv in Hp; auto.
    + apply Matches_Cat_inv in Hp as (a & b & -> & Ha & Hb).
      apply Matches_Chr_inv in Ha as ->.
      apply Matches_Class_inv in Hb as (d & -> & Hb).
      right; right; right; left; exists d; split; [exact Hb | reflexivity].
    + apply Matches_Cat_inv in Hp as (a & b & -> & Ha & Hb).
      apply Matches_Chr_inv in Ha as ->.
      apply Matches_Class_inv in Hb as (d & -> & Hb).
      do 4 right; left; exists d; split; [exact Hb | reflexivity].
    + apply Matches_Chr_inv in Hp; do 5 right; auto.
    + apply Matches_Chr_inv in Hp; do 6 right; auto.
  - intros (prefix & rest & -> & Hp & Hl & Hd).
    change ("0" ++ prefix ++ rest)%string with (("0" ++ prefix) ++ rest)%string.
    constructor; [|apply Matches_Rep_Class; split; assumption].
    constructor; [apply Matches_Chr|].
    destruct Hp as [-> | [-> | [-> | [(d & Hdg & ->) | [(d & Hdg & ->) | [-> | ->]]]]]].
    + apply MAltL, Matches_Chr.
    + apply MAltR, MAltL, Matches_Chr.
    + do 2 apply MAltR; apply MAltL, Matches_Chr.
    + do 3 apply MAltR; apply MAltL.
      change (String "5" (String d "")) with ("5" ++ String d "")%string.
      constructor; [apply Matches_Chr | constructor; exact Hdg].
    + do 4 apply MAltR; apply MAltL.
      change (String "7" (String d "")) with ("7" ++ String d "")%string.
      constructor; [apply Matches_Chr | constructor; exact Hdg].
    + do 5 apply MAltR; apply MAltL, Matches_Chr.
    + do 6 apply MAltR; apply Matches_Chr.
Qed.

Lemma domesticShape_nonempty : ~ domesticShape "".
Proof. intros (p & r & H & _); discriminate. Qed.

Lemma isValidIsraeliPhoneNumber_spec (phone : string) :
  isValidIsraeliPhoneNumber (Some phone) = true
  <-> domesticShape (removeAll isNonDigit phone).
Proof.
  unfold isValidIsraeliPhoneNumber.
  destruct phone as [|c phone].
  - simpl; split; [discriminate | intros H; destruct (domesticShape_nonempty H)].
  - cbn [falsy]; cbv zeta.
    rewrite test_Matches; apply israelPhoneRegex_shape.
Qed.

Lemma removeAll_digits_only (s : string) :
  forallb isDigit s = true -> removeAll isNonDigit s = s.
Proof.
  induction s as [|c s IH]; simpl; [reflexivity|]; intros H.
  apply andb_true_iff in H as [Hc Hs].
  unfold isNonDigit at 1; rewrite Hc; simpl; f_equal; auto.
Qed.

Lemma removeAll_isNonDigit_digits (s : string) :
  forallb isDigit (removeAll isNonDigit s) = true.
Proof.
  induction s as [|c s IH]; simpl; [reflexivity|].
  unfold isNonDigit at 1; destruct (isDigit c) eqn:E; simpl; [|assumption].
  rewrite E; assumption.
Qed.

(** C2. [isValidIsraeliPhoneNumber] drops every non-digit character and
    returns true exactly when what remains is a 0, then one of the
    prefixes 2, 3, 4, 8, 9, 5 and a digit, or 7 and a digit 1-9, then
    exactly seven digits; the empty string and [null] give false;
    "050-123-4567" and "02-1234567" are accepted, "1234567" is not. *)
Theorem isValidIsraeliPhoneNumber_domestic :
  (forall phone : string,
      isValidIsraeliPhoneNumber (Some phone) = true
      <-> domesticShape (removeAll isNonDigit phone))
  /\ (forall phone : string, forallb isDigit (removeAll isNonDigit phone) = true)
  /\ (forall digits : string,
        forallb isDigit digits = true -> removeAll isNonDigit digits = digits)
  /\ removeAll isNonDigit "050-123-4567" = "0501234567"
  /\ isValidIsraeliPhoneNumber None = false
  /\ isValidIsraeliPhoneNumber (Some "") = false
  /\ isValidIsraeliPhoneNumber (Some "050-123-4567") = true
  /\ isValidIsraeliPhoneNumber (Some "02-1234567") = true
  /\ isValidIsraeliPhoneNumber (Some "1234567") = false.
Proof.
  split; [exact isValidIsraeliPhoneNumber_spec|].
  split; [exact removeAll_isNonDigit_digits|].
  split; [exact removeAll_digits_only|].
  repeat split; reflexivity.
Qed.

(** C9. An accepted number has, once cleaned, nine digits when its second
    digit is 2, 3, 4, 8 or 9 and ten digits when its second digit is 5 or
    7; no other second digit and no other length is accepted. *)
Theorem isValidIsraeliPhoneNumber_length_by_prefix (phone : string) :
  isValidIsraeliPhoneNumber (Some phone) = true ->
  let cleaned := removeAll isNonDigit phone in
  exists second : ascii,
    String.get 1 cleaned = Some second
    /\ ((In second ["2"; "3"; "4"; "8"; "9"]%char /\ String.length cleaned = 9)
        \/ (In second ["5"; "7"]%char /\ String.length cleaned = 10)).
Proof.
  intros H cleaned; subst cleaned.
  apply isValidIsraeliPhoneNumber_spec in H.
  destruct H as (prefix & rest & -> & Hp & Hl & _).
  destruct Hp as [-> | [-> | [-> | [(d & _ & ->) | [(d & _ & ->) | [-> | ->]]]]]];
    simpl; rewrite ?Hl; eexists; (split; [reflexivity|]); simpl; intuition.
Qed.

Lemma isValidIsraeliPhoneNumber_length_by_prefix_witness :
  exists second : ascii,
    String.get 1 (removeAll isNonDigit "02-1234567") = Some second
    /\ ((In second ["2"; "3"; "4"; "8"; "9"]%char
         /\ String.length (removeAll isNonDigit "02-1234567") = 9)
        \/ (In second ["5"; "7"]%char
            /\ String.length (removeAll isNonDigit "02-1234567") = 10)).
Proof.
  apply (isValidIsraeliPhoneNumber_length_by_prefix "02-1234567").
  reflexivity.
Defined.
End PhoneFacts.

(** ** The main-phone rule *)
Section MainPhoneFacts.
Import Zod Schema.
Local Open Scope list_scope.

Lemma entryIssue_inj p i j : entryIssue p i = entryIssue p j -> i = j.
Proof.
  unfold entryIssue; intros H.
  injection H as H; apply app_inv_head in H; congruence.
Qed.

Lemma phonesForEach_length p phones : forall k,
  length (phonesForEach p k phones) = length (filter isMain phones).
Proof.
  induction phones as [|ph phones IH]; intros k; simpl; [reflexivity|].
  rewrite length_app, IH; destruct (isMain ph); reflexivity.
Qed.

Lemma phonesForEach_In p phones : forall k x,
  In x (phonesForEach p k phones) <->
  exists i ph, nth_error phones i = Some ph /\ isMain ph = true
               /\ x = entryIssue p (k + i).
Proof.
  induction phones as [|ph phones IH]; intros k x; simpl.
  - split; [contradiction | intros ([|i] & ph & H & _); discriminate].
  - rewrite in_app_iff, IH; split.
    + intros [H | (i & ph' & Hn & Hm & ->)].
      * destruct (isMain ph) eqn:E; [|contradiction].
        destruct H as [<-|[]]; exists 0, ph.
        rewrite Nat.add_0_r; auto.
      * exists (S i), ph'; replace (k + S i) with (S k + i) by lia; auto.
    + intros ([|i] & ph' & Hn & Hm & ->); simpl in Hn.
      * injection Hn as ->; rewrite Hm, Nat.add_0_r; left; left; reflexivity.
      * right; exists i, ph'; replace (k + S i) with (S k + i) by lia; auto.
Qed.

Lemma phonesForEach_NoDup p phones : forall k,
  NoDup (phonesForEach p k phones).
Proof.
  induction phones as [|ph phones IH]; intros k; simpl; [constructor|].
  destruct (isMain ph); simpl; [|apply IH].
  constructor; [|apply IH].
  rewrite phonesForEach_In; intros (i & ph' & _ & _ & H).
  apply entryIssue_inj in H; lia.
Qed.

(** The callback on parsed entries: with no entry marked main it adds one
    issue, at the root of the array; with exactly one it adds none; with
    [n >= 2] it adds [n] issues, one on the [isMain] box of each entry
    marked main and on no other, and none at the root. *)
Lemma mainPhoneRefine_cases (p : path) (phones : list PhoneNumberData) :
  let n := length (filter isMain phones) in
  let added := mainPhoneRefine p phones in
  (n = 0 -> added = [rootIssue p])
  /\ (n = 1 -> added = [])
  /\ (n >= 2 ->
      length added = n
      /\ NoDup added
      /\ ~ In (rootIssue p) added
      /\ (forall x, In x added <->
            exists i ph, nth_error phones i = Some ph /\ isMain ph = true
                         /\ x = entryIssue p i)).
Proof.
  intros n added; subst n added; unfold mainPhoneRefine.
  repeat split.
  - intros ->; simpl; rewrite app_nil_r; reflexivity.
  - intros ->; reflexivity.
  - destruct (length (filter isMain phones)) as [|[|n]] eqn:E; try lia.
    simpl; rewrite phonesForEach_length; exact E.
  - destruct (length (filter isMain phones)) as [|[|n]] eqn:E; try lia.
    simpl; apply phonesForEach_NoDup.
  - destruct (length (filter isMain phones)) as [|[|n]] eqn:E; try lia.
    simpl; rewrite phonesForEach_In; intros (i & ph & _ & _ & Hx).
    unfold rootIssue, entryIssue in Hx; injection Hx as Hx _.
    apply (f_equal (@length path_elem)) in Hx.
    rewrite length_app in Hx; simpl in Hx; lia.
  - destruct (length (filter isMain phones)) as [|[|n]] eqn:E; try lia.
    simpl; rewrite phonesForEach_In; exact (fun h => h).
  - destruct (length (filter isMain phones)) as [|[|n]] eqn:E; try lia.
    simpl; rewrite phonesForEach_In; exact (fun h => h).
Qed.
End MainPhoneFacts.

(** ** The lookup client *)
Section LookupFacts.
Import JsString Api.
Local Open Scope list_scope.

Variable env : string -> option string.
Variable stringifyCityFilter : string -> string.
Variable stringifyCities : ApiResponse ApiCity -> string.
Variable stringifyStreets : ApiResponse ApiStreet -> string.

Lemma short_query_guard (query : string) :
  String.length query <= 1 ->
  falsy (trim query) || (len (trim query) <? 2)%Z = true.
Proof.
  intros H; pose proof (trim_length query) as Ht.
  apply orb_true_iff; right; apply Z.ltb_lt; unfold len; lia.
Qed.

(** C8. For a query of length 0 or 1 both lookups are already resolved
    with the empty list: no request is issued and nothing is awaited. *)
Theorem fetch_short_query (query cityCode : string) (signal : option AbortSignal) :
  String.length query <= 1 ->
  fetchCities env stringifyCities query signal = Resolved []
  /\ fetchStreets env stringifyCityFilter stringifyStreets query cityCode signal
     = Resolved []
  /\ (forall net, requestCount net (fetchCities env stringifyCities query signal) = 0)
  /\ (forall net,
        requestCount net
          (fetchStreets env stringifyCityFilter stringifyStreets query cityCode signal)
        = 0).
Proof.
  intros H; apply short_query_guard in H.
  unfold fetchCities, fetchStreets; cbv zeta; rewrite H.
  repeat split; reflexivity.
Qed.
End LookupFacts.

Lemma fetch_short_query_witness :
  Api.fetchCities (fun _ => None) (fun _ => "") "a" None = Api.Resolved []
  /\ Api.fetchStreets (fun _ => None) (fun s => s) (fun _ => "") "a" "3000" None
     = Api.Resolved []
  /\ (forall net,
        Api.requestCount net
          (Api.fetchCities (fun _ => None) (fun _ => "") "a" None) = 0)
  /\ (forall net,
        Api.requestCount net
          (Api.fetchStreets (fun _ => None) (fun s => s) (fun _ => "") "a" "3000" None)
        = 0).
Proof.
  apply (fetch_short_query (fun _ => None) (fun s => s) (fun _ => "") (fun _ => "")
           "a" "3000" None).
  simpl; lia.
Defined.

(** ** Parsers: a result is valid exactly when no issue was recorded *)
Section CoherenceFacts.
Import Zod.
Local Open Scope list_scope.

Ltac coherent_aborted :=
  intros _; split; [discriminate | intros [? ?]; discriminate].

Lemma app_nil_iff {T} (l1 l2 : list T) : l1 ++ l2 = [] <-> l1 = [] /\ l2 = [].
Proof.
  split; [apply app_eq_nil | intros [-> ->]; reflexivity].
Qed.

Lemma withDirty_valid {A} (dirty : bool) (a : A) :
  (exists b, withDirty dirty a = Valid b) <-> dirty = false.
Proof.
  destruct dirty; simpl; split; try discriminate; eauto.
  intros [b H]; discriminate.
Qed.

Lemma withDirty_returns {A} (dirty : bool) (a : A) : withDirty dirty a <> Threw.
Proof. destruct dirty; discriminate. Qed.

Lemma runStringChecks_dirty p checks : forall dirty data dirty' data' iss,
  runStringChecks p checks dirty data = (dirty', data', iss) ->
  (dirty' = false <-> dirty = false /\ iss = []).
Proof.
  induction checks as [|chk checks IH]; intros dirty data dirty' data' iss H;
    simpl in H.
  - injection H as <- <- <-; tauto.
  - destruct chk as [n m|n m|n m|]; simpl in H;
      repeat match type of H with
             | context [if ?c then _ else _] => destruct c
             end;
      match type of H with
      | context [runStringChecks p checks ?d ?s] =>
          destruct (runStringChecks p checks d s) as [[d2 s2] is2] eqn:R
      end;
      injection H as <- <- <-; apply IH in R; rewrite R; simpl;
      split; intros [H1 H2]; try discriminate; auto.
Qed.

Lemma z_string_coherent checks : CoherentSchema (z_string checks).
Proof.
  intros p data; unfold z_string, Coherent.
  destruct data; try coherent_aborted.
  destruct (runStringChecks p checks false s) as [[dirty s'] iss] eqn:R; simpl.
  intros _.
  rewrite withDirty_valid, (runStringChecks_dirty _ _ _ _ _ _ _ R); tauto.
Qed.

Lemma z_enum_coherent values params : CoherentSchema (z_enum values params).
Proof.
  intros p data; unfold z_enum, Coherent.
  destruct data; try coherent_aborted.
  destruct (existsb _ values); simpl; [intros _; split; eauto | coherent_aborted].
Qed.

Lemma z_boolean_coherent : CoherentSchema z_boolean.
Proof.
  intros p data; unfold z_boolean, Coherent.
  destruct data; try coherent_aborted; simpl; intros _; split; eauto.
Qed.

Lemma z_default_coherent {A} (inner : schema A) d :
  CoherentSchema inner -> CoherentSchema (z_default inner d).
Proof.
  intros H p data; unfold z_default; destruct data; apply H.
Qed.

Lemma z_optional_coherent {A} (inner : schema A) :
  CoherentSchema inner -> CoherentSchema (z_optional inner).
Proof.
  intros H p data; unfold z_optional.
  assert (G : forall d, Coherent (match inner p d with
                             | (Aborted, iss) => (Aborted, iss)
                             | (Dirty a, iss) => (Dirty (Some a), iss)
                             | (Valid a, iss) => (Valid (Some a), iss)
                             | (Threw, iss) => (Threw, iss)
                             end)).
  { intros d; specialize (H p d); unfold Coherent in *.
    destruct (inner p d) as [[|a|a|] iss]; simpl in *; intros Hn;
      try (rewrite H by discriminate);
      try (split; intros [b Hb]; try discriminate; eauto).
    contradiction. }
  destruct data; try apply G.
  unfold Coherent; simpl; intros _; split; eauto.
Qed.

Lemma runNumberChecks_dirty p checks data : forall dirty dirty' iss,
  runNumberChecks p checks dirty data = (dirty', iss) ->
  (dirty' = false <-> dirty = false /\ iss = []).
Proof.
  induction checks as [|chk checks IH]; intros dirty dirty' iss H; simpl in H.
  - injection H as <- <-; tauto.
  - destruct chk as [m|value inclusive m]; simpl in H;
      repeat match type of H with
             | context [if ?c then _ else _] => destruct c
             end;
      match type of H with
      | context [runNumberChecks p checks ?d data] =>
          destruct (runNumberChecks p checks d data) as [d2 is2] eqn:R
      end;
      injection H as <- <-; apply IH in R; rewrite R; simpl;
      split; intros [H1 H2]; try discriminate; auto.
Qed.

Lemma z_coerce_number_coherent s2n o2n params checks :
  CoherentSchema (z_coerce_number s2n o2n params checks).
Proof.
  intros p data; unfold z_coerce_number, Coherent.
  destruct (Number s2n o2n data) as [[|neg|q]|] eqn:E; try coherent_aborted;
    try (simpl; intros Hn; contradiction);
    destruct (runNumberChecks p checks false _) as [dirty iss] eqn:R; simpl;
    intros _;
    rewrite withDirty_valid, (runNumberChecks_dirty _ _ _ _ _ _ R); tauto.
Qed.

(** A coerced number throws exactly when [Number] does. *)
Lemma z_coerce_number_threw s2n o2n params checks p data :
  fst (z_coerce_number s2n o2n params checks p data) = Threw
  <-> Number s2n o2n data = None.
Proof.
  unfold z_coerce_number.
  destruct (Number s2n o2n data) as [[|neg|q]|] eqn:E; simpl;
    try (split; [discriminate | discriminate]);
    try (split; reflexivity);
    destruct (runNumberChecks p checks false _) as [dirty iss]; simpl;
    (split; [intros H; exfalso; exact (withDirty_returns _ _ H) | discriminate]).
Qed.

Lemma z_superRefine_coherent {A} (inner : schema A) refinement :
  CoherentSchema inner -> CoherentSchema (z_superRefine inner refinement).
Proof.
  intros H p data; specialize (H p data); unfold z_superRefine, Coherent in *.
  destruct (inner p data) as [[|a|a|] iss]; simpl in *.
  - exact H.
  - intros _; specialize (H ltac:(discriminate)).
    rewrite app_nil_iff; split; [intros [H1 _] | intros [b Hb]; discriminate].
    apply H in H1 as [b Hb]; discriminate.
  - destruct (refinement p a) as [|x added]; simpl; [exact H|].
    intros _.
    split; [intros H1; apply app_nil_iff in H1 as [_ H1]; discriminate
           | intros [b Hb]; discriminate].
  - exact H.
Qed.

Lemma z_refine_coherent {A} (inner : schema A) check m :
  CoherentSchema inner -> CoherentSchema (z_refine inner check m).
Proof. apply z_superRefine_coherent. Qed.

Lemma z_superRefine_threw {A} (inner : schema A) refinement p data :
  fst (z_superRefine inner refinement p data) = Threw
  <-> fst (inner p data) = Threw.
Proof.
  unfold z_superRefine.
  destruct (inner p data) as [[|a|a|] iss]; simpl; try tauto.
  destruct (refinement p a); simpl; split; discriminate.
Qed.

(** Arrays *)
Lemma mergeArray_valid {A} (rs : list (pstatus A)) : forall dirty acc l,
  mergeArray dirty rs acc = Valid l ->
  dirty = false /\ exists vs, rs = map Valid vs /\ l = rev acc ++ vs.
Proof.
  induction rs as [|r rs IH]; intros dirty acc l H; simpl in H.
  - destruct dirty; simpl in H; [discriminate|].
    injection H as <-; split; [reflexivity|].
    exists []; rewrite app_nil_r; auto.
  - destruct r as [|a|a|]; [discriminate| | |discriminate].
    + apply IH in H as [H _]; discriminate.
    + apply IH in H as [-> (vs & -> & ->)]; split; [reflexivity|].
      exists (a :: vs); simpl; rewrite <- app_assoc; auto.
Qed.

Lemma mergeArray_all_valid {A} (vs : list A) : forall acc,
  mergeArray false (map Valid vs) acc = Valid (rev acc ++ vs).
Proof.
  induction vs as [|v vs IH]; intros acc; simpl.
  - rewrite app_nil_r; reflexivity.
  - rewrite IH; simpl; rewrite <- app_assoc; reflexivity.
Qed.

Lemma threw_map_Valid {A} (vs : list A) : existsb threw (map Valid vs) = false.
Proof. induction vs as [|v vs IH]; simpl; auto. Qed.

(** The statuses of the items merge into [Threw] only when one of them is
    that. *)
Lemma mergeArray_threw {A} (rs : list (pstatus A)) : forall dirty acc,
  mergeArray dirty rs acc = Threw -> existsb threw rs = true.
Proof.
  induction rs as [|r rs IH]; intros dirty acc H; simpl in H.
  - exfalso; exact (withDirty_returns _ _ H).
  - destruct r as [|a|a|]; simpl; [discriminate| | |reflexivity];
      eapply IH; eauto.
Qed.

Lemma existsb_threw_iff {A} (rs : list (pstatus A)) :
  existsb threw rs = true <-> In Threw rs.
Proof.
  rewrite existsb_exists; split.
  - intros (x & Hx & E); destruct x; try discriminate; exact Hx.
  - intros H; exists Threw; auto.
Qed.

Lemma concat_nil_iff {T} (ls : list (list T)) :
  concat ls = [] <-> Forall (fun l => l = []) ls.
Proof.
  induction ls as [|l ls IH]; simpl.
  - split; auto.
  - rewrite app_nil_iff, IH; split.
    + intros [-> H]; constructor; auto.
    + intros H; inversion H; subst; auto.
Qed.

Lemma parseItems_coherent {A} (elem : schema A) p items : forall k,
  CoherentSchema elem ->
  existsb threw (map fst (parseItems elem p k items)) = false ->
  (Forall (fun l => l = []) (map snd (parseItems elem p k items))
   <-> exists vs, map fst (parseItems elem p k items) = map Valid vs).
Proof.
  intros k H; revert k; induction items as [|item items IH]; intros k; simpl.
  - split; [exists []; reflexivity | constructor].
  - intros Ht; apply orb_false_iff in Ht as [Ht1 Ht2].
    specialize (H (p ++ [PIdx k]) item); unfold Coherent in H.
    assert (Hn : fst (elem (p ++ [PIdx k]) item) <> Threw)
      by (intros E; rewrite E in Ht1; discriminate).
    specialize (H Hn); specialize (IH (S k) Ht2). split.
    + intros HF; inversion HF as [|? ? H1 H2]; subst.
      apply H in H1 as [a Ha]; apply IH in H2 as [vs Hvs].
      exists (a :: vs); simpl; congruence.
    + intros [[|v vs] Hvs]; [discriminate|]; simpl in Hvs.
      injection Hvs as H1 H2; constructor.
      * apply H; eauto.
      * apply IH; eauto.
Qed.

Lemma parseItems_nth {A} (elem : schema A) p items : forall k i item,
  nth_error items i = Some item ->
  nth_error (parseItems elem p k items) i = Some (elem (p ++ [PIdx (k + i)]) item).
Proof.
  induction items as [|it items IH]; intros k [|i] item H; simpl in *;
    try discriminate.
  - injection H as ->; rewrite Nat.add_0_r; reflexivity.
  - rewrite (IH (S k) i item H).
    replace (S k + i) with (k + S i) by lia; reflexivity.
Qed.

Lemma parseItems_length {A} (elem : schema A) p items : forall k,
  length (parseItems elem p k items) = length items.
Proof. induction items; intros k; simpl; auto. Qed.

Lemma parseItems_nth_inv {A} (elem : schema A) p items : forall k i r,
  nth_error (parseItems elem p k items) i = Some r ->
  exists item, nth_error items i = Some item
               /\ r = elem (p ++ [PIdx (k + i)]) item.
Proof.
  induction items as [|it items IH]; intros k [|i] r H; simpl in *;
    try discriminate.
  - injection H as <-; exists it; rewrite Nat.add_0_r; auto.
  - apply IH in H as (item & Hn & ->); exists item; split; [exact Hn|].
    replace (S k + i) with (k + S i) by lia; reflexivity.
Qed.

(** An array throws exactly when the parse of one of its items does. *)
Lemma z_array_threw {A} (elem : schema A) minLength p data :
  fst (z_array elem minLength p data) = Threw
  <-> exists items i item,
        data = JArr items /\ nth_error items i = Some item
        /\ fst (elem (p ++ [PIdx i]) item) = Threw.
Proof.
  unfold z_array.
  destruct data;
    try (split; [discriminate | intros (items & i & item & E & _); discriminate]).
  destruct (match minLength with
            | Some (n, m) => _
            | None => _
            end) as [dirty is0]; cbv zeta; cbn [fst].
  destruct (existsb threw (map fst (parseItems elem p 0 items))) eqn:E.
  - split; [intros _|reflexivity].
    apply existsb_threw_iff, in_map_iff in E as ([st iss] & Hst & Hin).
    simpl in Hst; subst st.
    apply In_nth_error in Hin as [i Hi].
    apply parseItems_nth_inv in Hi as (item & Hit & Hi).
    exists items, i, item; repeat split; auto.
    simpl in Hi; rewrite <- Hi; reflexivity.
  - split.
    + intros H; apply mergeArray_threw in H; congruence.
    + intros (items' & i & item & [= <-] & Hn & Ht).
      exfalso.
      assert (In Threw (map fst (parseItems elem p 0 items))).
      { rewrite <- Ht; apply in_map.
        apply (nth_error_In _ i).
        exact (parseItems_nth elem p items 0 i item Hn). }
      apply existsb_threw_iff in H; congruence.
Qed.

Lemma z_array_coherent {A} (elem : schema A) minLength :
  CoherentSchema elem -> CoherentSchema (z_array elem minLength).
Proof.
  intros H p data; unfold z_array, Coherent.
  destruct data; try coherent_aborted.
  assert (G : forall dirty is0,
             (dirty = false <-> is0 = []) ->
             (if existsb threw (map fst (parseItems elem p 0 items)) then Threw
              else mergeArray dirty (map fst (parseItems elem p 0 items)) [])
             <> Threw ->
             is0 ++ concat (map snd (parseItems elem p 0 items)) = [] <->
             exists a,
               (if existsb threw (map fst (parseItems elem p 0 items)) then Threw
                else mergeArray dirty (map fst (parseItems elem p 0 items)) [])
               = Valid a).
  { intros dirty is0 Hd.
    destruct (existsb threw (map fst (parseItems elem p 0 items))) eqn:Et;
      [intros Hn; contradiction|intros _].
    rewrite app_nil_iff, concat_nil_iff, (parseItems_coherent elem p items 0 H Et).
    split.
    - intros [His [vs Hvs]]; apply Hd in His as ->.
      rewrite Hvs, mergeArray_all_valid; eauto.
    - intros [l Hl]; apply mergeArray_valid in Hl as [Hf (vs & Hvs & _)].
      split; [apply Hd; exact Hf | eauto]. }
  destruct minLength as [[n m]|]; [destruct (length items <? n)%nat|];
    cbv beta iota zeta; cbn [fst snd]; apply G;
    split; intros; try discriminate; reflexivity.
Qed.

(** Objects *)
Lemma shape_pure_coherent {A} (a : A) : CoherentShape (shape_pure a).
Proof. intros p fields; unfold Coherent; simpl; intros _; split; eauto. Qed.

Lemma mergeStatus_valid {A B} (sf : pstatus (A -> B)) (sa : pstatus A) b :
  mergeStatus sf sa = Valid b <->
  exists f a, sf = Valid f /\ sa = Valid a /\ b = f a.
Proof.
  destruct sf as [|f|f|], sa as [|a|a|]; simpl; split;
    try discriminate; try (intros (f' & a' & H1 & H2 & _); discriminate).
  - intros [= <-]; eauto.
  - intros (f' & a' & [= <-] & [= <-] & ->); reflexivity.
Qed.

Lemma mergeStatus_threw {A B} (sf : pstatus (A -> B)) (sa : pstatus A) :
  mergeStatus sf sa = Threw <-> sf = Threw \/ sa = Threw.
Proof.
  destruct sf, sa; simpl; split; intros H; auto; try discriminate;
    destruct H; discriminate.
Qed.

Lemma shape_field_coherent {A B} (pf : obj_parser (A -> B)) key (s : schema A) :
  CoherentShape pf -> CoherentSchema s -> CoherentShape (shape_field pf key s).
Proof.
  intros Hf Hs p fields; unfold shape_field, Coherent.
  specialize (Hf p fields); specialize (Hs (p ++ [PKey key]) (getProp key fields)).
  unfold Coherent in *.
  destruct (pf p fields) as [sf is1]; destruct (s _ _) as [sa is2]; simpl in *.
  intros Hn.
  assert (H1 : sf <> Threw) by (intros ->; apply Hn; reflexivity).
  assert (H2 : sa <> Threw)
    by (intros ->; apply Hn; apply mergeStatus_threw; auto).
  rewrite app_nil_iff, (Hf H1), (Hs H2); split.
  - intros [[f ->] [a ->]]; simpl; eauto.
  - intros [b Hb]; apply mergeStatus_valid in Hb as (f & a & -> & -> & _); eauto.
Qed.

Lemma z_object_coherent {A} (sh : obj_parser A) :
  CoherentShape sh -> CoherentSchema (z_object sh).
Proof.
  intros H p data; unfold z_object.
  destruct data; try (unfold Coherent; coherent_aborted); apply H.
Qed.

(** [safeParse] throws exactly when the parser did; otherwise it fails
    exactly when issues were recorded, and then returns all of them. *)
Lemma safeParse_coherent {A} (s : schema A) data :
  Coherent (s [] data) ->
  (safeParse s data = Throws <-> fst (s [] data) = Threw)
  /\ (fst (s [] data) <> Threw -> snd (s [] data) <> [] ->
      safeParse s data = Failure (snd (s [] data)))
  /\ (forall a, fst (s [] data) = Valid a -> safeParse s data = Success a).
Proof.
  unfold safeParse, Coherent; destruct (s [] data) as [[|a|a|] [|x iss]]; simpl;
    intros H; try specialize (H ltac:(discriminate)).
  - destruct (proj1 H eq_refl) as [b Hb]; discriminate.
  - repeat split; intros; try discriminate; congruence.
  - destruct (proj1 H eq_refl) as [b Hb]; discriminate.
  - repeat split; intros; try discriminate; congruence.
  - repeat split; intros; try discriminate; congruence.
  - pose proof (proj2 H (ex_intro _ a eq_refl)); discriminate.
  - repeat split; intros; try discriminate; congruence.
  - repeat split; intros; try discriminate; congruence.
Qed.
End CoherenceFacts.

(** ** Where the issues of a parser go *)
Section PathFacts.
Import Zod.
Local Open Scope list_scope.

Lemma runStringChecks_path p checks : forall dirty data dirty' data' iss x,
  runStringChecks p checks dirty data = (dirty', data', iss) ->
  In x iss -> ipath x = p.
Proof.
  induction checks as [|chk checks IH]; intros dirty data dirty' data' iss x H Hx;
    simpl in H.
  - injection H as <- <- <-; destruct Hx.
  - destruct chk as [n m|n m|n m|]; simpl in H;
      repeat match type of H with
             | context [if ?c then _ else _] => destruct c
             end;
      match type of H with
      | context [runStringChecks p checks ?d ?s] =>
          destruct (runStringChecks p checks d s) as [[d2 s2] is2] eqn:R
      end;
      injection H as <- <- <-; simpl in Hx;
      repeat (destruct Hx as [<-|Hx]; [reflexivity|]);
      eapply IH; eauto.
Qed.

Lemma z_string_exact checks : ExactPath (z_string checks).
Proof.
  intros p data x; unfold z_string.
  destruct data; simpl; try (intros [<-|[]]; reflexivity).
  destruct (runStringChecks p checks false s) as [[dirty s'] iss] eqn:R; simpl.
  eapply runStringChecks_path; eauto.
Qed.

Lemma z_enum_exact values params : ExactPath (z_enum values params).
Proof.
  intros p data x; unfold z_enum.
  destruct data; simpl; try (intros [<-|[]]; reflexivity).
  destruct (existsb _ values); simpl; [intros [] | intros [<-|[]]; reflexivity].
Qed.

Lemma z_boolean_exact : ExactPath z_boolean.
Proof.
  intros p data x; unfold z_boolean.
  destruct data; simpl; try (intros [<-|[]]; reflexivity); intros [].
Qed.

Lemma z_default_exact {A} (inner : schema A) d :
  ExactPath inner -> ExactPath (z_default inner d).
Proof. intros H p data x; unfold z_default; destruct data; apply H. Qed.

Lemma z_optional_exact {A} (inner : schema A) :
  ExactPath inner -> ExactPath (z_optional inner).
Proof.
  intros H p data x; unfold z_optional.
  assert (G : forall d, In x (snd (match inner p d with
                             | (Aborted, iss) => (Aborted, iss)
                             | (Dirty a, iss) => (Dirty (Some a), iss)
                             | (Valid a, iss) => (Valid (Some a), iss)
                             | (Threw, iss) => (Threw, iss)
                             end)) -> ipath x = p).
  { intros d; specialize (H p d x).
    destruct (inner p d) as [[|a|a|] iss]; exact H. }
  destruct data; try apply G; intros [].
Qed.

Lemma runNumberChecks_path p checks data : forall dirty dirty' iss x,
  runNumberChecks p checks dirty data = (dirty', iss) ->
  In x iss -> ipath x = p.
Proof.
  induction checks as [|chk checks IH]; intros dirty dirty' iss x H Hx; simpl in H.
  - injection H as <- <-; destruct Hx.
  - destruct chk as [m|value inclusive m]; simpl in H;
      repeat match type of H with
             | context [if ?c then _ else _] => destruct c
             end;
      match type of H with
      | context [runNumberChecks p checks ?d data] =>
          destruct (runNumberChecks p checks d data) as [d2 is2] eqn:R
      end;
      injection H as <- <-; simpl in Hx;
      repeat (destruct Hx as [<-|Hx]; [reflexivity|]);
      eapply IH; eauto.
Qed.

Lemma z_coerce_number_exact s2n o2n params checks :
  ExactPath (z_coerce_number s2n o2n params checks).
Proof.
  intros p data x; unfold z_coerce_number.
  destruct (Number s2n o2n data) as [[|neg|q]|] eqn:E;
    try (simpl; intros [<-|[]]; reflexivity);
    try (simpl; intros []);
    destruct (runNumberChecks p checks false _) as [dirty iss] eqn:R; simpl;
    eapply runNumberChecks_path; eauto.
Qed.

Lemma z_refine_exact {A} (inner : schema A) check m :
  ExactPath inner -> ExactPath (z_refine inner check m).
Proof.
  intros H p data x; specialize (H p data x).
  unfold z_refine, z_superRefine.
  destruct (inner p data) as [[|a|a|] iss]; simpl in *; [exact H| | |exact H];
    destruct (check a); simpl; rewrite ?in_app_iff; simpl;
    intuition (subst; auto).
Qed.

(** A record reports the issues of each of its keys. *)
Lemma shape_field_issues {A B} (pf : obj_parser (A -> B)) key (s : schema A) p fields :
  snd (shape_field pf key s p fields)
  = snd (pf p fields) ++ snd (s (p ++ [PKey key]) (getProp key fields)).
Proof.
  unfold shape_field.
  destruct (pf p fields) as [sf is1]; destruct (s _ _) as [sa is2]; reflexivity.
Qed.

Lemma shape_field_status {A B} (pf : obj_parser (A -> B)) key (s : schema A) p fields :
  fst (shape_field pf key s p fields)
  = mergeStatus (fst (pf p fields)) (fst (s (p ++ [PKey key]) (getProp key fields))).
Proof.
  unfold shape_field.
  destruct (pf p fields) as [sf is1]; destruct (s _ _) as [sa is2]; reflexivity.
Qed.

Lemma z_superRefine_incl {A} (inner : schema A) refinement p data x :
  In x (snd (inner p data)) -> In x (snd (z_superRefine inner refinement p data)).
Proof.
  unfold z_superRefine.
  destruct (inner p data) as [[|a|a|] iss]; simpl; auto.
  - intros H; apply in_app_iff; auto.
  - destruct (refinement p a); simpl; auto.
    intros H; apply in_app_iff; auto.
Qed.

(** An array reports the issues of each of its items. *)
Lemma z_array_incl {A} (elem : schema A) minLength p items i item x :
  nth_error items i = Some item ->
  In x (snd (elem (p ++ [PIdx i]) item)) ->
  In x (snd (z_array elem minLength p (JArr items))).
Proof.
  intros Hn Hx; unfold z_array.
  destruct (match minLength with
            | Some (n, m) => _
            | None => _
            end) as [dirty is0]; simpl.
  apply in_app_iff; right; apply in_concat.
  exists (snd (elem (p ++ [PIdx i]) item)); split; [|exact Hx].
  apply in_map_iff; exists (elem (p ++ [PIdx i]) item); split; [reflexivity|].
  apply (nth_error_In _ i).
  exact (parseItems_nth elem p items 0 i item Hn).
Qed.

(** A parser that returns without accepting leaves an issue at its
    path. *)
Lemma unaccepted_leaves_issue {A} (s : schema A) p data :
  CoherentSchema s -> ExactPath s ->
  fst (s p data) <> Threw ->
  (forall a, fst (s p data) <> Valid a) ->
  exists x, In x (snd (s p data)) /\ ipath x = p.
Proof.
  intros Hc He Hn H.
  destruct (snd (s p data)) as [|x iss] eqn:E.
  - apply (Hc p data Hn) in E as [a Ha]; destruct (H a Ha).
  - exists x; split; [left; reflexivity|].
    apply (He p data); rewrite E; left; reflexivity.
Qed.
End PathFacts.

(** ** Parsers that always return *)
Section ReturnFacts.
Import Zod.
Local Open Scope list_scope.

Lemma z_string_returns checks : NoThrow (z_string checks).
Proof.
  intros p data; unfold z_string; destruct data; try discriminate.
  destruct (runStringChecks p checks false s) as [[dirty s'] iss]; simpl.
  apply withDirty_returns.
Qed.

Lemma z_enum_returns values params : NoThrow (z_enum values params).
Proof.
  intros p data; unfold z_enum; destruct data; try discriminate.
  destruct (existsb _ values); discriminate.
Qed.

Lemma z_boolean_returns : NoThrow z_boolean.
Proof. intros p data; unfold z_boolean; destruct data; discriminate. Qed.

Lemma z_default_returns {A} (inner : schema A) d :
  NoThrow inner -> NoThrow (z_default inner d).
Proof. intros H p data; unfold z_default; destruct data; apply H. Qed.

Lemma z_optional_returns {A} (inner : schema A) :
  NoThrow inner -> NoThrow (z_optional inner).
Proof.
  intros H p data; unfold z_optional.
  assert (G : forall d, fst (match inner p d with
                             | (Aborted, iss) => (Aborted, iss)
                             | (Dirty a, iss) => (Dirty (Some a), iss)
                             | (Valid a, iss) => (Valid (Some a), iss)
                             | (Threw, iss) => (Threw, iss)
                             end) <> Threw).
  { intros d; specialize (H p d).
    destruct (inner p d) as [[|a|a|] iss]; simpl in *;
      try discriminate; exfalso; apply H; reflexivity. }
  destruct data; try apply G; discriminate.
Qed.

Lemma z_superRefine_returns {A} (inner : schema A) refinement :
  NoThrow inner -> NoThrow (z_superRefine inner refinement).
Proof. intros H p data E; apply z_superRefine_threw in E; exact (H p data E). Qed.

Lemma z_refine_returns {A} (inner : schema A) check m :
  NoThrow inner -> NoThrow (z_refine inner check m).
Proof. apply z_superRefine_returns. Qed.

Lemma z_array_returns {A} (elem : schema A) minLength :
  NoThrow elem -> NoThrow (z_array elem minLength).
Proof.
  intros H p data E; apply z_array_threw in E as (items & i & item & _ & _ & E).
  exact (H _ _ E).
Qed.

(** An object throws exactly when the parse of one of its keys does. *)
Lemma shape_field_threw {A B} (pf : obj_parser (A -> B)) key (s : schema A) p fields :
  fst (shape_field pf key s p fields) = Threw
  <-> fst (pf p fields) = Threw
      \/ fst (s (p ++ [PKey key]) (getProp key fields)) = Threw.
Proof.
  unfold shape_field.
  destruct (pf p fields) as [sf is1]; destruct (s _ _) as [sa is2]; simpl.
  apply mergeStatus_threw.
Qed.
End ReturnFacts.

(** ** The patient schema *)
Ltac schema_coherent :=
  repeat first
    [ apply z_string_coherent | apply z_enum_coherent | apply z_boolean_coherent
    | apply z_coerce_number_coherent | apply shape_pure_coherent
    | apply z_default_coherent | apply z_optional_coherent
    | apply z_refine_coherent | apply z_superRefine_coherent
    | apply z_array_coherent | apply z_object_coherent
    | apply shape_field_coherent ].

Ltac schema_exact :=
  repeat first
    [ apply z_string_exact | apply z_enum_exact | apply z_boolean_exact
    | apply z_coerce_number_exact | apply z_default_exact
    | apply z_optional_exact | apply z_refine_exact ].

Ltac schema_returns :=
  repeat first
    [ apply z_string_returns | apply z_enum_returns | apply z_boolean_returns
    | apply z_default_returns | apply z_optional_returns
    | apply z_refine_returns | apply z_superRefine_returns
    | apply z_array_returns ].

(** Closes a goal whose hypothesis [H] says that a parser that always
    returns threw. *)
Ltac never_threw H :=
  solve [ discriminate H
        | exfalso; revert H;
          first [ apply z_string_returns | apply z_enum_returns
                | apply z_boolean_returns
                | apply z_default_returns; schema_returns
                | apply z_optional_returns; schema_returns
                | apply z_refine_returns; schema_returns
                | apply z_superRefine_returns; schema_returns ] ].

Section SchemaFacts.
Import Zod Schema Rules.
Local Open Scope list_scope.

Variable StringToNumber : string -> jsnum.
Variable ObjectToNumber : jsval -> option jsnum.

Local Abbreviation Number := (Number StringToNumber ObjectToNumber).
Local Abbreviation patientSchema := (patientSchema StringToNumber ObjectToNumber).
Local Abbreviation addressSchema := (addressSchema StringToNumber ObjectToNumber).
Local Abbreviation addressesField := (addressesField StringToNumber ObjectToNumber).
Local Abbreviation validate := (validate StringToNumber ObjectToNumber).
Local Abbreviation coercionThrows :=
  (coercionThrows StringToNumber ObjectToNumber).

Lemma phoneNumberSchema_coherent : CoherentSchema phoneNumberSchema.
Proof. unfold phoneNumberSchema; schema_coherent. Qed.

Lemma addressSchema_coherent : CoherentSchema addressSchema.
Proof. unfold Schema.addressSchema; schema_coherent. Qed.

Lemma patientSchema_coherent : CoherentSchema patientSchema.
Proof. unfold Schema.patientSchema; schema_coherent. Qed.

(** The issues of a record are those of its six keys. *)
Lemma patientSchema_issues fields x :
  In x (snd (patientSchema [] (JObj fields))) <->
  In x (snd (idField [PKey "id"] (getProp "id" fields)))
  \/ In x (snd (firstNameField [PKey "firstName"] (getProp "firstName" fields)))
  \/ In x (snd (lastNameField [PKey "lastName"] (getProp "lastName" fields)))
  \/ In x (snd (phoneNumbersField [PKey "phoneNumbers"] (getProp "phoneNumbers" fields)))
  \/ In x (snd (hmoEnum [PKey "hmo"] (getProp "hmo" fields)))
  \/ In x (snd (addressesField [PKey "addresses"] (getProp "addresses" fields))).
Proof.
  unfold Schema.patientSchema, z_object.
  rewrite !shape_field_issues, !in_app_iff; simpl; tauto.
Qed.

Lemma phoneNumberSchema_issues p entry x :
  In x (snd (phoneNumberSchema p (JObj entry))) <->
  In x (snd (phoneTypeEnum (p ++ [PKey "type"]) (getProp "type" entry)))
  \/ In x (snd (phoneNumberField (p ++ [PKey "number"]) (getProp "number" entry)))
  \/ In x (snd (isMainField (p ++ [PKey "isMain"]) (getProp "isMain" entry))).
Proof.
  unfold phoneNumberSchema, z_object.
  rewrite !shape_field_issues, !in_app_iff; simpl; tauto.
Qed.

(** The phone entries never throw. *)
Lemma phoneNumberSchema_returns : NoThrow phoneNumberSchema.
Proof.
  intros p data; unfold phoneNumberSchema, z_object.
  destruct data; try discriminate.
  rewrite !shape_field_threw; intros H.
  repeat (destruct H as [H|H]); never_threw H.
Qed.

Lemma phoneNumbersField_returns : NoThrow phoneNumbersField.
Proof.
  unfold phoneNumbersField.
  apply z_superRefine_returns, z_array_returns, phoneNumberSchema_returns.
Qed.

(** An address entry throws exactly when the coercion of its street number
    does. *)
Lemma addressSchema_threw p item :
  fst (addressSchema p item) = Threw
  <-> exists entry, item = JObj entry
                    /\ Number (getProp "streetNumber" entry) = None.
Proof.
  unfold Schema.addressSchema, z_object.
  destruct item;
    try (split; [discriminate | intros (entry & E & _); discriminate]).
  rewrite !shape_field_threw.
  unfold streetNumberField; rewrite z_coerce_number_threw.
  split.
  - intros H; repeat (destruct H as [H|H]);
      first [never_threw H | exists fields; split; [reflexivity | exact H]].
  - intros (entry & [= <-] & H); left; left; right; exact H.
Qed.

Lemma patientSchema_threw raw :
  fst (patientSchema [] raw) = Threw <-> coercionThrows raw.
Proof.
  unfold Schema.patientSchema, z_object, Rules.coercionThrows.
  destruct raw;
    try (split; [discriminate | intros (f & i & k & e & E & _); discriminate]).
  rewrite !shape_field_threw.
  unfold Schema.addressesField; rewrite z_array_threw.
  split.
  - intros H; repeat (destruct H as [H|H]);
      try never_threw H;
      try (exfalso; exact (phoneNumbersField_returns _ _ H)).
    destruct H as (items & i & item & Harr & Hn & Ht).
    apply addressSchema_threw in Ht as (entry & -> & Ht).
    exists fields, items, i, entry; auto.
  - intros (f & items & i & entry & [= <-] & Harr & Hn & Ht).
    right; exists items, i, (JObj entry); repeat split; auto.
    apply addressSchema_threw; eauto.
Qed.

(** Validation throws exactly when that coercion does. *)
Lemma validate_throws raw : validate raw = Throws <-> coercionThrows raw.
Proof.
  rewrite <- patientSchema_threw.
  apply safeParse_coherent, patientSchema_coherent.
Qed.

(** When it does not, validation returns a record or a list of issues that
    is not empty. *)
Lemma validate_returns raw :
  ~ coercionThrows raw ->
  (exists r, validate raw = Success r)
  \/ (exists errs, errs <> [] /\ validate raw = Failure errs).
Proof.
  intros Hn; rewrite <- patientSchema_threw in Hn.
  pose proof (patientSchema_coherent [] raw) as Hc.
  destruct (safeParse_coherent _ raw Hc) as (_ & Hf & Hs).
  destruct (snd (patientSchema [] raw)) as [|x iss] eqn:E.
  - left; apply (Hc Hn) in E as [r Hr]; exists r; apply Hs; exact Hr.
  - right; exists (x :: iss); split; [discriminate|].
    apply Hf; [exact Hn | discriminate].
Qed.

(** A record with an issue is then a failure that carries it. *)
Lemma validate_reports raw x :
  ~ coercionThrows raw ->
  In x (snd (patientSchema [] raw)) -> reports (validate raw) x.
Proof.
  intros Hn Hx; exists (snd (patientSchema [] raw)); split; [|exact Hx].
  rewrite <- patientSchema_threw in Hn.
  apply safeParse_coherent; [apply patientSchema_coherent | exact Hn|].
  intros E; rewrite E in Hx; destruct Hx.
Qed.

(** Validation succeeds only without an issue. *)
Lemma validate_success_clean raw r :
  validate raw = Success r -> snd (patientSchema [] raw) = [].
Proof.
  unfold Schema.validate, safeParse.
  pose proof (patientSchema_coherent [] raw) as Hc; unfold Coherent in Hc.
  destruct (patientSchema [] raw) as [[|a|a|] [|x iss]]; simpl in *;
    try discriminate; try reflexivity.
  intros _.
  pose proof (proj2 (Hc ltac:(discriminate)) (ex_intro _ a eq_refl)).
  discriminate.
Qed.

(** C6, as amended.  A record whose [phoneNumbers] or [addresses] is the
    empty array is never accepted.  Validation throws exactly when the
    coercion of the street number of an address entry does, which an empty
    [addresses] excludes; otherwise the record is a failure that carries
    the "at least one ... is required" issue of the empty collection,
    whatever its other fields hold. *)
Theorem empty_collection_rejected (fields : list (string * jsval)) :
  getProp "phoneNumbers" fields = JArr [] \/ getProp "addresses" fields = JArr [] ->
  (forall r, validate (JObj fields) <> Success r)
  /\ (validate (JObj fields) = Throws <-> coercionThrows (JObj fields))
  /\ (getProp "addresses" fields = JArr [] -> ~ coercionThrows (JObj fields))
  /\ (~ coercionThrows (JObj fields) ->
      exists errs,
        validate (JObj fields) = Failure errs
        /\ (getProp "phoneNumbers" fields = JArr [] ->
            In (mkIssue too_small [PKey "phoneNumbers"]
                  (Message "At least one phone number is required")) errs)
        /\ (getProp "addresses" fields = JArr [] ->
            In (mkIssue too_small [PKey "addresses"]
                  (Message "At least one address is required")) errs)).
Proof.
  intros H.
  assert (Hp : getProp "phoneNumbers" fields = JArr [] ->
               In (mkIssue too_small [PKey "phoneNumbers"]
                     (Message "At least one phone number is required"))
                  (snd (patientSchema [] (JObj fields)))).
  { intros E; apply patientSchema_issues; do 3 right; left.
    rewrite E; left; reflexivity. }
  assert (Ha : getProp "addresses" fields = JArr [] ->
               In (mkIssue too_small [PKey "addresses"]
                     (Message "At least one address is required"))
                  (snd (patientSchema [] (JObj fields)))).
  { intros E; apply patientSchema_issues; do 5 right.
    rewrite E; left; reflexivity. }
  split; [|split; [|split]].
  - intros r Hr; apply validate_success_clean in Hr.
    destruct H as [H|H]; [apply Hp in H | apply Ha in H];
      rewrite Hr in H; destruct H.
  - apply validate_throws.
  - intros E (f & items & i & entry & [= <-] & Harr & Hn & _).
    rewrite E in Harr; injection Harr as <-; destruct i; discriminate.
  - intros Hn.
    exists (snd (patientSchema [] (JObj fields))); split; [|split; assumption].
    rewrite <- patientSchema_threw in Hn.
    apply safeParse_coherent; [apply patientSchema_coherent | exact Hn|].
    destruct H as [H|H]; [apply Hp in H | apply Ha in H]; intros E;
      rewrite E in H; destruct H.
Qed.
End SchemaFacts.

(** ** Parsing a normalized value again *)
Section StabilityFacts.
Import JsString Zod.
Local Open Scope list_scope.

Lemma trimStart_startsClean s : startsClean (trimStart s) = true.
Proof.
  induction s as [|c s IH]; simpl; [reflexivity|].
  destruct (isWhiteSpace c) eqn:E; [exact IH | simpl; rewrite E; reflexivity].
Qed.

Lemma trimStart_id s : startsClean s = true -> trimStart s = s.
Proof.
  destruct s as [|c s]; simpl; [reflexivity|].
  destruct (isWhiteSpace c); [discriminate | reflexivity].
Qed.

Lemma trimEnd_startsClean s : startsClean s = true -> startsClean (trimEnd s) = true.
Proof.
  destruct s as [|c s]; simpl; [reflexivity|]; intros H.
  destruct (trimEnd s); [|exact H].
  destruct (isWhiteSpace c) eqn:W; [discriminate | simpl; rewrite W; reflexivity].
Qed.

Lemma trimEnd_idem s : trimEnd (trimEnd s) = trimEnd s.
Proof.
  induction s as [|c s IH]; simpl; [reflexivity|].
  destruct (trimEnd s) as [|a t] eqn:E.
  - destruct (isWhiteSpace c) eqn:W; simpl; [reflexivity | rewrite W; reflexivity].
  - change (trimEnd (String c (String a t)))
      with (match trimEnd (String a t) with
            | EmptyString => if isWhiteSpace c then EmptyString else String c EmptyString
            | u => String c u
            end).
    rewrite IH; reflexivity.
Qed.

Lemma trim_idem s : trim (trim s) = trim s.
Proof.
  unfold trim.
  rewrite (trimStart_id (trimEnd (trimStart s))), trimEnd_idem; [reflexivity|].
  apply trimEnd_startsClean, trimStart_startsClean.
Qed.

Lemma runStringChecks_noTrim p checks : forall dirty data dirty' data' iss,
  noTrim checks = true ->
  runStringChecks p checks dirty data = (dirty', data', iss) -> data' = data.
Proof.
  induction checks as [|chk checks IH]; intros dirty data dirty' data' iss Hn H;
    simpl in H, Hn.
  - injection H as _ <- _; reflexivity.
  - apply andb_true_iff in Hn as [Hc Hn].
    destruct chk as [n m|n m|n m|]; [| | |discriminate]; simpl in H;
      repeat match type of H with
             | context [if ?c then _ else _] => destruct c
             end;
      match type of H with
      | context [runStringChecks p checks ?d ?s] =>
          destruct (runStringChecks p checks d s) as [[d2 s2] is2] eqn:R
      end;
      injection H as _ <- _; eapply IH; eauto.
Qed.

Lemma z_string_stable checks :
  noTrim checks = true -> Stable (z_string checks) JStr.
Proof.
  intros Hn p data a H; unfold z_string in *.
  destruct data; try discriminate.
  destruct (runStringChecks p checks false s) as [[dirty s'] iss] eqn:R.
  simpl in H.
  pose proof (runStringChecks_noTrim _ _ _ _ _ _ _ Hn R) as ->.
  pose proof (runStringChecks_dirty _ _ _ _ _ _ _ R) as Hd.
  destruct dirty; simpl in H; [discriminate|]; injection H as <-.
  destruct (proj1 Hd eq_refl) as [_ ->].
  rewrite R; reflexivity.
Qed.

Lemma z_string_trim_min_stable n m : Stable (z_string [STrim; SMin n m]) JStr.
Proof.
  intros p data a H; unfold z_string in *.
  destruct data; try discriminate.
  simpl in H |- *.
  destruct (len (trim s) <? n)%Z eqn:E; simpl in H; [discriminate|].
  injection H as <-.
  rewrite trim_idem, E; reflexivity.
Qed.

Lemma z_enum_stable values params : Stable (z_enum values params) JStr.
Proof.
  intros p data a H; unfold z_enum in *.
  destruct data; try discriminate.
  destruct (existsb (String.eqb s) values) eqn:E; simpl in H; [|discriminate].
  injection H as <-; rewrite E; reflexivity.
Qed.

Lemma z_boolean_stable : Stable z_boolean JBool.
Proof.
  intros p data a H; unfold z_boolean in *.
  destruct data; try discriminate.
  injection H as <-; reflexivity.
Qed.

Lemma z_default_stable {A} (inner : schema A) d toJs :
  (forall a, toJs a <> JUndefined) ->
  Stable inner toJs -> Stable (z_default inner d) toJs.
Proof.
  intros Hu Hs p data a H.
  assert (G : inner p (toJs a) = (Valid a, [])).
  { unfold z_default in H; destruct data; eapply Hs; exact H. }
  unfold z_default; specialize (Hu a); destruct (toJs a); congruence.
Qed.

Lemma z_optional_stable {A} (inner : schema A) toJs :
  (forall a, toJs a <> JUndefined) ->
  Stable inner toJs -> Stable (z_optional inner) (optionToJs toJs).
Proof.
  intros Hu Hs p data o H.
  assert (G : forall d,
             fst (match inner p d with
                  | (Aborted, iss) => (Aborted, iss)
                  | (Dirty a, iss) => (Dirty (Some a), iss)
                  | (Valid a, iss) => (Valid (Some a), iss)
                  | (Threw, iss) => (Threw, iss)
                  end) = Valid o ->
             exists a, o = Some a /\ inner p (toJs a) = (Valid a, [])).
  { intros d Hd; pose proof (Hs p d) as Hs'.
    destruct (inner p d) as [[|a|a|] iss]; simpl in *; try discriminate.
    injection Hd as <-; eauto. }
  assert (G' : (exists a, o = Some a /\ inner p (toJs a) = (Valid a, [])) ->
               z_optional inner p (optionToJs toJs o) = (Valid o, [])).
  { intros (a & -> & Ha); unfold z_optional; simpl.
    specialize (Hu a); destruct (toJs a); try congruence; rewrite Ha; reflexivity. }
  unfold z_optional in H; destruct data;
    try (apply G'; eapply G; exact H).
  injection H as <-; reflexivity.
Qed.

Lemma z_coerce_number_stable s2n o2n params checks :
  Stable (z_coerce_number s2n o2n params checks) JNum.
Proof.
  intros p data a H; unfold z_coerce_number in *; simpl Number at 1.
  destruct (Number s2n o2n data) as [[|neg|q]|] eqn:E; try discriminate;
    destruct (runNumberChecks p checks false _) as [dirty iss] eqn:R;
    pose proof (runNumberChecks_dirty _ _ _ _ _ _ R) as Hd;
    destruct dirty; simpl in H; try discriminate; injection H as <-;
    destruct (proj1 Hd eq_refl) as [_ ->];
    simpl; rewrite R; reflexivity.
Qed.

Lemma z_superRefine_stable {A} (inner : schema A) refinement toJs :
  Stable inner toJs -> Stable (z_superRefine inner refinement) toJs.
Proof.
  intros Hs p data a H; specialize (Hs p data); unfold z_superRefine in *.
  destruct (inner p data) as [[|b|b|] iss]; simpl in *; try discriminate.
  destruct (refinement p b) as [|x added] eqn:E; simpl in H; [|discriminate].
  injection H as <-.
  rewrite (Hs b eq_refl), E; reflexivity.
Qed.

Lemma z_refine_stable {A} (inner : schema A) check m toJs :
  Stable inner toJs -> Stable (z_refine inner check m) toJs.
Proof. apply z_superRefine_stable. Qed.

Lemma parseItems_stable {A} (elem : schema A) toJs p items :
  Stable elem toJs ->
  forall k l,
    map fst (parseItems elem p k items) = map Valid l ->
    parseItems elem p k (map toJs l) = map (fun a => (Valid a, [])) l.
Proof.
  intros Hs; induction items as [|item items IH]; intros k [|a l] H;
    simpl in *; try discriminate; [reflexivity|].
  injection H as H1 H2.
  rewrite (Hs _ _ _ H1), (IH _ _ H2); reflexivity.
Qed.

Lemma concat_map_nil {T U} (l : list T) :
  concat (map (fun _ : T => @nil U) l) = [].
Proof. induction l; simpl; auto. Qed.

Lemma z_array_stable {A} (elem : schema A) minLength toJs :
  Stable elem toJs ->
  Stable (z_array elem minLength) (fun l => JArr (map toJs l)).
Proof.
  intros Hs p data l H; unfold z_array in *.
  destruct data; try discriminate.
  destruct (match minLength with
            | Some (n, m) =>
                if (length items <? n)%nat
                then (true, [mkIssue too_small p (Message m)])
                else (false, [])
            | None => (false, [])
            end) as [dirty is0] eqn:M.
  simpl in H.
  destruct (existsb threw (map fst (parseItems elem p 0 items))) eqn:Et;
    [discriminate|].
  apply mergeArray_valid in H as [-> (vs & Hvs & ->)].
  simpl rev; simpl app.
  assert (Hl : length vs = length items).
  { rewrite <- (length_map Valid vs), <- Hvs, length_map.
    apply parseItems_length. }
  rewrite length_map, Hl.
  assert (M0 : is0 = []).
  { destruct minLength as [[n m]|]; [destruct (length items <? n)%nat|];
      congruence. }
  rewrite (parseItems_stable elem toJs p items Hs 0 vs Hvs).
  destruct minLength as [[n m]|]; [destruct (length items <? n)%nat|];
    try discriminate;
    rewrite !map_map; simpl;
    change (map (fun x : A => Valid x) vs) with (map Valid vs);
    rewrite threw_map_Valid, (mergeArray_all_valid vs []); simpl; f_equal;
    apply concat_map_nil.
Qed.

(** A shape whose keys all parse to valid values without issues. *)
Lemma shape_field_ok {A B} (pf : obj_parser (A -> B)) key (s : schema A)
    p fields g a :
  pf p fields = (Valid g, []) ->
  s (p ++ [PKey key]) (getProp key fields) = (Valid a, []) ->
  shape_field pf key s p fields = (Valid (g a), []).
Proof. intros H1 H2; unfold shape_field; rewrite H1, H2; reflexivity. Qed.
End StabilityFacts.

(** ** Validation of a normalized record *)
Section IdempotenceFacts.
Import JsString Zod Schema.
Local Open Scope list_scope.

Variable StringToNumber : string -> jsnum.
Variable ObjectToNumber : jsval -> option jsnum.

Local Abbreviation patientSchema' := (patientSchema StringToNumber ObjectToNumber).
Local Abbreviation addressSchema' := (addressSchema StringToNumber ObjectToNumber).
Local Abbreviation addressesField' := (addressesField StringToNumber ObjectToNumber).
Local Abbreviation streetNumberField' := (streetNumberField StringToNumber ObjectToNumber).
Local Abbreviation validate' := (validate StringToNumber ObjectToNumber).

Lemma JStr_defined (s : string) : JStr s <> JUndefined.
Proof. discriminate. Qed.

Lemma JBool_defined (b : bool) : JBool b <> JUndefined.
Proof. discriminate. Qed.

Lemma idField_stable : Stable idField JStr.
Proof. apply z_refine_stable, z_string_stable; reflexivity. Qed.

Lemma firstNameField_stable : Stable firstNameField JStr.
Proof. apply z_string_trim_min_stable. Qed.

Lemma lastNameField_stable : Stable lastNameField JStr.
Proof. apply z_string_trim_min_stable. Qed.

Lemma phoneNumberField_stable : Stable phoneNumberField JStr.
Proof. apply z_refine_stable, z_string_stable; reflexivity. Qed.

Lemma isMainField_stable : Stable isMainField JBool.
Proof. apply z_default_stable; [apply JBool_defined | apply z_boolean_stable]. Qed.

Lemma commentsField_stable : Stable commentsField (optionToJs JStr).
Proof.
  apply z_optional_stable; [apply JStr_defined | apply z_string_stable; reflexivity].
Qed.

Lemma streetNumberField_stable : Stable streetNumberField' JNum.
Proof. apply z_coerce_number_stable. Qed.

Ltac split_shape H :=
  repeat match type of H with
         | fst (shape_field _ _ _ _ _) = Valid _ =>
             let g := fresh "g" in
             let a := fresh "a" in
             let Ha := fresh "Ha" in
             rewrite shape_field_status in H;
             apply mergeStatus_valid in H as (g & a & H & Ha & ->)
         end;
  simpl in H; injection H as <-.

Lemma phoneNumberSchema_stable : Stable phoneNumberSchema phoneToJs.
Proof.
  intros p data ph H; unfold phoneNumberSchema, z_object in H.
  destruct data; try discriminate.
  split_shape H.
  unfold phoneNumberSchema, z_object, phoneToJs; cbn [type number isMain].
  repeat apply shape_field_ok; cbn [getProp String.eqb Ascii.eqb Bool.eqb];
    [ reflexivity
    | exact (z_enum_stable _ _ _ _ _ Ha1)
    | exact (phoneNumberField_stable _ _ _ Ha0)
    | exact (isMainField_stable _ _ _ Ha) ].
Qed.
Lemma addressSchema_stable : Stable addressSchema' addressToJs.
Proof.
  intros p data ad H; unfold Schema.addressSchema, z_object in H.
  destruct data; try discriminate.
  split_shape H.
  unfold Schema.addressSchema, z_object, addressToJs;
    cbn [cityCode cityName streetCode streetName streetNumber addressType comments].
  assert (Hc : commentsField (p ++ [PKey "comments"])
                 (getProp "comments"
                    match a with
                    | Some c => [("comments", JStr c)]
                    | None => []
                    end) = (Valid a, [])).
  { pose proof (commentsField_stable _ _ _ Ha) as Hc.
    destruct a; exact Hc. }
  repeat apply shape_field_ok;
    cbn [getProp String.eqb Ascii.eqb Bool.eqb app];
    [ reflexivity
    | refine (z_string_stable _ _ _ _ _ Ha5); reflexivity
    | refine (z_string_stable _ _ _ _ _ Ha4); reflexivity
    | refine (z_string_stable _ _ _ _ _ Ha3); reflexivity
    | refine (z_string_stable _ _ _ _ _ Ha2); reflexivity
    | exact (streetNumberField_stable _ _ _ Ha1)
    | exact (z_enum_stable _ _ _ _ _ Ha0)
    | exact Hc ].
Qed.

Lemma phoneNumbersField_stable :
  Stable phoneNumbersField (fun l => JArr (map phoneToJs l)).
Proof. apply z_superRefine_stable, z_array_stable, phoneNumberSchema_stable. Qed.

Lemma addressesField_stable :
  Stable addressesField' (fun l => JArr (map addressToJs l)).
Proof. apply z_array_stable, addressSchema_stable. Qed.

Lemma patientSchema_stable : Stable patientSchema' patientToJs.
Proof.
  intros p data r H; unfold Schema.patientSchema, z_object in H.
  destruct data; try discriminate.
  split_shape H.
  unfold Schema.patientSchema, z_object, patientToJs;
    cbn [id firstName lastName phoneNumbers hmo addresses].
  repeat apply shape_field_ok;
    cbn [getProp String.eqb Ascii.eqb Bool.eqb];
    [ reflexivity
    | exact (idField_stable _ _ _ Ha4)
    | exact (firstNameField_stable _ _ _ Ha3)
    | exact (lastNameField_stable _ _ _ Ha2)
    | exact (phoneNumbersField_stable _ _ _ Ha1)
    | exact (z_enum_stable _ _ _ _ _ Ha0)
    | exact (addressesField_stable _ _ _ Ha) ].
Qed.

Lemma safeParse_success {A} (s : schema A) data a :
  safeParse s data = Success a -> fst (s [] data) = Valid a.
Proof.
  unfold safeParse; destruct (s [] data) as [[|b|b|] [|x iss]]; simpl;
    intros H; try discriminate; injection H as <-; reflexivity.
Qed.

(** C7. When a raw record validates, validating the normalized record it
    produced validates again, with no issue at all and the same normalized
    record. *)
Theorem validate_idempotent (raw : jsval) (r : PatientFormData) :
  validate' raw = Success r ->
  validate' (patientToJs r) = Success r
  /\ snd (patientSchema' [] (patientToJs r)) = [].
Proof.
  intros H; apply safeParse_success in H.
  apply patientSchema_stable in H.
  unfold Schema.validate, safeParse; rewrite H; auto.
Qed.
End IdempotenceFacts.

(** ** The model on sample records *)
Section Runs.
Import Zod Schema Samples.
Local Open Scope list_scope.

Local Abbreviation run := (validate decimalToNumber plainObjectToNumber).

(** The three lists of section 8. *)
Example mainPhoneRefine_none_main :
  mainPhoneRefine [PKey "phoneNumbers"]
    [mkPhone "Home" "" false; mkPhone "Home" "" false]
  = [rootIssue [PKey "phoneNumbers"]].
Proof. reflexivity. Qed.

Example mainPhoneRefine_two_main :
  mainPhoneRefine [PKey "phoneNumbers"]
    [mkPhone "Home" "" true; mkPhone "Home" "" true]
  = [entryIssue [PKey "phoneNumbers"] 0; entryIssue [PKey "phoneNumbers"] 1].
Proof. reflexivity. Qed.

Example mainPhoneRefine_one_main :
  mainPhoneRefine [PKey "phoneNumbers"]
    [mkPhone "Home" "" true; mkPhone "Home" "" false]
  = [].
Proof. reflexivity. Qed.

(** An entry whose [type] is missing aborts the array: the only issue is
    the one of the entry, and the main-phone rule is not run. *)
Example phoneNumbersField_aborted_entry :
  phoneNumbersField [PKey "phoneNumbers"] sampleAbortedEntry
  = (Aborted,
     [mkIssue invalid_type [PKey "phoneNumbers"; PIdx 0; PKey "type"]
        (Message "Phone type is required")]).
Proof. reflexivity. Qed.

Example validate_sampleRaw : run sampleRaw = Success sampleRecord.
Proof. vm_compute; reflexivity. Qed.

(** Four fields wrong at once: the four paths come back together. *)
Example validate_sampleManyErrors :
  exists errs,
    run sampleManyErrors = Failure errs
    /\ map ipath errs
       = [[PKey "id"]; [PKey "firstName"];
          [PKey "phoneNumbers"; PIdx 0; PKey "number"];
          [PKey "addresses"; PIdx 0; PKey "streetNumber"];
          [PKey "addresses"; PIdx 0; PKey "streetNumber"]].
Proof. eexists; split; vm_compute; reflexivity. Qed.
End Runs.

Lemma empty_collection_rejected_witness :
  exists errs,
    Schema.validate Samples.decimalToNumber Samples.plainObjectToNumber
      (Zod.JObj Samples.sampleNoPhones) = Zod.Failure errs
    /\ (Zod.getProp "phoneNumbers" Samples.sampleNoPhones = Zod.JArr [] ->
        In (Zod.mkIssue Zod.too_small [Zod.PKey "phoneNumbers"]
              (Zod.Message "At least one phone number is required")) errs)
    /\ (Zod.getProp "addresses" Samples.sampleNoPhones = Zod.JArr [] ->
        In (Zod.mkIssue Zod.too_small [Zod.PKey "addresses"]
              (Zod.Message "At least one address is required")) errs).
Proof.
  refine (proj2 (proj2 (proj2
            (empty_collection_rejected Samples.decimalToNumber
               Samples.plainObjectToNumber Samples.sampleNoPhones
               (or_introl eq_refl)))) _).
  intros T; apply validate_throws in T; vm_compute in T; discriminate.
Defined.

Lemma validate_idempotent_witness :
  Schema.validate Samples.decimalToNumber Samples.plainObjectToNumber
    (Schema.patientToJs Samples.sampleRecord) = Zod.Success Samples.sampleRecord
  /\ snd (Schema.patientSchema Samples.decimalToNumber Samples.plainObjectToNumber
            [] (Schema.patientToJs Samples.sampleRecord)) = [].
Proof.
  apply (validate_idempotent Samples.decimalToNumber Samples.plainObjectToNumber
           Samples.sampleRaw Samples.sampleRecord).
  vm_compute; reflexivity.
Defined.

(** ** More on the identifier checksum *)
Section ChecksumFacts.
Import JsString Regex Validators Spec Edits.

Lemma weightedSumFrom_app (s1 s2 : string) : forall k,
  weightedSumFrom k (s1 ++ s2)
  = (weightedSumFrom k s1 + weightedSumFrom (k + String.length s1) s2)%Z.
Proof.
  induction s1 as [|c s1 IH]; intros k; simpl.
  - rewrite Nat.add_0_r; reflexivity.
  - rewrite IH; replace (S k + String.length s1) with (k + S (String.length s1)) by lia.
    lia.
Qed.

Lemma length_append (s1 s2 : string) :
  String.length (s1 ++ s2) = String.length s1 + String.length s2.
Proof. induction s1; simpl; congruence. Qed.

Lemma forallb_append p (s1 s2 : string) :
  forallb p (s1 ++ s2) = forallb p s1 && forallb p s2.
Proof.
  induction s1 as [|c s1 IH]; simpl; [reflexivity|].
  rewrite IH; apply andb_assoc.
Qed.

Lemma digitChar_value v :
  (0 <= v <= 9)%Z -> isDigit (digitChar v) = true /\ digitValue (digitChar v) = v.
Proof.
  intros H; unfold isDigit, digitValue, digitChar, code.
  rewrite N_ascii_embedding by lia.
  split; [apply andb_true_iff; split; apply N.leb_le; lia | lia].
Qed.

Lemma check_value (w : Z) :
  let v := ((10 - w mod 10) mod 10)%Z in
  (0 <= v <= 9)%Z
  /\ ((w + v) mod 10 = 0)%Z
  /\ forall u, (0 <= u <= 9)%Z -> ((w + u) mod 10 = 0)%Z -> u = v.
Proof.
  cbv zeta; repeat split; try intros u Hu Hm;
    Z.to_euclidean_division_equations; lia.
Qed.

Lemma weightedSum_snoc (prefix : string) (c : ascii) :
  String.length prefix = 8 ->
  isDigit c = true ->
  weightedSum (prefix ++ String c "") = (weightedSum prefix + digitValue c)%Z.
Proof.
  intros Hl Hc; unfold weightedSum; rewrite weightedSumFrom_app, Hl; simpl.
  apply isDigit_range in Hc.
  unfold adjusted; simpl; case_gtb; lia.
Qed.

(** X1. Every string of eight digits has exactly one check digit: one and
    only one ninth digit makes the identifier pass. *)
Theorem isValidIsraeliId_check_digit (prefix : string) :
  String.length prefix = 8 ->
  forallb isDigit prefix = true ->
  exists d : ascii,
    isDigit d = true
    /\ isValidIsraeliId (Some (prefix ++ String d "")) = true
    /\ forall d' : ascii,
         isDigit d' = true ->
         isValidIsraeliId (Some (prefix ++ String d' "")) = true -> d' = d.
Proof.
  intros Hl Hd.
  assert (Hshape : forall c, isDigit c = true -> nineDigitShape (prefix ++ String c "")).
  { intros c Hc; split; [rewrite length_append, Hl; reflexivity|].
    rewrite forallb_append, Hd; simpl; rewrite Hc; reflexivity. }
  destruct (check_value (weightedSum prefix)) as (Hv & Hzero & Huniq).
  set (v := ((10 - weightedSum prefix mod 10) mod 10)%Z) in *.
  destruct (digitChar_value v Hv) as [Hdg Hval].
  exists (digitChar v); split; [exact Hdg|]; split.
  - apply isValidIsraeliId_spec; split; [apply Hshape; exact Hdg|].
    rewrite (weightedSum_snoc _ _ Hl Hdg), Hval.
    apply Z.mod_divide; [lia | exact Hzero].
  - intros d' Hd' Hvalid.
    apply isValidIsraeliId_spec in Hvalid as [_ Hdiv].
    rewrite (weightedSum_snoc _ _ Hl Hd') in Hdiv.
    apply digitValue_inj; rewrite Hval.
    apply Huniq; [apply isDigit_range; exact Hd'|].
    apply Z.mod_divide; [lia | exact Hdiv].
Qed.

Lemma isValidIsraeliId_check_digit_witness :
  exists d : ascii,
    isDigit d = true
    /\ isValidIsraeliId (Some ("00000001" ++ String d "")) = true
    /\ forall d' : ascii,
         isDigit d' = true ->
         isValidIsraeliId (Some ("00000001" ++ String d' "")) = true -> d' = d.
Proof.
  apply (isValidIsraeliId_check_digit "00000001"); reflexivity.
Defined.

Lemma setChar_keeps_length i d (s : string) :
  String.length (setChar i d s) = String.length s.
Proof. revert i; induction s as [|c s IH]; intros [|i]; simpl; auto. Qed.

Lemma setChar_keeps_forallb p i d (s : string) :
  p d = true -> forallb p s = true -> forallb p (setChar i d s) = true.
Proof.
  intros Hd; revert i; induction s as [|c s IH]; intros [|i] H; simpl in *; auto.
  - apply andb_true_iff in H as [_ H]; rewrite Hd; exact H.
  - apply andb_true_iff in H as [Hc H]; rewrite Hc; simpl; auto.
Qed.

Lemma get_setChar_other (s : string) : forall i j d,
  i <> j -> String.get i (setChar j d s) = String.get i s.
Proof.
  induction s as [|c s IH]; intros [|i] [|j] d H; simpl; auto; try lia.
Qed.

Lemma swap_arith (W va vb : Z) (e : bool) :
  (0 <= va <= 9)%Z -> (0 <= vb <= 9)%Z -> va <> vb -> (10 | W)%Z ->
  let adj (even : bool) (v : Z) :=
    (if (v * (if even then 1 else 2) >? 9)%Z
     then v * (if even then 1 else 2) - 9
     else v * (if even then 1 else 2))%Z in
  ((10 | W - adj (negb e) vb + adj (negb e) va - adj e va + adj e vb)%Z
   <-> (va = 0 /\ vb = 9)%Z \/ (va = 9 /\ vb = 0)%Z).
Proof.
  intros Ha Hb Hne [k Hk]; cbv zeta; split.
  - intros [k' Hk']; destruct e; simpl in Hk'; revert Hk'; case_gtb; intros; lia.
  - intros [[-> ->]|[-> ->]]; destruct e; simpl;
      match goal with |- (10 | ?x)%Z => replace x with W by lia end;
      exists k; exact Hk.
Qed.

Lemma even_succ_negb (i : nat) : Nat.even (S i) = negb (Nat.even i).
Proof. rewrite Nat.even_succ, <- Nat.negb_even; reflexivity. Qed.

(** X2. Exchanging two adjacent, different digits of an accepted
    identifier gives a rejected one, except for the pair 0 and 9: that
    exchange is the one transposition the checksum does not see. *)
Theorem isValidIsraeliId_adjacent_swap (id : string) (i : nat) (a b : ascii) :
  isValidIsraeliId (Some id) = true ->
  String.get i id = Some a ->
  String.get (S i) id = Some b ->
  a <> b ->
  (isValidIsraeliId (Some (swapAdjacent i id)) = true
   <-> (a = "0"%char /\ b = "9"%char) \/ (a = "9"%char /\ b = "0"%char)).
Proof.
  intros Hv Ha Hb Hne.
  apply isValidIsraeliId_spec in Hv as [[Hl Hds] Hdiv].
  unfold swapAdjacent; rewrite Ha, Hb.
  pose proof (forallb_get _ _ _ _ Hds Ha) as Hda.
  pose proof (forallb_get _ _ _ _ Hds Hb) as Hdb.
  assert (Hshape : nineDigitShape (setChar i b (setChar (S i) a id))).
  { split; [rewrite !setChar_keeps_length; exact Hl|].
    apply setChar_keeps_forallb; [exact Hdb|].
    apply setChar_keeps_forallb; assumption. }
  assert (Hget : String.get i (setChar (S i) a id) = Some a)
    by (rewrite get_setChar_other; [exact Ha | lia]).
  assert (Hsum : weightedSum (setChar i b (setChar (S i) a id))
                 = (weightedSum id
                    - adjusted (S i) (digitValue b) + adjusted (S i) (digitValue a)
                    - adjusted i (digitValue a) + adjusted i (digitValue b))%Z).
  { unfold weightedSum.
    rewrite (weightedSumFrom_setChar _ 0 i a b Hget),
            (weightedSumFrom_setChar _ 0 (S i) b a Hb).
    simpl; lia. }
  assert (Hva := isDigit_range _ Hda).
  assert (Hvb := isDigit_range _ Hdb).
  assert (Hvne : digitValue a <> digitValue b)
    by (intros E; apply digitValue_inj in E; contradiction).
  pose proof (swap_arith (weightedSum id) (digitValue a) (digitValue b)
                (Nat.even i) Hva Hvb Hvne Hdiv) as Harith.
  cbv zeta in Harith.
  rewrite isValidIsraeliId_spec; unfold validIdentifier.
  rewrite Hsum; unfold adjusted; rewrite even_succ_negb.
  split.
  - intros [_ Hd]; apply Harith in Hd as [[E1 E2]|[E1 E2]]; [left | right];
      split; apply digitValue_inj; assumption.
  - intros Hcase; split; [exact Hshape|]; apply Harith.
    destruct Hcase as [[-> ->]|[-> ->]]; [left | right]; split; reflexivity.
Qed.

Lemma isValidIsraeliId_adjacent_swap_witness :
  (isValidIsraeliId (Some (swapAdjacent 0 "091000000")) = true
   <-> ("0"%char = "0"%char /\ "9"%char = "9"%char)
       \/ ("0"%char = "9"%char /\ "9"%char = "0"%char)).
Proof.
  apply (isValidIsraeliId_adjacent_swap "091000000" 0 "0"%char "9"%char).
  - reflexivity.
  - reflexivity.
  - reflexivity.
  - discriminate.
Defined.
End ChecksumFacts.

(** ** More on the phone validator *)
Section PhoneFormatFacts.
Import JsString Regex Validators.

(** X3. The verdict on a phone number depends on its digits only: two
    inputs that leave the same digits once the other characters are
    dropped are both accepted or both rejected. *)
Theorem isValidIsraeliPhoneNumber_formatting (phone1 phone2 : string) :
  removeAll isNonDigit phone1 = removeAll isNonDigit phone2 ->
  isValidIsraeliPhoneNumber (Some phone1) = isValidIsraeliPhoneNumber (Some phone2).
Proof.
  intros H; unfold isValidIsraeliPhoneNumber; cbv zeta.
  assert (E : forall p, falsy p = true ->
                        test israelPhoneRegex (removeAll isNonDigit p) = false).
  { intros p Hp; destruct p; [reflexivity | discriminate]. }
  destruct (falsy phone1) eqn:F1, (falsy phone2) eqn:F2.
  - reflexivity.
  - rewrite <- H; symmetry; apply E; exact F1.
  - rewrite H; apply E; exact F2.
  - rewrite H; reflexivity.
Qed.

Lemma isValidIsraeliPhoneNumber_formatting_witness :
  isValidIsraeliPhoneNumber (Some "050-123-4567")
  = isValidIsraeliPhoneNumber (Some "(050) 123 4567 ext").
Proof.
  apply (isValidIsraeliPhoneNumber_formatting "050-123-4567" "(050) 123 4567 ext").
  reflexivity.
Defined.
End PhoneFormatFacts.

(** ** Which values each parser of the schema returns *)
Section DecidesFacts.
Import JsString Zod Schema Validators Accepted.
Local Open Scope list_scope.

Lemma existsb_eqb_In (s : string) (values : list string) :
  existsb (String.eqb s) values = true <-> In s values.
Proof.
  rewrite existsb_exists; split.
  - intros (x & Hx & E); apply String.eqb_eq in E; subst; exact Hx.
  - intros H; exists s; split; [exact H | apply String.eqb_refl].
Qed.

Lemma z_enum_decides values params :
  Decides (z_enum values params) JStr (fun s => In s values).
Proof.
  intros p a; unfold z_enum; split.
  - destruct (existsb (String.eqb a) values) eqn:E; simpl; [|discriminate].
    intros _; apply existsb_eqb_In; exact E.
  - intros H; apply existsb_eqb_In in H; rewrite H; reflexivity.
Qed.

Lemma len_zero_iff (s : string) : (len s <? 1)%Z = true <-> s = "".
Proof.
  unfold len; destruct s; simpl; split; intros H; try reflexivity; try discriminate.
  apply Z.ltb_lt in H; lia.
Qed.

Lemma z_string_min1_decides m :
  Decides (z_string [SMin 1 m]) JStr (fun s => s <> "").
Proof.
  intros p a; unfold z_string; simpl.
  destruct (len a <? 1)%Z eqn:E; simpl; split; intros H; try discriminate.
  - apply len_zero_iff in E; contradiction.
  - intros ->; discriminate.
  - reflexivity.
Qed.

Lemma z_string_trim_min1_decides m :
  Decides (z_string [STrim; SMin 1 m]) JStr nonBlankTrimmed.
Proof.
  intros p a; unfold z_string, nonBlankTrimmed; simpl.
  destruct (len (trim a) <? 1)%Z eqn:E; simpl; split; intros H; try discriminate.
  - destruct H as [Hne Ht]; rewrite Ht in E; apply len_zero_iff in E; contradiction.
  - injection H as Ht; split; [|exact Ht].
    intros ->; rewrite <- Ht in E; discriminate.
  - destruct H as [_ ->]; reflexivity.
Qed.

Lemma z_string_length_eval n m p a :
  z_string [SLength n m] p (JStr a)
  = if (len a =? n)%Z then (Valid a, [])
    else (Dirty a,
          [mkIssue (if (len a >? n)%Z then too_big else too_small) p (Message m)]).
Proof.
  unfold z_string; simpl.
  destruct (Z.gtb_spec (len a) n), (Z.ltb_spec (len a) n), (Z.eqb_spec (len a) n);
    simpl; try reflexivity; exfalso; lia.
Qed.

Lemma z_string_min1_eval m p a :
  z_string [SMin 1 m] p (JStr a)
  = if falsy a then (Dirty a, [mkIssue too_small p (Message m)])
    else (Valid a, []).
Proof.
  unfold z_string; simpl.
  destruct (len a <? 1)%Z eqn:E.
  - apply len_zero_iff in E; subst; reflexivity.
  - destruct a; [discriminate | reflexivity].
Qed.

Lemma isValidIsraeliId_length (s : string) :
  isValidIsraeliId (Some s) = true -> len s = 9%Z.
Proof.
  intros V; apply isValidIsraeliId_spec in V as [[Hl _] _].
  unfold len; rewrite Hl; reflexivity.
Qed.

Lemma isValidIsraeliPhoneNumber_nonempty (s : string) :
  isValidIsraeliPhoneNumber (Some s) = true -> falsy s = false.
Proof. destruct s; [discriminate | reflexivity]. Qed.

Lemma idField_decides :
  Decides idField JStr (fun s => isValidIsraeliId (Some s) = true).
Proof.
  intros p a; unfold idField, z_refine, z_superRefine.
  rewrite z_string_length_eval.
  destruct (isValidIsraeliId (Some a)) eqn:V.
  - split; [intros _; reflexivity|]; intros _.
    rewrite (isValidIsraeliId_length a V).
    change (9 =? 9)%Z with true; cbv beta iota; rewrite V; reflexivity.
  - split; [|discriminate].
    destruct (len a =? 9)%Z; cbv beta iota; rewrite V; simpl; discriminate.
Qed.

Lemma phoneNumberField_decides :
  Decides phoneNumberField JStr
    (fun s => isValidIsraeliPhoneNumber (Some s) = true).
Proof.
  intros p a; unfold phoneNumberField, z_refine, z_superRefine.
  rewrite z_string_min1_eval.
  destruct (isValidIsraeliPhoneNumber (Some a)) eqn:V.
  - split; [intros _; reflexivity|]; intros _.
    rewrite (isValidIsraeliPhoneNumber_nonempty a V).
    cbv beta iota; rewrite V; reflexivity.
  - split; [|discriminate].
    destruct (falsy a); cbv beta iota; rewrite V; simpl; discriminate.
Qed.

Lemma isMainField_decides : Decides isMainField JBool (fun _ => True).
Proof. intros p a; split; [auto | reflexivity]. Qed.

Lemma z_string_max_eval n m p a :
  z_string [SMax n m] p (JStr a)
  = if (len a >? n)%Z then (Dirty a, [mkIssue too_big p (Message m)])
    else (Valid a, []).
Proof. unfold z_string; simpl; destruct (len a >? n)%Z; reflexivity. Qed.

Lemma commentsField_decides :
  Decides commentsField (optionToJs JStr)
    (fun o => forall c, o = Some c -> String.length c <= 500).
Proof.
  intros p [c|]; unfold commentsField, z_optional, optionToJs.
  - rewrite z_string_max_eval.
    destruct (Z.gtb_spec (len c) 500) as [Hgt|Hle]; unfold len in *; split.
    + discriminate.
    + intros H; specialize (H c eq_refl); exfalso; lia.
    + intros _ c' [= <-]; lia.
    + reflexivity.
  - split; [intros _ c H; discriminate | reflexivity].
Qed.
End DecidesFacts.

(** ** The street number *)
Section StreetNumberFacts.
Import JsString Zod Schema Accepted.
Local Open Scope list_scope.

Variable StringToNumber : string -> jsnum.
Variable ObjectToNumber : jsval -> option jsnum.

Local Abbreviation streetNumberField'' :=
  (streetNumberField StringToNumber ObjectToNumber).
Local Abbreviation Number'' := (Number StringToNumber ObjectToNumber).

Lemma Qden_Qred_one_iff (q : Q) :
  Qden (Qred q) = 1%positive <-> exists z, Qeq q (inject_Z z).
Proof.
  split.
  - intros H; exists (Qnum (Qred q)).
    rewrite <- (Qred_correct q) at 1.
    destruct (Qred q) as [num den]; simpl in *; subst den; reflexivity.
  - intros [z Hz].
    pose proof (gcd_Qred q) as Hg.
    assert (Hq : Qeq (Qred q) (inject_Z z)) by (rewrite Qred_correct; exact Hz).
    destruct (Qred q) as [num den]; unfold Qeq in Hq; simpl in *.
    rewrite Z.mul_1_r in Hq; subst num.
    rewrite Z.gcd_comm in Hg.
    assert (Hd : (Z.pos den | z * Z.pos den)%Z) by (exists z; reflexivity).
    apply Z.divide_gcd_iff in Hd; [|lia].
    rewrite Hd in Hg; congruence.
Qed.

Lemma wholeAtLeastOne_iff (q : Q) :
  wholeAtLeastOne (JFin q) <->
  (Qden (Qred q) =? 1)%positive = true
  /\ Qle_bool q 0 = false /\ Qle_bool 1 q = true.
Proof.
  unfold wholeAtLeastOne; split.
  - intros (q' & z & [= <-] & Hz & Hq).
    assert (H1 : Qle 1 q).
    { rewrite Hq; change 1%Q with (inject_Z 1); rewrite <- Zle_Qle; exact Hz. }
    repeat split.
    + apply Pos.eqb_eq, Qden_Qred_one_iff; eauto.
    + destruct (Qle_bool q 0) eqn:E; [|reflexivity].
      apply Qle_bool_iff in E.
      assert (H0 : Qle 1 0) by (eapply Qle_trans; eauto).
      unfold Qle in H0; simpl in H0; lia.
    + apply Qle_bool_iff; exact H1.
  - intros (Hi & _ & H1).
    apply Pos.eqb_eq, Qden_Qred_one_iff in Hi as [z Hz].
    apply Qle_bool_iff in H1.
    exists q, z; repeat split; [|exact Hz].
    rewrite Hz in H1; change 1%Q with (inject_Z 1) in H1.
    rewrite <- Zle_Qle in H1; exact H1.
Qed.

Lemma streetNumberField_eval p data m :
  Number'' data = Some m ->
  streetNumberField'' p data = streetNumberField'' p (JNum m).
Proof.
  intros E; unfold Schema.streetNumberField, z_coerce_number.
  rewrite E; reflexivity.
Qed.

Lemma streetNumberField_decides : Decides streetNumberField'' JNum wholeAtLeastOne.
Proof.
  intros p a; unfold Schema.streetNumberField, z_coerce_number, INVALID.
  cbn [Number].
  destruct a as [|neg|q].
  - split; [simpl; intros H; discriminate | intros (q & z & H & _); discriminate].
  - split; [destruct neg; simpl; intros H; discriminate
           | intros (q & z & H & _); discriminate].
  - rewrite wholeAtLeastOne_iff.
    cbn [runNumberChecks isInteger leNum ltNum].
    destruct (Qden (Qred q) =? 1)%positive, (Qle_bool q 0), (Qle_bool 1 q);
      simpl; split; intros H;
      try discriminate; try (destruct H as (H1 & H2 & H3); discriminate);
      auto.
Qed.

Lemma streetNumberField_valid p data n :
  fst (streetNumberField'' p data) = Valid n ->
  Number'' data = Some n /\ wholeAtLeastOne n.
Proof.
  assert (Hv : forall m, fst (streetNumberField'' p (JNum m)) = Valid n -> m = n).
  { intros m; unfold Schema.streetNumberField, z_coerce_number, INVALID; cbn [Number].
    destruct m as [|neg|q]; [discriminate| |];
      destruct (runNumberChecks p _ false _) as [[|] iss]; simpl;
      intros H; try discriminate; injection H as <-; reflexivity. }
  intros H; destruct (Number'' data) as [m|] eqn:E.
  - rewrite (streetNumberField_eval p data m E) in H.
    pose proof (Hv _ H) as ->; split; [reflexivity|].
    apply (streetNumberField_decides p n); exact H.
  - apply (z_coerce_number_threw StringToNumber ObjectToNumber
             (mkParams None (Some "Street number must be a number"))
             [NInt "Street number must be a whole number";
              NMin 0 false "Street number must be positive";
              NMin 1 true "Street number is required"] p) in E.
    unfold Schema.streetNumberField in H; rewrite E in H; discriminate.
Qed.

(** X4. A street number is accepted exactly when the value [Number] makes
    of the input is a finite whole number at least 1, and that number is
    what the normalized record holds. *)
Theorem streetNumberField_accepts (p : path) (data : jsval) (n : jsnum) :
  fst (streetNumberField'' p data) = Valid n
  <-> Number'' data = Some n /\ wholeAtLeastOne n.
Proof.
  split; [apply streetNumberField_valid|].
  intros [E Hw].
  rewrite (streetNumberField_eval p data n E),
    (proj2 (streetNumberField_decides p n) Hw); reflexivity.
Qed.
End StreetNumberFacts.

(** ** Which records validation returns *)
Section WellFormedFacts.
Import JsString Zod Schema Validators Accepted.
Local Open Scope list_scope.

Variable StringToNumber : string -> jsnum.
Variable ObjectToNumber : jsval -> option jsnum.

Local Abbreviation patientSchema'' := (patientSchema StringToNumber ObjectToNumber).
Local Abbreviation addressSchema'' := (addressSchema StringToNumber ObjectToNumber).
Local Abbreviation addressesField'' := (addressesField StringToNumber ObjectToNumber).
Local Abbreviation validate'' := (validate StringToNumber ObjectToNumber).

Ltac split_fields H :=
  repeat match type of H with
         | fst (shape_field _ _ _ _ _) = Valid _ =>
             let g := fresh "g" in
             let a := fresh "a" in
             let Ha := fresh "Ha" in
             rewrite shape_field_status in H;
             apply mergeStatus_valid in H as (g & a & H & Ha & ->)
         end;
  simpl in H; injection H as <-.

Lemma parseItems_decides_valid {A} (elem : schema A) toJs P p :
  Decides elem toJs P ->
  forall l k,
    map fst (parseItems elem p k (map toJs l)) = map Valid l -> Forall P l.
Proof.
  intros Hd; induction l as [|a l IH]; intros k H; simpl in *; [constructor|].
  injection H as H1 H2; constructor.
  - apply (Hd (p ++ [PIdx k]) a); exact H1.
  - eapply IH; eauto.
Qed.

Lemma parseItems_decides_all {A} (elem : schema A) toJs P p :
  Decides elem toJs P ->
  forall l k,
    Forall P l ->
    parseItems elem p k (map toJs l) = map (fun a => (Valid a, [])) l.
Proof.
  intros Hd; induction l as [|a l IH]; intros k H; simpl; [reflexivity|].
  inversion H as [|? ? Ha Hl]; subst.
  rewrite (proj2 (Hd (p ++ [PIdx k]) a) Ha), (IH _ Hl); reflexivity.
Qed.

Lemma z_array_decides {A} (elem : schema A) toJs P n m :
  Decides elem toJs P ->
  Decides (z_array elem (Some (n, m))) (fun l => JArr (map toJs l))
    (fun l => n <= length l /\ Forall P l).
Proof.
  intros Hd p l; unfold z_array; rewrite length_map; split.
  - destruct (Nat.ltb_spec (length l) n) as [Hlt|Hge]; simpl; intros H;
      (destruct (existsb threw (map fst (parseItems elem p 0 (map toJs l))));
       [discriminate|]);
      apply mergeArray_valid in H as [Hdirty (vs & Hvs & E)];
      [discriminate|].
    simpl in E; subst vs; split; [exact Hge|].
    eapply parseItems_decides_valid; eauto.
  - intros [Hge HP].
    destruct (Nat.ltb_spec (length l) n) as [Hlt|_]; [exfalso; lia|].
    rewrite (parseItems_decides_all elem toJs P p Hd l 0 HP), !map_map; simpl.
    change (map (fun x : A => Valid x) l) with (map Valid l).
    rewrite threw_map_Valid, (mergeArray_all_valid l []), concat_map_nil;
      reflexivity.
Qed.

Lemma z_superRefine_decides {A} (inner : schema A) refinement toJs P Q :
  Decides inner toJs P ->
  (forall p a, refinement p a = [] <-> Q a) ->
  Decides (z_superRefine inner refinement) toJs (fun a => P a /\ Q a).
Proof.
  intros Hd Hr p a; unfold z_superRefine; split.
  - pose proof (proj1 (Hd p a)) as H1.
    destruct (inner p (toJs a)) as [[|b|b|] iss]; simpl in *; try discriminate.
    destruct (refinement p b) as [|x added] eqn:E; simpl; [|discriminate].
    intros [= ->]; split; [apply H1; reflexivity | apply (Hr p a); exact E].
  - intros [HP HQ].
    rewrite (proj2 (Hd p a) HP), (proj2 (Hr p a) HQ); reflexivity.
Qed.

Lemma mainPhoneRefine_nil_iff p phones :
  mainPhoneRefine p phones = [] <-> length (filter isMain phones) = 1.
Proof.
  unfold mainPhoneRefine.
  pose proof (phonesForEach_length p phones 0) as Hl.
  destruct (length (filter isMain phones)) as [|[|n]]; simpl; split;
    intros H; try discriminate; try reflexivity.
  rewrite H in Hl; discriminate.
Qed.

Lemma phoneNumberSchema_decides : Decides phoneNumberSchema phoneToJs phoneOk.
Proof.
  intros p ph; split.
  - intros H; unfold phoneNumberSchema, z_object, phoneToJs in H.
    split_fields H.
    cbn [getProp String.eqb Ascii.eqb Bool.eqb type number isMain] in *.
    split.
    + exact (proj1 (z_enum_decides _ _ _ a1) Ha1).
    + exact (proj1 (phoneNumberField_decides _ a0) Ha0).
  - intros [Ht Hn]; destruct ph as [t n m]; simpl in Ht, Hn.
    unfold phoneNumberSchema, z_object, phoneToJs; cbn [type number isMain].
    repeat apply shape_field_ok; cbn [getProp String.eqb Ascii.eqb Bool.eqb];
      [ reflexivity
      | apply z_enum_decides; exact Ht
      | apply phoneNumberField_decides; exact Hn
      | reflexivity ].
Qed.

Lemma phoneNumbersField_decides :
  Decides phoneNumbersField (fun l => JArr (map phoneToJs l))
    (fun l => (1 <= length l /\ Forall phoneOk l)
              /\ length (filter isMain l) = 1).
Proof.
  apply z_superRefine_decides;
    [apply z_array_decides, phoneNumberSchema_decides
    | apply mainPhoneRefine_nil_iff].
Qed.

Lemma addressSchema_decides : Decides addressSchema'' addressToJs addressOk.
Proof.
  intros p ad; split.
  - intros H; unfold Schema.addressSchema, z_object, addressToJs in H.
    split_fields H.
    cbn [cityCode cityName streetCode streetName streetNumber addressType comments] in *.
    assert (Hc : fst (commentsField (p ++ [PKey "comments"]) (optionToJs JStr a))
                 = Valid a).
    { destruct a; exact Ha. }
    cbn [getProp String.eqb Ascii.eqb Bool.eqb app] in *.
    repeat split.
    + exact (proj1 (z_string_min1_decides _ _ a5) Ha5).
    + exact (proj1 (z_string_min1_decides _ _ a4) Ha4).
    + exact (proj1 (z_string_min1_decides _ _ a3) Ha3).
    + exact (proj1 (z_string_min1_decides _ _ a2) Ha2).
    + exact (proj1 (streetNumberField_decides StringToNumber ObjectToNumber _ a1) Ha1).
    + exact (proj1 (z_enum_decides _ _ _ a0) Ha0).
    + exact (proj1 (commentsField_decides _ a) Hc).
  - intros (H1 & H2 & H3 & H4 & H5 & H6 & H7).
    destruct ad as [cc cn sc sn num ty co]; simpl in *.
    unfold Schema.addressSchema, z_object, addressToJs;
      cbn [cityCode cityName streetCode streetName streetNumber addressType comments].
    assert (Hc : commentsField (p ++ [PKey "comments"])
                   (getProp "comments"
                      match co with
                      | Some c => [("comments", JStr c)]
                      | None => []
                      end) = (Valid co, [])).
    { pose proof (proj2 (commentsField_decides (p ++ [PKey "comments"]) co) H7) as Hc.
      destruct co; exact Hc. }
    repeat apply shape_field_ok;
      cbn [getProp String.eqb Ascii.eqb Bool.eqb app];
      [ reflexivity
      | apply z_string_min1_decides; exact H1
      | apply z_string_min1_decides; exact H2
      | apply z_string_min1_decides; exact H3
      | apply z_string_min1_decides; exact H4
      | apply streetNumberField_decides; exact H5
      | apply z_enum_decides; exact H6
      | exact Hc ].
Qed.

Lemma addressesField_decides :
  Decides addressesField'' (fun l => JArr (map addressToJs l))
    (fun l => 1 <= length l /\ Forall addressOk l).
Proof. apply z_array_decides, addressSchema_decides. Qed.

Lemma length_pos_iff {T} (l : list T) : 1 <= length l <-> l <> [].
Proof. destruct l; simpl; split; intros H; try lia; congruence. Qed.

Lemma patientSchema_decides : Decides patientSchema'' patientToJs WellFormed.
Proof.
  intros p r; split.
  - intros H; unfold Schema.patientSchema, z_object, patientToJs in H.
    split_fields H.
    cbn [getProp String.eqb Ascii.eqb Bool.eqb
         id firstName lastName phoneNumbers hmo addresses] in *.
    destruct (proj1 (phoneNumbersField_decides _ a1) Ha1) as [[_ Hph] Hmain].
    destruct (proj1 (addressesField_decides _ a) Ha) as [Hne Had].
    unfold WellFormed; simpl; repeat split.
    + exact (proj1 (idField_decides _ a4) Ha4).
    + exact (proj1 (proj1 (z_string_trim_min1_decides _ _ a3) Ha3)).
    + exact (proj2 (proj1 (z_string_trim_min1_decides _ _ a3) Ha3)).
    + exact (proj1 (proj1 (z_string_trim_min1_decides _ _ a2) Ha2)).
    + exact (proj2 (proj1 (z_string_trim_min1_decides _ _ a2) Ha2)).
    + exact Hph.
    + exact Hmain.
    + exact (proj1 (z_enum_decides _ _ _ a0) Ha0).
    + apply length_pos_iff; exact Hne.
    + exact Had.
  - intros (H1 & H2 & H3 & H4 & H5 & H6 & H7 & H8).
    destruct r as [i fn ln ph h ad]; simpl in *.
    unfold Schema.patientSchema, z_object, patientToJs;
      cbn [id firstName lastName phoneNumbers hmo addresses].
    assert (Hlen : 1 <= length ph).
    { pose proof (filter_length_le isMain ph); lia. }
    repeat apply shape_field_ok;
      cbn [getProp String.eqb Ascii.eqb Bool.eqb];
      [ reflexivity
      | apply idField_decides; exact H1
      | apply (z_string_trim_min1_decides "First name is required"); exact H2
      | apply (z_string_trim_min1_decides "Last name is required"); exact H3
      | apply phoneNumbersField_decides; auto
      | apply z_enum_decides; exact H6
      | apply addressesField_decides; split;
          [apply length_pos_iff; exact H7 | exact H8] ].
Qed.

(** X5. A record that validation returns is well formed: its identifier
    passes the checksum, both names are non-empty and trimmed, every phone
    has one of the four types and a number the phone validator accepts,
    exactly one phone is main, the insurer is one of the four, there is at
    least one address, and every address has its four lookup fields
    non-empty, a whole street number at least 1, one of the three types
    and comments of at most 500 characters. *)
Theorem validate_success_wellFormed (raw : jsval) (r : PatientFormData) :
  validate'' raw = Success r -> WellFormed r.
Proof.
  intros H; apply safeParse_success in H.
  apply (patientSchema_stable StringToNumber ObjectToNumber) in H.
  apply (patientSchema_decides [] r); rewrite H; reflexivity.
Qed.

(** X6. Conversely every well-formed record is accepted as it is:
    validating its JavaScript form succeeds and returns it unchanged. *)
Theorem wellFormed_validates (r : PatientFormData) :
  WellFormed r -> validate'' (patientToJs r) = Success r.
Proof.
  intros H; apply (patientSchema_decides [] r) in H.
  unfold Schema.validate, safeParse; rewrite H; reflexivity.
Qed.
End WellFormedFacts.

Lemma validate_success_wellFormed_witness :
  Accepted.WellFormed Samples.sampleRecord.
Proof.
  apply (validate_success_wellFormed Samples.decimalToNumber
           Samples.plainObjectToNumber Samples.sampleRaw Samples.sampleRecord).
  vm_compute; reflexivity.
Defined.

Lemma wellFormed_validates_witness :
  Schema.validate Samples.decimalToNumber Samples.plainObjectToNumber
    (Schema.patientToJs Samples.sampleRecord) = Zod.Success Samples.sampleRecord.
Proof.
  apply (wellFormed_validates Samples.decimalToNumber Samples.plainObjectToNumber
           Samples.sampleRecord).
  unfold Accepted.WellFormed, Accepted.nonBlankTrimmed.
  split; [reflexivity|].
  split; [split; [discriminate | reflexivity]|].
  split; [split; [discriminate | reflexivity]|].
  split.
  { repeat (constructor; [split; [simpl; auto | reflexivity]|]); constructor. }
  split; [reflexivity|].
  split; [simpl; auto|].
  split; [discriminate|].
  constructor; [|constructor].
  unfold Accepted.addressOk; simpl.
  repeat (split; [discriminate|]).
  split;
    [exists (inject_Z 12), 12%Z; split; [reflexivity | split; [lia | reflexivity]]|].
  split; [auto | intros c H; discriminate].
Defined.

(** ** Deduplication of the lookup results *)
Section UniqueFacts.
Import Api.
Local Open Scope list_scope.

Context {V : Type} (key : V -> string).

Lemma mapSet_keys (k : string) (v : V) (m : list (string * V)) (k' : string) :
  In k' (map fst (mapSet k v m)) <-> k' = k \/ In k' (map fst m).
Proof.
  induction m as [|[k0 v0] m IH]; simpl.
  - intuition.
  - destruct (String.eqb_spec k0 k) as [->|Hne]; simpl; [intuition|].
    rewrite IH; intuition.
Qed.

Lemma mapSet_NoDup (k : string) (v : V) (m : list (string * V)) :
  NoDup (map fst m) -> NoDup (map fst (mapSet k v m)).
Proof.
  induction m as [|[k0 v0] m IH]; simpl; intros H.
  - constructor; [intros [] | constructor].
  - inversion H as [|? ? Hn Hd]; subst.
    destruct (String.eqb_spec k0 k) as [->|Hne]; simpl; [constructor; assumption|].
    constructor; [|apply IH; exact Hd].
    rewrite mapSet_keys; intros [E|E]; [congruence | contradiction].
Qed.

Lemma mapSet_In (k : string) (v : V) (m : list (string * V)) k' v' :
  In (k', v') (mapSet k v m) -> (k' = k /\ v' = v) \/ In (k', v') m.
Proof.
  induction m as [|[k0 v0] m IH]; simpl.
  - intros [[= <- <-]|[]]; auto.
  - destruct (String.eqb_spec k0 k) as [->|Hne]; simpl.
    + intros [[= <- <-]|H]; auto.
    + intros [H|H]; [auto|]. apply IH in H; intuition.
Qed.

Lemma mapSet_self (k : string) (v : V) (m : list (string * V)) :
  In (k, v) (mapSet k v m).
Proof.
  induction m as [|[k0 v0] m IH]; simpl; [auto|].
  destruct (String.eqb_spec k0 k) as [->|Hne]; simpl; auto.
Qed.

Lemma mapSet_other (k : string) (v : V) (m : list (string * V)) k' v' :
  k' <> k -> In (k', v') m -> In (k', v') (mapSet k v m).
Proof.
  intros Hne; induction m as [|[k0 v0] m IH]; simpl; [auto|].
  destruct (String.eqb_spec k0 k) as [->|Hne0]; simpl.
  - intros [[= <- <-]|H]; [congruence | auto].
  - intros [H|H]; auto.
Qed.

Lemma mapSet_fresh (k : string) (v : V) (m : list (string * V)) :
  ~ In k (map fst m) -> mapSet k v m = m ++ [(k, v)].
Proof.
  induction m as [|[k0 v0] m IH]; simpl; intros H; [reflexivity|].
  destruct (String.eqb_spec k0 k) as [->|Hne]; [exfalso; auto|].
  rewrite IH; auto.
Qed.

Local Abbreviation Keyed := (Lookup.Keyed key).
Local Abbreviation build := (fold_left (fun m x => mapSet (key x) x m)).

Lemma build_Keyed xs : forall m, Keyed m -> Keyed (build xs m).
Proof.
  induction xs as [|x xs IH]; intros m [Hd Hk]; simpl; [split; assumption|].
  apply IH; split; [apply mapSet_NoDup; exact Hd|].
  intros k y H; apply mapSet_In in H as [[-> ->]|H]; [reflexivity | eauto].
Qed.

Lemma build_values xs : forall m k x,
  In (k, x) (build xs m) -> In x xs \/ In (k, x) m.
Proof.
  induction xs as [|y xs IH]; intros m k x H; simpl in *; [auto|].
  apply IH in H as [H|H]; [auto|].
  apply mapSet_In in H as [[-> ->]|H]; auto.
Qed.

Lemma build_keys xs : forall m k,
  In k (map fst (build xs m)) <-> In k (map key xs) \/ In k (map fst m).
Proof.
  induction xs as [|y xs IH]; intros m k; simpl; [intuition|].
  rewrite IH, mapSet_keys; intuition.
Qed.

Lemma build_keeps xs : forall m k x,
  In (k, x) m -> ~ In k (map key xs) -> In (k, x) (build xs m).
Proof.
  induction xs as [|y xs IH]; intros m k x H Hn; simpl in *; [exact H|].
  apply IH; [|intuition].
  apply mapSet_other; [intuition | exact H].
Qed.

Lemma build_fresh xs : forall m,
  NoDup (map key xs) ->
  (forall x, In x xs -> ~ In (key x) (map fst m)) ->
  build xs m = m ++ map (fun x => (key x, x)) xs.
Proof.
  induction xs as [|y xs IH]; intros m Hd Hf; simpl.
  - rewrite app_nil_r; reflexivity.
  - inversion Hd as [|? ? Hn Hd']; subst.
    rewrite mapSet_fresh by (apply Hf; left; reflexivity).
    rewrite IH; [rewrite <- app_assoc; reflexivity | exact Hd'|].
    intros x Hx; rewrite map_app, in_app_iff; simpl.
    intros [H|[H|[]]].
    + apply (Hf x); [right; exact Hx | exact H].
    + apply Hn; rewrite H; apply in_map; exact Hx.
Qed.

Lemma Keyed_map_key m : Keyed m -> map key (map snd m) = map fst m.
Proof.
  intros [_ Hk]; induction m as [|[k x] m IH]; simpl; [reflexivity|].
  rewrite IH by (intros; apply Hk; right; assumption).
  rewrite (Hk k x) by (left; reflexivity); reflexivity.
Qed.

Lemma uniqueBy_NoDup (xs : list V) : NoDup (map key (uniqueBy key xs)).
Proof.
  unfold uniqueBy.
  assert (K : Keyed (build xs []))
    by (apply build_Keyed; split; [constructor | intros k x []]).
  rewrite (Keyed_map_key _ K); exact (proj1 K).
Qed.

Lemma uniqueBy_incl (xs : list V) x : In x (uniqueBy key xs) -> In x xs.
Proof.
  unfold uniqueBy; intros H; apply in_map_iff in H as ([k y] & <- & H).
  apply build_values in H as [H|[]]; exact H.
Qed.

(** X7. The list the lookups return after deduplication has no two
    entries with the same code, holds only entries of the response, has an
    entry for every code of the response, keeps for each code the last
    entry that carries it, and is the response itself when the codes were
    already distinct. *)
Theorem uniqueBy_dedup (xs : list V) :
  NoDup (map key (uniqueBy key xs))
  /\ (forall x, In x (uniqueBy key xs) -> In x xs)
  /\ (forall x, In x xs -> In (key x) (map key (uniqueBy key xs)))
  /\ (forall l1 x l2,
        xs = l1 ++ x :: l2 -> ~ In (key x) (map key l2) ->
        In x (uniqueBy key xs))
  /\ (NoDup (map key xs) -> uniqueBy key xs = xs).
Proof.
  unfold uniqueBy.
  assert (K0 : Keyed []) by (split; [constructor | intros k x []]).
  pose proof (build_Keyed xs [] K0) as K.
  repeat split.
  - rewrite (Keyed_map_key _ K); exact (proj1 K).
  - intros x H; apply in_map_iff in H as ([k y] & <- & H).
    apply build_values in H as [H|[]]; exact H.
  - intros x H; rewrite (Keyed_map_key _ K), build_keys.
    left; apply in_map; exact H.
  - intros l1 x l2 -> Hn.
    rewrite fold_left_app; simpl.
    apply in_map_iff; exists (key x, x); split; [reflexivity|].
    apply build_keeps; [apply mapSet_self | exact Hn].
  - intros Hd; rewrite build_fresh; [|exact Hd | intros x _ []].
    simpl; rewrite map_map; simpl; apply map_id.
Qed.
End UniqueFacts.

(** ** How the lookups settle *)
Section FetchFacts.
Import JsString Api Lookup.
Local Open Scope list_scope.

Variable env : string -> option string.
Variable stringifyCityFilter : string -> string.
Variable stringifyCities : ApiResponse ApiCity -> string.
Variable stringifyStreets : ApiResponse ApiStreet -> string.

Lemma catchFetch_settles {R A} (net : request -> thrown + R)
    (cancelled failed fallback : string) (error : thrown) :
  match settle net (@catchFetch R A cancelled failed fallback error) with
  | inl e => exists m, e = Error m
  | inr l => l = []
  end.
Proof. destruct error; simpl; eauto. Qed.

Lemma long_query_guard (query : string) :
  (2 <=? len (trim query))%Z = true ->
  falsy (trim query) || (len (trim query) <? 2)%Z = false.
Proof.
  intros H; apply Z.leb_le in H.
  apply orb_false_iff; split; [|apply Z.ltb_ge; exact H].
  destruct (trim query); [unfold len in H; simpl in H; lia | reflexivity].
Qed.

Lemma fetchCities_requests
    (net : request -> thrown + ApiResponse ApiCity)
    (query : string) (signal : option AbortSignal) :
  requests net (fetchCities env stringifyCities query signal)
  = if falsy (trim query) || (len (trim query) <? 2)%Z then []
    else [mkRequest (CITIES_API_URL env) (CITIES_RESOURCE_ID env)
            (trim query) None 20 signal].
Proof.
  unfold fetchCities; cbv zeta.
  destruct (falsy (trim query) || (len (trim query) <? 2)%Z); [reflexivity|].
  cbn [requests]; f_equal.
  destruct (net _) as [e|resp]; [destruct e; reflexivity|].
  destruct (success resp), (records resp); reflexivity.
Qed.

Lemma fetchCities_outcome
    (net : request -> thrown + ApiResponse ApiCity)
    (query : string) (signal : option AbortSignal) :
  match settle net (fetchCities env stringifyCities query signal) with
  | inl e => exists m, e = Error m
  | inr l =>
      NoDup (map city_semel_yishuv l)
      /\ forall c, In c l ->
           exists resp recs,
             net (mkRequest (CITIES_API_URL env) (CITIES_RESOURCE_ID env)
                    (trim query) None 20 signal) = inr resp
             /\ records resp = Some recs /\ In c recs
  end.
Proof.
  unfold fetchCities; cbv zeta.
  destruct (falsy (trim query) || (len (trim query) <? 2)%Z).
  - simpl; split; [constructor | intros c []].
  - cbn [settle].
    destruct (net _) as [e|resp] eqn:N.
    + pose proof (@catchFetch_settles (ApiResponse ApiCity) ApiCity net
                    "City fetch request cancelled" "Error fetching cities:"
                    "Failed to fetch cities" e) as H.
      destruct (settle net _) as [e'|l]; [exact H|].
      subst l; split; [constructor | intros c []].
    + destruct (success resp) eqn:S, (records resp) as [recs|] eqn:Rc;
        cbn [settle catchFetch isCancel]; eauto.
      split; [apply uniqueBy_NoDup|].
      intros c Hc; apply uniqueBy_incl in Hc; eauto.
Qed.

(** X8. [fetchCities] sends at most one request, for the trimmed query
    and capped at 20 records.  Its promise never rejects with a
    cancellation or with a value that is not an [Error]; when it resolves,
    no two cities of the list have the same code and every city comes from
    the records of the response. *)
Theorem fetchCities_settles
    (net : request -> thrown + ApiResponse ApiCity)
    (query : string) (signal : option AbortSignal) :
  let t := fetchCities env stringifyCities query signal in
  let req := mkRequest (CITIES_API_URL env) (CITIES_RESOURCE_ID env)
               (trim query) None 20 signal in
  (requests net t = [] \/ requests net t = [req])
  /\ match settle net t with
     | inl e => exists m, e = Error m
     | inr l =>
         NoDup (map city_semel_yishuv l)
         /\ forall c, In c l ->
              exists resp recs,
                net req = inr resp /\ records resp = Some recs /\ In c recs
     end.
Proof.
  cbv zeta; split; [|apply fetchCities_outcome].
  rewrite fetchCities_requests.
  destruct (falsy (trim query) || (len (trim query) <? 2)%Z); auto.
Qed.

Lemma fetchStreets_requests
    (net : request -> thrown + ApiResponse ApiStreet)
    (query cityCode : string) (signal : option AbortSignal) :
  requests net (fetchStreets env stringifyCityFilter stringifyStreets
                  query cityCode signal)
  = if falsy (trim query) || (len (trim query) <? 2)%Z then []
    else if falsy cityCode then []
    else [mkRequest (STREETS_API_URL env) (STREETS_RESOURCE_ID env)
            (trim query) (Some (stringifyCityFilter cityCode)) 20 signal].
Proof.
  unfold fetchStreets; cbv zeta.
  destruct (falsy (trim query) || (len (trim query) <? 2)%Z); [reflexivity|].
  destruct (falsy cityCode); [reflexivity|].
  cbn [requests]; f_equal.
  destruct (net _) as [e|resp]; [destruct e; reflexivity|].
  destruct (success resp), (records resp); reflexivity.
Qed.

Lemma fetchStreets_outcome
    (net : request -> thrown + ApiResponse ApiStreet)
    (query cityCode : string) (signal : option AbortSignal) :
  match settle net (fetchStreets env stringifyCityFilter stringifyStreets
                      query cityCode signal) with
  | inl e => exists m, e = Error m
  | inr l =>
      NoDup (map street_semel_rechov l)
      /\ forall c, In c l ->
           exists resp recs,
             net (mkRequest (STREETS_API_URL env) (STREETS_RESOURCE_ID env)
                    (trim query) (Some (stringifyCityFilter cityCode)) 20 signal)
             = inr resp
             /\ records resp = Some recs /\ In c recs
  end.
Proof.
  unfold fetchStreets; cbv zeta.
  destruct (falsy (trim query) || (len (trim query) <? 2)%Z).
  - simpl; split; [constructor | intros c []].
  - destruct (falsy cityCode); [simpl; eauto|].
    cbn [settle].
    destruct (net _) as [e|resp] eqn:N.
    + pose proof (@catchFetch_settles (ApiResponse ApiStreet) ApiStreet net
                    "Street fetch request cancelled" "Error fetching streets:"
                    "Failed to fetch streets" e) as H.
      destruct (settle net _) as [e'|l]; [exact H|].
      subst l; split; [constructor | intros c []].
    + destruct (success resp) eqn:S, (records resp) as [recs|] eqn:Rc;
        cbn [settle catchFetch isCancel]; eauto.
      split; [apply uniqueBy_NoDup|].
      intros c Hc; apply uniqueBy_incl in Hc; eauto.
Qed.

(** X9. [fetchStreets] sends at most one request, for the trimmed query,
    filtered by the city code and capped at 20 records, and none at all
    when the city code is empty.  Its promise never rejects with a
    cancellation or with a value that is not an [Error]; when it resolves,
    no two streets of the list have the same code and every street comes
    from the records of the response. *)
Theorem fetchStreets_settles
    (net : request -> thrown + ApiResponse ApiStreet)
    (query cityCode : string) (signal : option AbortSignal) :
  let t := fetchStreets env stringifyCityFilter stringifyStreets query cityCode signal in
  let req := mkRequest (STREETS_API_URL env) (STREETS_RESOURCE_ID env)
               (trim query) (Some (stringifyCityFilter cityCode)) 20 signal in
  (requests net t = [] \/ requests net t = [req])
  /\ (falsy cityCode = true -> requests net t = [])
  /\ match settle net t with
     | inl e => exists m, e = Error m
     | inr l =>
         NoDup (map street_semel_rechov l)
         /\ forall c, In c l ->
              exists resp recs,
                net req = inr resp /\ records resp = Some recs /\ In c recs
     end.
Proof.
  cbv zeta; split; [|split; [|apply fetchStreets_outcome]];
    rewrite fetchStreets_requests;
    destruct (falsy (trim query) || (len (trim query) <? 2)%Z); auto;
    destruct (falsy cityCode); auto; discriminate.
Qed.
End FetchFacts.

(** ** The effects that call the lookups *)
Section EffectFacts.
Import JsString Api Lookup Form.
Local Open Scope list_scope.

Variable env : string -> option string.
Variable stringifyCityFilter : string -> string.
Variable stringifyCities : ApiResponse ApiCity -> string.
Variable stringifyStreets : ApiResponse ApiStreet -> string.
Variable netCities : request -> thrown + ApiResponse ApiCity.
Variable netStreets : request -> thrown + ApiResponse ApiStreet.

Local Abbreviation cityEffect' := (cityEffect env stringifyCities netCities).
Local Abbreviation cityEffectRequests' :=
  (cityEffectRequests env stringifyCities netCities).
Local Abbreviation streetEffect' :=
  (streetEffect env stringifyCityFilter stringifyStreets netStreets).
Local Abbreviation streetEffectRequests' :=
  (streetEffectRequests env stringifyCityFilter stringifyStreets netStreets).

(** X10. The city effect of the form and [fetchCities] agree on what is
    worth a search: when the effect calls the lookup, exactly one request
    goes out, for the trimmed query, and the loading flag is cleared at the
    end; otherwise nothing is requested and the list is emptied.  The list
    it leaves never has two cities with the same code, and a toast, when
    there is one, carries the message of the error and comes with an empty
    list. *)
Theorem cityEffect_outcome (debouncedCityQuery : string) (st : CityState) :
  let after := fst (cityEffect' debouncedCityQuery st) in
  let toasts := snd (cityEffect' debouncedCityQuery st) in
  (cityEffectFetches debouncedCityQuery = true ->
     cityEffectRequests' debouncedCityQuery
     = [mkRequest (CITIES_API_URL env) (CITIES_RESOURCE_ID env)
          (trim debouncedCityQuery) None 20 None]
     /\ cityLoading after = false)
  /\ (cityEffectFetches debouncedCityQuery = false ->
        cityEffectRequests' debouncedCityQuery = []
        /\ after = mkCityState [] (cityLoading st) /\ toasts = [])
  /\ NoDup (map city_semel_yishuv (cities after))
  /\ (toasts = []
      \/ exists m, toasts = [mkToast "Error Fetching Cities" m]
                   /\ cities after = []).
Proof.
  cbv zeta; unfold cityEffect, cityEffectRequests.
  pose proof (fetchCities_outcome env stringifyCities netCities
                debouncedCityQuery None) as Ho.
  destruct (cityEffectFetches debouncedCityQuery) eqn:G.
  - assert (Hg : falsy (trim debouncedCityQuery)
                 || (len (trim debouncedCityQuery) <? 2)%Z = false).
    { apply long_query_guard.
      unfold cityEffectFetches in G; apply andb_true_iff in G as [_ G]; exact G. }
    rewrite fetchCities_requests, Hg.
    destruct (settle netCities _) as [e|l]; simpl.
    + destruct Ho as [m ->].
      split; [intros _; split; reflexivity|].
      split; [intros H; discriminate|].
      split; [constructor | right; eauto].
    + split; [intros _; split; reflexivity|].
      split; [intros H; discriminate|].
      split; [exact (proj1 Ho) | left; reflexivity].
  - simpl.
    split; [intros H; discriminate|].
    split; [intros _; repeat split|].
    split; [constructor | left; reflexivity].
Qed.

(** X11. The street effect calls [fetchStreets] only with a city code, so
    the rejection for a missing city code never reaches the user: when the
    effect calls the lookup, exactly one request goes out, for the trimmed
    query and that city, and the loading flag is cleared at the end;
    otherwise nothing is requested and the list is emptied.  The list it
    leaves never has two streets with the same code. *)
Theorem streetEffect_outcome (cityCode debouncedStreetQuery : string)
    (st : StreetState) :
  let after := fst (streetEffect' cityCode debouncedStreetQuery st) in
  let toasts := snd (streetEffect' cityCode debouncedStreetQuery st) in
  (streetEffectFetches cityCode debouncedStreetQuery = true ->
     streetEffectRequests' cityCode debouncedStreetQuery
     = [mkRequest (STREETS_API_URL env) (STREETS_RESOURCE_ID env)
          (trim debouncedStreetQuery) (Some (stringifyCityFilter cityCode)) 20 None]
     /\ streetLoading after = false)
  /\ (streetEffectFetches cityCode debouncedStreetQuery = false ->
        streetEffectRequests' cityCode debouncedStreetQuery = []
        /\ after = mkStreetState [] (streetLoading st) /\ toasts = [])
  /\ NoDup (map street_semel_rechov (streets after))
  /\ (toasts = []
      \/ exists m, toasts = [mkToast "Error Fetching Streets" m]
                   /\ streets after = []).
Proof.
  cbv zeta; unfold streetEffect, streetEffectRequests.
  pose proof (fetchStreets_outcome env stringifyCityFilter stringifyStreets
                netStreets debouncedStreetQuery cityCode None) as Ho.
  destruct (streetEffectFetches cityCode debouncedStreetQuery) eqn:G.
  - unfold streetEffectFetches in G.
    apply andb_true_iff in G as [G G3]; apply andb_true_iff in G as [G1 _].
    apply negb_true_iff in G1.
    rewrite fetchStreets_requests, (long_query_guard _ G3), G1.
    destruct (settle netStreets _) as [e|l]; simpl.
    + destruct Ho as [m ->].
      split; [intros _; split; reflexivity|].
      split; [intros H; discriminate|].
      split; [constructor | right; eauto].
    + split; [intros _; split; reflexivity|].
      split; [intros H; discriminate|].
      split; [exact (proj1 Ho) | left; reflexivity].
  - simpl.
    split; [intros H; discriminate|].
    split; [intros _; repeat split|].
    split; [constructor | left; reflexivity].
Qed.
End EffectFacts.

(** ** The phone rows of the form *)
Section PhoneRowFacts.
Import Zod Schema Form.
Local Open Scope list_scope.

Lemma clearOthers_past (sel : nat) (l : list PhoneNumberData) : forall k,
  sel < k -> clearOthers sel k l = markOnly sel k l.
Proof.
  induction l as [|ph l IH]; intros k H; simpl; [reflexivity|].
  destruct (Nat.eqb_spec k sel) as [E|_]; [lia|].
  rewrite IH by lia; reflexivity.
Qed.

Lemma handle_markOnly (sel : nat) (l : list PhoneNumberData) : forall k,
  k <= sel ->
  updateAt (sel - k) (withMain true) (clearOthers sel k l) = markOnly sel k l.
Proof.
  induction l as [|ph l IH]; intros k H; simpl.
  - destruct (sel - k); reflexivity.
  - destruct (Nat.eqb_spec k sel) as [->|Hne]; simpl.
    + rewrite Nat.sub_diag; simpl.
      rewrite clearOthers_past by lia; reflexivity.
    + destruct (sel - k) as [|j] eqn:E; [lia|]; simpl.
      replace j with (sel - S k) by lia.
      rewrite IH by lia; reflexivity.
Qed.

Lemma handleMainPhoneChange_markOnly sel l :
  handleMainPhoneChange sel l = markOnly sel 0 l.
Proof.
  unfold handleMainPhoneChange, setIsMain.
  rewrite <- (handle_markOnly sel l 0) by lia.
  rewrite Nat.sub_0_r; reflexivity.
Qed.

Lemma markOnly_forgets sel i b (l : list PhoneNumberData) : forall k,
  markOnly sel k (updateAt i (withMain b) l) = markOnly sel k l.
Proof.
  revert i; induction l as [|ph l IH]; intros [|i] k; simpl; try reflexivity.
  rewrite IH; reflexivity.
Qed.

Lemma onCheckedChange_true index l :
  onCheckedChange index true l = markOnly index 0 l.
Proof.
  unfold onCheckedChange, setIsMain.
  rewrite handleMainPhoneChange_markOnly; apply markOnly_forgets.
Qed.

Lemma countMain_markOnly sel (l : list PhoneNumberData) : forall k,
  countMain (markOnly sel k l)
  = if ((k <=? sel)%nat && (sel <? k + length l)%nat) then 1 else 0.
Proof.
  unfold countMain; induction l as [|ph l IH]; intros k; simpl.
  - destruct (Nat.leb_spec k sel), (Nat.ltb_spec sel (k + 0)); simpl; lia.
  - destruct (Nat.eqb_spec k sel) as [->|Hne]; simpl; rewrite IH.
    + destruct (Nat.leb_spec (S sel) sel); [lia|].
      destruct (Nat.leb_spec sel sel), (Nat.ltb_spec sel (sel + S (length l)));
        simpl; lia.
    + destruct (Nat.leb_spec (S k) sel), (Nat.leb_spec k sel),
        (Nat.ltb_spec sel (S k + length l)), (Nat.ltb_spec sel (k + S (length l)));
        simpl; lia.
Qed.

Lemma markOnly_nth sel (l : list PhoneNumberData) : forall k i ph,
  nth_error l i = Some ph ->
  nth_error (markOnly sel k l) i
  = Some (mkPhone (type ph) (number ph) (k + i =? sel)%nat).
Proof.
  induction l as [|x l IH]; intros k [|i] ph H; simpl in *; try discriminate.
  - injection H as ->; rewrite Nat.add_0_r; reflexivity.
  - rewrite (IH (S k) i ph H); replace (S k + i) with (k + S i) by lia; reflexivity.
Qed.

Lemma markOnly_length sel (l : list PhoneNumberData) : forall k,
  length (markOnly sel k l) = length l.
Proof. induction l; intros k; simpl; auto. Qed.

Lemma mainPhoneRefine_one p phones :
  countMain phones = 1 -> mainPhoneRefine p phones = [].
Proof.
  unfold countMain, mainPhoneRefine; intros ->; reflexivity.
Qed.

(** X12. Ticking the "main" box of a row makes that row the one main
    phone: afterwards exactly one row is main, it is the ticked one, every
    row keeps its type and number, and the main-phone rule of the schema
    has nothing to report. *)
Theorem onCheckedChange_selects (phones : list PhoneNumberData) (index : nat) :
  index < length phones ->
  let after := onCheckedChange index true phones in
  countMain after = 1
  /\ length after = length phones
  /\ (forall i ph,
        nth_error phones i = Some ph ->
        nth_error after i = Some (mkPhone (type ph) (number ph) (i =? index)%nat))
  /\ (forall p, mainPhoneRefine p after = []).
Proof.
  intros H; cbv zeta; rewrite onCheckedChange_true.
  assert (Hc : countMain (markOnly index 0 phones) = 1).
  { rewrite countMain_markOnly; simpl.
    destruct (Nat.ltb_spec index (length phones)); [reflexivity | lia]. }
  repeat split.
  - exact Hc.
  - apply markOnly_length.
  - intros i ph Hn; apply (markOnly_nth index phones 0 i ph Hn).
  - intros p; apply mainPhoneRefine_one; exact Hc.
Qed.

Lemma onCheckedChange_selects_witness :
  let after :=
    onCheckedChange 1 true
      [mkPhone "Home" "02-1234567" true; mkPhone "Mobile" "050-123-4567" false] in
  countMain after = 1
  /\ length after = 2
  /\ (forall i ph,
        nth_error [mkPhone "Home" "02-1234567" true;
                   mkPhone "Mobile" "050-123-4567" false] i = Some ph ->
        nth_error after i = Some (mkPhone (type ph) (number ph) (i =? 1)%nat))
  /\ (forall p, mainPhoneRefine p after = []).
Proof.
  apply (onCheckedChange_selects
           [mkPhone "Home" "02-1234567" true; mkPhone "Mobile" "050-123-4567" false] 1).
  simpl; lia.
Defined.

Lemma countMain_cons ph l :
  countMain (ph :: l) = (if isMain ph then 1 else 0) + countMain l.
Proof. unfold countMain; simpl; destruct (isMain ph); reflexivity. Qed.


Lemma countMain_zero_iff l : countMain l = 0 <-> existsb isMain l = false.
Proof.
  induction l as [|ph l IH]; [split; reflexivity|].
  rewrite countMain_cons; simpl; destruct (isMain ph); simpl; [split; [lia|discriminate]|].
  exact IH.
Qed.

Lemma countMain_removeAt (l : list PhoneNumberData) : forall i,
  countMain (removeAt i l)
  = countMain l - match nth_error l i with
                  | Some ph => if isMain ph then 1 else 0
                  | None => 0
                  end.
Proof.
  induction l as [|ph l IH]; intros [|i]; simpl; try reflexivity.
  - rewrite countMain_cons; destruct (isMain ph); lia.
  - rewrite !countMain_cons, IH.
    destruct (nth_error l i) as [x|] eqn:E; [|lia].
    destruct (isMain x) eqn:Hx; [|lia].
    assert (1 <= countMain l).
    { clear IH; revert i E; induction l as [|y l IHl]; intros [|i] E;
        simpl in E; try discriminate; rewrite countMain_cons.
      - injection E as ->; rewrite Hx; lia.
      - specialize (IHl i E); lia. }
    lia.
Qed.

Lemma countMain_setFirst l :
  l <> [] -> countMain l = 0 -> countMain (setIsMain 0 true l) = 1.
Proof.
  destruct l as [|ph l]; [congruence|]; intros _.
  unfold setIsMain; simpl; rewrite !countMain_cons; simpl.
  destruct (isMain ph); lia.
Qed.



Lemma length_nonempty {T} (l : list T) : (0 <? length l)%nat = true <-> l <> [].
Proof.
  destruct l; simpl; split; intros H; try discriminate; try congruence; reflexivity.
Qed.


(** X13. Removing a row never leaves the remaining rows without a main
    phone: if exactly one row was main and a row is left after the removal,
    exactly one row is main afterwards (the first one when the main row was
    the one removed). *)
Theorem removePhoneRow_keeps_main (index : nat) (phones : list PhoneNumberData) :
  countMain phones = 1 ->
  removeAt index phones <> [] ->
  countMain (removePhoneRow index phones) = 1
  /\ length (removePhoneRow index phones) = length (removeAt index phones)
  /\ forall p, mainPhoneRefine p (removePhoneRow index phones) = [].
Proof.
  intros H Hne.
  assert (Hc : countMain (removePhoneRow index phones) = 1
               /\ length (removePhoneRow index phones) = length (removeAt index phones)).
  { unfold removePhoneRow; cbv zeta.
    pose proof (countMain_removeAt phones index) as Hr.
    apply length_nonempty in Hne.
    destruct (nth_error phones index) as [ph|]; [destruct (isMain ph)|]; simpl.
    - rewrite Hne.
      assert (E : existsb isMain (removeAt index phones) = false)
        by (apply countMain_zero_iff; lia).
      rewrite E; simpl; split.
      + apply countMain_setFirst; [apply length_nonempty; exact Hne | lia].
      + unfold setIsMain; destruct (removeAt index phones); reflexivity.
    - split; [lia | reflexivity].
    - split; [lia | reflexivity]. }
  destruct Hc as [Hc Hl]; repeat split; [exact Hc | exact Hl|].
  intros p; apply mainPhoneRefine_one; exact Hc.
Qed.

Lemma removePhoneRow_keeps_main_witness :
  countMain
    (removePhoneRow 0
       [mkPhone "Home" "02-1234567" true; mkPhone "Mobile" "050-123-4567" false]) = 1
  /\ length
       (removePhoneRow 0
          [mkPhone "Home" "02-1234567" true; mkPhone "Mobile" "050-123-4567" false])
     = length
         (removeAt 0
            [mkPhone "Home" "02-1234567" true; mkPhone "Mobile" "050-123-4567" false])
  /\ forall p,
       mainPhoneRefine p
         (removePhoneRow 0
            [mkPhone "Home" "02-1234567" true; mkPhone "Mobile" "050-123-4567" false])
       = [].
Proof.
  apply (removePhoneRow_keeps_main 0
           [mkPhone "Home" "02-1234567" true; mkPhone "Mobile" "050-123-4567" false]).
  - reflexivity.
  - discriminate.
Defined.



End PhoneRowFacts.

(** ** Submission *)
Section SubmitFacts.
Import JsString Zod Schema Api Submit.
Local Open Scope list_scope.

Lemma posts_app (l1 l2 : list event) : posts (l1 ++ l2) = posts l1 ++ posts l2.
Proof.
  induction l1 as [|e l1 IH]; simpl; [reflexivity|].
  destruct e; simpl; rewrite IH; reflexivity.
Qed.

Lemma catchPost_result (error : failure) :
  posts (fst (catchPost error)) = []
  /\ exists m, snd (catchPost error) = inl (Error m).
Proof. destruct error; simpl; eauto. Qed.

(** X15. [postPatientData] sends exactly one POST, to the configured
    webhook, carrying the record.  Its promise resolves, with the data of
    the response, exactly when the response data is truthy and its
    [status] is the string "success"; in every other case it rejects, and
    always with an [Error]. *)
Theorem postPatientData_settles
    (env : string -> option string) (stringify : jsval -> string)
    (post : string -> jsval -> failure + jsval) (data : PatientFormData) :
  let run := postPatientData env stringify post data in
  let url := ZAPIER_WEBHOOK_URL env in
  posts (fst run) = [(url, patientToJs data)]
  /\ (forall d, snd run = inr d
                <-> post url (patientToJs data) = inr d /\ saysSuccess d = true)
  /\ (forall e, snd run = inl e -> exists m, e = Error m).
Proof.
  cbv zeta; unfold postPatientData; cbv zeta.
  destruct (post (ZAPIER_WEBHOOK_URL env) (patientToJs data)) as [err|d0] eqn:P.
  - destruct (catchPost_result err) as [Hp [m Hm]].
    destruct (catchPost err) as [logged result]; simpl in *; subst result.
    rewrite Hp; split; [reflexivity|]; split.
    + intros d; split; [intros E; discriminate | intros [E _]; discriminate].
    + intros e [= <-]; eauto.
  - destruct (saysSuccess d0) eqn:S.
    + simpl; split; [reflexivity|]; split.
      * intros d; split; [intros [= <-]; auto | intros [[= <-] _]; reflexivity].
      * intros e E; discriminate.
    + destruct (catchPost_result
                  (OtherError ("Zapier submission may have failed: "
                               ++ stringify d0)%string)) as [Hp [m Hm]].
      destruct (catchPost _) as [logged result]; simpl in *; subst result.
      rewrite ?posts_app, Hp; simpl; split; [reflexivity|]; split.
      * intros d; split; [intros E; discriminate | intros [[= <-] E]; congruence].
      * intros e [= <-]; eauto.
Qed.

(** X16. The relay answers 405 exactly to a method other than POST, and
    200 exactly when the method is POST, the webhook is configured and the
    webhook's answer is truthy with [status] "success"; every other case is
    a 500 with one of two fixed bodies, so nothing of the upstream failure
    reaches the client.  It sends upstream at most one POST, to the
    configured URL with the body it received, and none at all for another
    method or without configuration. *)
Theorem handler_responses
    (configured : option string) (post : string -> jsval -> failure + jsval)
    (request : http_request) :
  let run := handler configured post request in
  let response := snd run in
  (status response = 405%Z <-> method request <> "POST")
  /\ (status response = 200%Z
      <-> method request = "POST"
          /\ exists url d,
               configured = Some url /\ unconfigured configured = false
               /\ post url (body request) = inr d /\ saysSuccess d = true)
  /\ (status response = 200%Z \/ status response = 405%Z
      \/ (status response = 500%Z
          /\ (json response = JObj [("error", JStr "Server configuration error.")]
              \/ json response = JObj [("error", JStr "Failed to submit data.")])))
  /\ (posts (fst run) = []
      \/ exists url, configured = Some url
                     /\ posts (fst run) = [(url, body request)])
  /\ (method request <> "POST" \/ unconfigured configured = true ->
      posts (fst run) = []).
Proof.
  cbv zeta; unfold handler; cbv zeta.
  destruct (String.eqb_spec (method request) "POST") as [Em|Em]; simpl.
  - destruct (unconfigured configured) eqn:U; simpl.
    + split; [split; [intros E; discriminate | intros E; contradiction]|].
      split; [split; [intros E; discriminate
                     | intros [_ (url & d & _ & E & _)]; discriminate]|].
      split; [right; right; split; [reflexivity | left; reflexivity]|].
      split; [left; reflexivity | intros _; reflexivity].
    + destruct configured as [url|]; [|discriminate].
      destruct (post url (body request)) as [err|d] eqn:P; simpl.
      * split; [split; [intros E; discriminate | intros E; contradiction]|].
        split; [split; [intros E; discriminate
                       | intros [_ (url' & d & [= <-] & _ & E & _)]; congruence]|].
        split; [right; right; split; [reflexivity | right; reflexivity]|].
        split; [right; exists url; split; reflexivity|].
        intros [E|E]; [contradiction | discriminate].
      * destruct (saysSuccess d) eqn:S; simpl.
        -- split; [split; [intros E; discriminate | intros E; contradiction]|].
           split; [split; [intros _; split; [exact Em | exists url, d; auto]
                          | reflexivity]|].
           split; [left; reflexivity|].
           split; [right; exists url; split; reflexivity|].
           intros [E|E]; [contradiction | discriminate].
        -- split; [split; [intros E; discriminate | intros E; contradiction]|].
           split; [split; [intros E; discriminate
                          | intros [_ (url' & d' & [= <-] & _ & E & E')];
                            congruence]|].
           split; [right; right; split; [reflexivity | right; reflexivity]|].
           split; [right; exists url; split; reflexivity|].
           intros [E|E]; [contradiction | discriminate].
  - split; [split; [intros _; exact Em | reflexivity]|].
    split; [split; [intros E; discriminate | intros [E _]; contradiction]|].
    split; [right; left; reflexivity|].
    split; [left; reflexivity | intros _; reflexivity].
Qed.
End SubmitFacts.

(** ** Issues of single fields *)
Section FieldIssueFacts.
Import JsString Zod Schema Validators Accepted.
Local Open Scope list_scope.

Lemma trimStart_blank (s : string) :
  trimStart s = "" <-> JsString.forallb isWhiteSpace s = true.
Proof.
  induction s as [|c s IH]; simpl; [split; reflexivity|].
  destruct (isWhiteSpace c); simpl; [exact IH | split; discriminate].
Qed.

Lemma trimEnd_blank (s : string) :
  trimEnd s = "" <-> JsString.forallb isWhiteSpace s = true.
Proof.
  induction s as [|c s IH]; simpl; [split; reflexivity|].
  destruct (trimEnd s) as [|a t].
  - destruct (isWhiteSpace c); simpl.
    + split; [intros _; apply IH; reflexivity | reflexivity].
    + split; discriminate.
  - split; [discriminate|].
    intros H; apply andb_true_iff in H as [_ H]; apply IH in H; discriminate.
Qed.

Lemma trim_blank (s : string) :
  trim s = "" <-> JsString.forallb isWhiteSpace s = true.
Proof.
  unfold trim; rewrite trimEnd_blank; split.
  - intros H.
    pose proof (trimStart_startsClean s) as Hs.
    destruct (trimStart s) as [|c t] eqn:E; [apply trimStart_blank; exact E|].
    simpl in H, Hs; apply andb_true_iff in H as [H _].
    rewrite H in Hs; discriminate.
  - intros H; apply trimStart_blank in H; rewrite H; reflexivity.
Qed.

Lemma trimStart_split (s : string) :
  exists pre, s = (pre ++ trimStart s)%string
              /\ JsString.forallb isWhiteSpace pre = true.
Proof.
  induction s as [|c s (pre & E & H)]; simpl; [exists ""; auto|].
  destruct (isWhiteSpace c) eqn:W.
  - exists (String c pre); simpl; rewrite W, H; split; [congruence | reflexivity].
  - exists ""; auto.
Qed.

Lemma trimEnd_split (s : string) :
  exists post, s = (trimEnd s ++ post)%string
               /\ JsString.forallb isWhiteSpace post = true.
Proof.
  induction s as [|c s (post & E & H)]; simpl; [exists ""; auto|].
  destruct (trimEnd s) as [|a t] eqn:T.
  - simpl in E; subst post.
    destruct (isWhiteSpace c) eqn:W.
    + exists (String c s); simpl; rewrite W, H; auto.
    + exists s; auto.
  - exists post; split; [|exact H].
    change (String c s = String c (String a t ++ post)%string); congruence.
Qed.

Lemma trimEnd_endsClean (s : string) : endsClean (trimEnd s) = true.
Proof.
  induction s as [|c s IH]; simpl; [reflexivity|].
  destruct (trimEnd s) as [|a t] eqn:T.
  - destruct (isWhiteSpace c) eqn:W; simpl; [reflexivity | rewrite W; reflexivity].
  - exact IH.
Qed.

Lemma name_field_eval (m : string) (p : path) (s : string) :
  z_string [STrim; SMin 1 m] p (JStr s)
  = if JsString.forallb isWhiteSpace s
    then (Dirty "", [mkIssue too_small p (Message m)])
    else (Valid (trim s), []).
Proof.
  unfold z_string; simpl.
  destruct (JsString.forallb isWhiteSpace s) eqn:B.
  - apply trim_blank in B; rewrite B; reflexivity.
  - destruct (len (trim s) <? 1)%Z eqn:L; [|reflexivity].
    apply len_zero_iff, trim_blank in L; congruence.
Qed.

(** X17. A name made of white space only (the empty name included) is
    rejected with its "is required" issue; any other name is accepted and
    normalized to what is left of it once the leading and the trailing
    white space are removed, which neither begins nor ends with white
    space. *)
Theorem names_normalized (p : path) (s : string) :
  firstNameField p (JStr s)
  = (if JsString.forallb isWhiteSpace s
     then (Dirty "", [mkIssue too_small p (Message "First name is required")])
     else (Valid (trim s), []))
  /\ lastNameField p (JStr s)
     = (if JsString.forallb isWhiteSpace s
        then (Dirty "", [mkIssue too_small p (Message "Last name is required")])
        else (Valid (trim s), []))
  /\ (exists pre post,
        s = (pre ++ trim s ++ post)%string
        /\ JsString.forallb isWhiteSpace pre = true
        /\ JsString.forallb isWhiteSpace post = true)
  /\ startsClean (trim s) = true
  /\ endsClean (trim s) = true.
Proof.
  split; [apply name_field_eval|]; split; [apply name_field_eval|].
  split; [|split].
  - destruct (trimStart_split s) as (pre & E1 & H1).
    destruct (trimEnd_split (trimStart s)) as (post & E2 & H2).
    exists pre, post; split; [|split; assumption].
    unfold trim; rewrite <- E2; exact E1.
  - apply trimEnd_startsClean, trimStart_startsClean.
  - apply trimEnd_endsClean.
Qed.

(** X18. For a string, the identifier field gives no issue when the
    checksum validator accepts it, the one issue "Invalid Israeli ID
    number" when it has nine characters and is rejected, and both "ID must
    be exactly 9 digits" and "Invalid Israeli ID number", in that order,
    when its length is not 9: the refinement runs after a failed length
    check. *)
Theorem idField_issues (p : path) (s : string) :
  idField p (JStr s)
  = if isValidIsraeliId (Some s) then (Valid s, [])
    else if (len s =? 9)%Z
    then (Dirty s, [mkIssue custom p (Message "Invalid Israeli ID number")])
    else (Dirty s,
          [mkIssue (if (len s >? 9)%Z then too_big else too_small) p
             (Message "ID must be exactly 9 digits");
           mkIssue custom p (Message "Invalid Israeli ID number")]).
Proof.
  unfold idField, z_refine, z_superRefine; rewrite z_string_length_eval.
  destruct (isValidIsraeliId (Some s)) eqn:V.
  - rewrite (isValidIsraeliId_length s V).
    change (9 =? 9)%Z with true; cbv beta iota; rewrite V; reflexivity.
  - destruct (len s =? 9)%Z; cbv beta iota; rewrite V; reflexivity.
Qed.

(** X19. For a string, the phone number field gives no issue when the phone
    validator accepts it, both "Phone number is required" and "Invalid
    Israeli phone number format" when it is empty, and the second alone
    for any other rejected string. *)
Theorem phoneNumberField_issues (p : path) (s : string) :
  phoneNumberField p (JStr s)
  = if isValidIsraeliPhoneNumber (Some s) then (Valid s, [])
    else if falsy s
    then (Dirty s,
          [mkIssue too_small p (Message "Phone number is required");
           mkIssue custom p (Message "Invalid Israeli phone number format")])
    else (Dirty s,
          [mkIssue custom p (Message "Invalid Israeli phone number format")]).
Proof.
  unfold phoneNumberField, z_refine, z_superRefine; rewrite z_string_min1_eval.
  destruct (isValidIsraeliPhoneNumber (Some s)) eqn:V.
  - rewrite (isValidIsraeliPhoneNumber_nonempty s V).
    cbv beta iota; rewrite V; reflexivity.
  - destruct (falsy s); cbv beta iota; rewrite V; reflexivity.
Qed.
End FieldIssueFacts.

(** ** Missing keys, and entries that abort *)
Section AbortFacts.
Import JsString Zod Schema Validators Accepted Rules.
Local Open Scope list_scope.

Variable StringToNumber : string -> jsnum.
Variable ObjectToNumber : jsval -> option jsnum.

Lemma mergeArray_aborted {A} (rs : list (pstatus A)) : forall dirty acc,
  existsb threw rs = false ->
  In Aborted rs -> mergeArray dirty rs acc = Aborted.
Proof.
  induction rs as [|r rs IH]; intros dirty acc Ht H; [destruct H|].
  destruct r; simpl in *; [reflexivity| | |discriminate];
    (destruct H as [H|H]; [discriminate | apply IH; assumption]).
Qed.

Lemma parseItems_returns {A} (elem : schema A) p items : forall k,
  NoThrow elem -> existsb threw (map fst (parseItems elem p k items)) = false.
Proof.
  intros k H; revert k; induction items as [|item items IH]; intros k; simpl;
    [reflexivity|].
  rewrite IH, orb_false_r.
  specialize (H (p ++ [PIdx k]) item).
  destruct (fst (elem (p ++ [PIdx k]) item)); try reflexivity.
  exfalso; apply H; reflexivity.
Qed.

Lemma phoneTypeEnum_aborted p v :
  fst (phoneTypeEnum p v) = Aborted <->
  (forall s, v = JStr s -> ~ In s ["Home"; "Mobile"; "Work"; "Other"]).
Proof.
  unfold phoneTypeEnum, z_enum.
  destruct v; try (split; [intros _ s H; discriminate | reflexivity]).
  destruct (existsb (String.eqb s) ["Home"; "Mobile"; "Work"; "Other"]) eqn:E.
  - split; [discriminate|].
    intros H; exfalso; apply (H s eq_refl), existsb_eqb_In; exact E.
  - split; [|reflexivity].
    intros _ s' H; injection H as <-; intros I.
    apply existsb_eqb_In in I; congruence.
Qed.

Lemma phoneNumberField_aborted p v :
  fst (phoneNumberField p v) = Aborted <-> (forall s, v <> JStr s).
Proof.
  unfold phoneNumberField, z_refine, z_superRefine.
  destruct v;
    try (split; [intros _ s H; discriminate | reflexivity]).
  rewrite z_string_min1_eval.
  split.
  - destruct (falsy s); cbv beta iota;
      destruct (isValidIsraeliPhoneNumber (Some s)); discriminate.
  - intros H; exfalso; exact (H s eq_refl).
Qed.

Lemma isMainField_aborted p v :
  fst (isMainField p v) = Aborted <->
  (forall b, v <> JBool b) /\ v <> JUndefined.
Proof.
  unfold isMainField, z_default, z_boolean.
  destruct v; simpl; split; intros H; try reflexivity; try discriminate;
    try (split; [intros b' E; discriminate | intros E; discriminate]).
  - destruct H as [_ H]; exfalso; apply H; reflexivity.
  - destruct H as [H _]; exfalso; exact (H b eq_refl).
Qed.

(** X20. A record whose [hmo] is missing is a failure that carries the
    issue "HMO is required" at the path [hmo], whatever the other keys
    hold, unless the coercion of the street number of an address entry
    throws: validation then throws and reports nothing. *)
Theorem missing_hmo_reported (fields : list (string * jsval)) :
  getProp "hmo" fields = JUndefined ->
  (coercionThrows StringToNumber ObjectToNumber (JObj fields) ->
   validate StringToNumber ObjectToNumber (JObj fields) = Throws)
  /\ (~ coercionThrows StringToNumber ObjectToNumber (JObj fields) ->
      exists errs,
        validate StringToNumber ObjectToNumber (JObj fields) = Failure errs
        /\ In (mkIssue invalid_type [PKey "hmo"] (Message "HMO is required"))
             errs).
Proof.
  intros H; split; [apply validate_throws|].
  intros Hn; apply validate_reports; [exact Hn|].
  apply patientSchema_issues.
  do 4 right; left; rewrite H; left; reflexivity.
Qed.

(** X21. An entry of [phoneNumbers] that is an object aborts exactly when
    its [type] is not one of the four phone types, its [number] is not a
    string, or its [isMain] is neither a boolean nor absent; a number that
    is a string never aborts it, however wrong. *)
Theorem phoneNumberSchema_aborts_iff (p : path) (entry : list (string * jsval)) :
  fst (phoneNumberSchema p (JObj entry)) = Aborted <->
  (forall s, getProp "type" entry = JStr s ->
             ~ In s ["Home"; "Mobile"; "Work"; "Other"])
  \/ (forall s, getProp "number" entry <> JStr s)
  \/ ((forall b, getProp "isMain" entry <> JBool b)
      /\ getProp "isMain" entry <> JUndefined).
Proof.
  unfold phoneNumberSchema, z_object.
  rewrite !shape_field_status.
  pose proof (phoneTypeEnum_aborted (p ++ [PKey "type"]) (getProp "type" entry))
    as Ht.
  pose proof (phoneNumberField_aborted (p ++ [PKey "number"])
                (getProp "number" entry)) as Hn.
  pose proof (isMainField_aborted (p ++ [PKey "isMain"])
                (getProp "isMain" entry)) as Hm.
  assert (Rt : fst (phoneTypeEnum (p ++ [PKey "type"]) (getProp "type" entry))
               <> Threw) by apply z_enum_returns.
  assert (Rn : fst (phoneNumberField (p ++ [PKey "number"])
                      (getProp "number" entry)) <> Threw)
    by (apply z_refine_returns, z_string_returns).
  assert (Rm : fst (isMainField (p ++ [PKey "isMain"]) (getProp "isMain" entry))
               <> Threw) by (apply z_default_returns, z_boolean_returns).
  destruct (fst (phoneTypeEnum _ _)), (fst (phoneNumberField _ _)),
    (fst (isMainField _ _)); simpl;
    try (exfalso; apply Rt; reflexivity);
    try (exfalso; apply Rn; reflexivity);
    try (exfalso; apply Rm; reflexivity);
    clear Rt Rn Rm; split; intros H;
    try discriminate; try reflexivity;
    try (left; apply Ht; reflexivity);
    try (right; left; apply Hn; reflexivity);
    try (right; right; apply Hm; reflexivity);
    destruct H as [H|[H|H]];
    first [ apply Ht in H | apply Hn in H | apply Hm in H ]; discriminate.
Qed.

(** X22. When one entry of [phoneNumbers] aborts, the array aborts and its
    issues are exactly those of its entries: the main-phone rule is not
    run, so it adds no issue even if no entry, or more than one, is marked
    main. *)
Theorem phoneNumbersField_skips_rule (p : path) (items : list jsval)
    (i : nat) (item : jsval) :
  nth_error items i = Some item ->
  fst (phoneNumberSchema (p ++ [PIdx i]) item) = Aborted ->
  phoneNumbersField p (JArr items)
  = (Aborted, concat (map snd (parseItems phoneNumberSchema p 0 items))).
Proof.
  intros Hn Ha; unfold phoneNumbersField, z_superRefine, z_array.
  assert (Hl : (length items <? 1)%nat = false).
  { destruct items; [destruct i; discriminate | reflexivity]. }
  rewrite Hl; cbv beta iota zeta.
  rewrite (parseItems_returns phoneNumberSchema p items 0
             phoneNumberSchema_returns).
  rewrite mergeArray_aborted;
    [reflexivity | apply parseItems_returns, phoneNumberSchema_returns|].
  rewrite <- Ha; apply in_map_iff.
  exists (phoneNumberSchema (p ++ [PIdx i]) item); split; [reflexivity|].
  apply nth_error_In with (n := i).
  apply (parseItems_nth phoneNumberSchema p items 0 i item Hn).
Qed.
End AbortFacts.

Lemma missing_hmo_reported_witness :
  exists errs,
    Schema.validate Samples.decimalToNumber Samples.plainObjectToNumber
      (Zod.JObj [("id", Zod.JStr "000000018")]) = Zod.Failure errs
    /\ In (Zod.mkIssue Zod.invalid_type [Zod.PKey "hmo"]
             (Zod.Message "HMO is required")) errs.
Proof.
  refine (proj2 (missing_hmo_reported Samples.decimalToNumber
                   Samples.plainObjectToNumber
                   [("id", Zod.JStr "000000018")] eq_refl) _).
  intros (f & items & i & entry & E & Harr & _).
  injection E as <-; discriminate Harr.
Defined.

Lemma phoneNumbersField_skips_rule_witness :
  Schema.phoneNumbersField [Zod.PKey "phoneNumbers"]
    (Zod.JArr [Samples.samplePhone [("isMain", Zod.JBool true)];
               Samples.samplePhone [("isMain", Zod.JBool true)];
               Zod.JObj [("number", Zod.JStr "050-123-4567")]])
  = (Zod.Aborted,
     [Zod.mkIssue Zod.invalid_type
        [Zod.PKey "phoneNumbers"; Zod.PIdx 2; Zod.PKey "type"]
        (Zod.Message "Phone type is required")]).
Proof.
  rewrite (phoneNumbersField_skips_rule [Zod.PKey "phoneNumbers"] _ 2
             (Zod.JObj [("number", Zod.JStr "050-123-4567")]));
    reflexivity.
Defined.

(** ** Choosing a city, then a street *)
Section SelectionFacts.
Import JsString Zod Schema Validators Accepted Api Form.
Local Open Scope list_scope.

Variable StringToNumber : string -> jsnum.
Variable ObjectToNumber : jsval -> option jsnum.

Lemma nth_error_updateAt_same {T} (f : T -> T) (l : list T) : forall i x,
  nth_error l i = Some x -> nth_error (updateAt i f l) i = Some (f x).
Proof.
  induction l as [|y l IH]; intros [|i] x H; simpl in *; try discriminate.
  - injection H as ->; reflexivity.
  - apply IH; exact H.
Qed.

Lemma nth_error_updateAt_other {T} (f : T -> T) (l : list T) : forall i j,
  j <> i -> nth_error (updateAt i f l) j = nth_error l j.
Proof.
  induction l as [|y l IH]; intros [|i] [|j] H; simpl; try reflexivity.
  - contradiction.
  - apply IH; congruence.
Qed.

(** X23. Choosing a city for an address row stores the city and empties
    the street of that row, so the row is reported with "Street selection
    is required" until a street is chosen; once one is, the row is accepted
    exactly when the four codes and names are not empty, the address type
    is one of the three and the comments hold at most 500 characters.  The
    other rows are left as they were. *)
Theorem address_selection (p : path) (index : nat) (city : ApiCity)
    (street : ApiStreet) (addresses : list AddressData) (a : AddressData) :
  nth_error addresses index = Some a ->
  let a1 := mkAddress (city_semel_yishuv city) (city_shem_yishuv city)
              "" "" (JFin 1) (addressType a) (comments a) in
  let a2 := mkAddress (city_semel_yishuv city) (city_shem_yishuv city)
              (street_semel_rechov street) (street_shem_rechov street)
              (JFin 1) (addressType a) (comments a) in
  let chosen := selectStreet index street (selectCity index city addresses) in
  nth_error (selectCity index city addresses) index = Some a1
  /\ In (mkIssue too_small (p ++ [PKey "streetCode"])
           (Message "Street selection is required"))
        (snd (addressSchema StringToNumber ObjectToNumber p (addressToJs a1)))
  /\ nth_error chosen index = Some a2
  /\ (addressSchema StringToNumber ObjectToNumber p (addressToJs a2)
      = (Valid a2, [])
      <-> city_semel_yishuv city <> "" /\ city_shem_yishuv city <> ""
          /\ street_semel_rechov street <> "" /\ street_shem_rechov street <> ""
          /\ In (addressType a) ["Home"; "Work"; "Other"]
          /\ (forall c, comments a = Some c -> String.length c <= 500))
  /\ (forall j, j <> index -> nth_error chosen j = nth_error addresses j).
Proof.
  intros Hn a1 a2 chosen.
  assert (H1 : nth_error (selectCity index city addresses) index = Some a1).
  { unfold selectCity; rewrite (nth_error_updateAt_same _ _ _ _ Hn); reflexivity. }
  split; [exact H1|]; split; [|split; [|split]].
  - unfold addressSchema, z_object, addressToJs.
    rewrite !shape_field_issues, !in_app_iff.
    do 4 left; right; left; reflexivity.
  - unfold chosen, selectStreet.
    rewrite (nth_error_updateAt_same _ _ _ _ H1); reflexivity.
  - destruct (addressSchema_decides StringToNumber ObjectToNumber p a2) as [Hv Hok].
    split.
    + intros E; rewrite E in Hv.
      destruct (Hv eq_refl) as (C1 & C2 & C3 & C4 & _ & C6 & C7).
      repeat split; assumption.
    + intros (C1 & C2 & C3 & C4 & C6 & C7); apply Hok.
      repeat split; try assumption.
      exists 1%Q, 1%Z; split; [reflexivity | split; [lia | reflexivity]].
  - intros j Hj; unfold chosen, selectStreet, selectCity.
    rewrite !nth_error_updateAt_other by exact Hj; reflexivity.
Qed.
End SelectionFacts.

Lemma address_selection_witness :
  nth_error
    (Form.selectStreet 0 (Api.mkStreet 7 "101" "Jaffa" "3000")
       (Form.selectCity 0 (Api.mkCity 1 "3000" "Jerusalem")
          (Schema.addresses Form.defaultValues))) 0
  = Some (Schema.mkAddress "3000" "Jerusalem" "101" "Jaffa"
            (Zod.JFin 1) "Home" (Some "")).
Proof.
  exact (proj1 (proj2 (proj2
    (address_selection Samples.decimalToNumber Samples.plainObjectToNumber
       [] 0 (Api.mkCity 1 "3000" "Jerusalem") (Api.mkStreet 7 "101" "Jaffa" "3000")
       (Schema.addresses Form.defaultValues) Form.defaultAddress eq_refl)))).
Defined.

(** ** The submission handler *)
Section PageFacts.
Import JsString Zod Schema Api Form Submit Page.
Local Open Scope list_scope.

Variable env : string -> option string.
Variable stringify : jsval -> string.
Variable post : string -> jsval -> failure + jsval.

(** X24. Submitting sends one POST with the record.  When the answer is
    truthy with [status] "success" the success toast is shown and the page
    goes back to its initial state; in every other case the page is left
    exactly as it was, entered values included, and the error toast shows
    the text of the failure, never the handler's own fall-back text. *)
Theorem onSubmit_outcome (data : PatientFormData) (st : PageState) :
  let run := onSubmit env stringify post data st in
  let answer := post (ZAPIER_WEBHOOK_URL env) (patientToJs data) in
  let succeeded :=
    match answer with inr d => saysSuccess d | inl _ => false end in
  posts (fst (fst run)) = [(ZAPIER_WEBHOOK_URL env, patientToJs data)]
  /\ (succeeded = true ->
      snd (fst run) = mkToast "Success!" "Patient information submitted."
      /\ snd run = resetState)
  /\ (succeeded = false ->
      snd (fst run) = mkToast "Submission Error" (failureText stringify answer)
      /\ snd run = st).
Proof.
  cbv zeta; unfold onSubmit, postPatientData; cbv zeta.
  destruct (post (ZAPIER_WEBHOOK_URL env) (patientToJs data)) as [err|d] eqn:P.
  - destruct err; simpl; (split; [reflexivity|]);
      (split; [intros E; discriminate | intros _; split; reflexivity]).
  - destruct (saysSuccess d) eqn:S; simpl.
    + split; [reflexivity|].
      split; [intros _; split; reflexivity | intros E; discriminate].
    + split; [reflexivity|].
      split; [intros E; discriminate | intros _; split; reflexivity].
Qed.
End PageFacts.

(** ** The schema against the rules of the data model *)
Section RuleFacts.
Import JsString Zod Schema Validators Spec Accepted Rules.
Local Open Scope list_scope.

(** What each parser accepts satisfies the rule of its field. *)
Lemma idField_rule p v a : fst (idField p v) = Valid a -> idRule v.
Proof.
  unfold idField, z_refine, z_superRefine.
  destruct v; try discriminate.
  rewrite z_string_length_eval.
  destruct (len s =? 9)%Z; cbv beta iota;
    destruct (isValidIsraeliId (Some s)) eqn:V; simpl; try discriminate.
  intros _; exists s; split; [reflexivity|].
  apply isValidIsraeliId_spec; exact V.
Qed.

Lemma name_rule m p v a :
  fst (z_string [STrim; SMin 1 m] p v) = Valid a -> nameRule v.
Proof.
  destruct v; try discriminate.
  rewrite name_field_eval.
  destruct (JsString.forallb isWhiteSpace s) eqn:B; [discriminate|].
  intros _; exists s; split; [reflexivity|].
  intros E; apply trim_blank in E; congruence.
Qed.

Lemma z_enum_rule values params p v a :
  fst (z_enum values params p v) = Valid a -> oneOf values v.
Proof.
  unfold z_enum; destruct v; try discriminate.
  destruct (existsb (String.eqb s) values) eqn:E; [|discriminate].
  intros _; exists s; split; [reflexivity|].
  apply existsb_eqb_In; exact E.
Qed.

Lemma phoneNumberField_rule p v a :
  fst (phoneNumberField p v) = Valid a -> phoneRule v.
Proof.
  unfold phoneNumberField, z_refine, z_superRefine.
  destruct v; try discriminate.
  rewrite z_string_min1_eval.
  destruct (falsy s); cbv beta iota;
    destruct (isValidIsraeliPhoneNumber (Some s)) eqn:V; simpl; try discriminate.
  intros _; exists s; split; [reflexivity|].
  apply isValidIsraeliPhoneNumber_spec; exact V.
Qed.

Lemma isMainField_rule p v a : fst (isMainField p v) = Valid a -> flagRule v.
Proof.
  unfold isMainField, z_default, z_boolean, flagRule.
  destruct v; simpl; try discriminate; eauto.
Qed.

Lemma text_rule m p v a : fst (z_string [SMin 1 m] p v) = Valid a -> textRule v.
Proof.
  destruct v; try discriminate.
  rewrite z_string_min1_eval.
  destruct s; simpl; [discriminate|].
  intros _; eexists; split; [reflexivity | discriminate].
Qed.

Lemma commentsField_rule p v a : fst (commentsField p v) = Valid a -> commentsRule v.
Proof.
  unfold commentsField, z_optional, commentsRule.
  destruct v; try discriminate; [left; reflexivity|].
  rewrite z_string_max_eval.
  destruct (Z.gtb_spec (len s) 500) as [Hgt|Hle]; [discriminate|].
  intros _; right; exists s; split; [reflexivity|].
  unfold len in Hle; lia.
Qed.

Lemma wholeAtLeastOne_positive n : wholeAtLeastOne n -> positiveInteger n.
Proof.
  intros (q & z & E & Hz & Hq); exists q, z; repeat split; auto; lia.
Qed.

(** A leaf whose value breaks its rule leaves an issue at its path. *)
Lemma leaf_reported {A} (s : schema A) (ok : rule) p v :
  CoherentSchema s -> ExactPath s ->
  fst (s p v) <> Threw ->
  (forall a, fst (s p v) = Valid a -> ok v) ->
  ~ ok v ->
  exists x, In x (snd (s p v)) /\ ipath x = p.
Proof.
  intros Hc He Hn Hok Hv.
  apply unaccepted_leaves_issue; auto.
  intros a Ha; apply Hv, (Hok a Ha).
Qed.

(** A collection that is not an array with an item has an issue at its
    own path. *)
Lemma collection_reported {A} (elem : schema A) m p v :
  ~ collectionRule v ->
  exists x, In x (snd (z_array elem (Some (1, m)) p v)) /\ ipath x = p.
Proof.
  intros H; unfold z_array.
  destruct v; try (eexists; split; [left; reflexivity | reflexivity]).
  destruct items as [|item items].
  - eexists; split; [left; reflexivity | reflexivity].
  - exfalso; apply H; eexists; split; [reflexivity | discriminate].
Qed.

(** An entry that is not an object has an issue at its own path. *)
Lemma entry_reported {A} (sh : obj_parser A) p item :
  (forall entry, item <> JObj entry) ->
  exists x, In x (snd (z_object sh p item)) /\ ipath x = p.
Proof.
  intros H; unfold z_object.
  destruct item; try (eexists; split; [left; reflexivity | reflexivity]).
  destruct (H fields eq_refl).
Qed.
End RuleFacts.

(** ** The main-phone rule through the schema *)
Section MainRuleFacts.
Import JsString Zod Schema Validators Rules.
Local Open Scope list_scope.

(** An entry whose fields have their types parses to a value, valid or
    dirty, whose [isMain] is the one of the entry. *)
Lemma phoneNumberSchema_typed p item :
  phoneEntryTyped item = true ->
  exists ph,
    (fst (phoneNumberSchema p item) = Valid ph
     \/ fst (phoneNumberSchema p item) = Dirty ph)
    /\ isMain ph = markedMain item.
Proof.
  destruct item as [| | | | | |entry]; try discriminate.
  unfold phoneEntryTyped, markedMain; intros H.
  apply andb_true_iff in H as [H Hm]; apply andb_true_iff in H as [Ht Hn].
  assert (Et : exists t, fst (phoneTypeEnum (p ++ [PKey "type"])
                                (getProp "type" entry)) = Valid t).
  { unfold phoneTypeEnum, z_enum; revert Ht.
    destruct (getProp "type" entry); try discriminate.
    intros ->; exists s; reflexivity. }
  assert (En : exists n,
             fst (phoneNumberField (p ++ [PKey "number"])
                    (getProp "number" entry)) = Valid n
             \/ fst (phoneNumberField (p ++ [PKey "number"])
                       (getProp "number" entry)) = Dirty n).
  { unfold phoneNumberField, z_refine, z_superRefine; revert Hn.
    destruct (getProp "number" entry); try discriminate.
    intros _; rewrite z_string_min1_eval; exists s.
    destruct (falsy s); cbv beta iota;
      destruct (isValidIsraeliPhoneNumber (Some s)); simpl; auto. }
  assert (Em : fst (isMainField (p ++ [PKey "isMain"]) (getProp "isMain" entry))
               = Valid match getProp "isMain" entry with
                       | JBool b => b
                       | _ => false
                       end).
  { unfold isMainField, z_default, z_boolean; revert Hm.
    destruct (getProp "isMain" entry); try discriminate; reflexivity. }
  destruct Et as [t Et], En as [n En].
  unfold phoneNumberSchema, z_object.
  rewrite !shape_field_status, Et, Em.
  destruct En as [-> | ->]; simpl; eexists; split; eauto.
Qed.

(** Entries that all parse to values merge into the list of the values. *)
Lemma mergeArray_values {A} (rs : list (pstatus A)) (vs : list A) :
  Forall2 (fun st a => st = Valid a \/ st = Dirty a) rs vs ->
  forall dirty acc,
    mergeArray dirty rs acc = Valid (rev acc ++ vs)
    \/ mergeArray dirty rs acc = Dirty (rev acc ++ vs).
Proof.
  induction 1 as [|st a rs vs Hst _ IH]; intros dirty acc; simpl.
  - rewrite app_nil_r; destruct dirty; auto.
  - destruct Hst as [-> | ->];
      [specialize (IH dirty (a :: acc)) | specialize (IH true (a :: acc))];
      simpl in IH; rewrite <- app_assoc in IH; exact IH.
Qed.

Lemma parseItems_typed p items : forall k,
  List.forallb phoneEntryTyped items = true ->
  exists phones,
    Forall2 (fun st a => st = Valid a \/ st = Dirty a)
      (map fst (parseItems phoneNumberSchema p k items)) phones
    /\ map isMain phones = map markedMain items.
Proof.
  induction items as [|item items IH]; intros k H; simpl in *.
  - exists []; split; [constructor | reflexivity].
  - apply andb_true_iff in H as [H1 H2].
    destruct (phoneNumberSchema_typed (p ++ [PIdx k]) item H1) as (ph & Hph & Hm).
    destruct (IH (S k) H2) as (phones & HF & Hmap).
    exists (ph :: phones); split; [constructor; assumption|].
    simpl; congruence.
Qed.

(** When every entry has its types the rule runs, on the parsed entries:
    the issues of the field are those of the array followed by those of
    the rule. *)
Lemma phoneNumbersField_rule p items :
  List.forallb phoneEntryTyped items = true ->
  exists phones,
    map isMain phones = map markedMain items
    /\ snd (phoneNumbersField p (JArr items))
       = snd (z_array phoneNumberSchema
                (Some (1, "At least one phone number is required")) p (JArr items))
         ++ mainPhoneRefine p phones.
Proof.
  intros H.
  destruct (parseItems_typed p items 0 H) as (phones & HF & Hmap).
  exists phones; split; [exact Hmap|].
  unfold phoneNumbersField, z_superRefine.
  assert (Hst : fst (z_array phoneNumberSchema
                       (Some (1, "At least one phone number is required"))
                       p (JArr items)) = Valid phones
                \/ fst (z_array phoneNumberSchema
                          (Some (1, "At least one phone number is required"))
                          p (JArr items)) = Dirty phones).
  { unfold z_array.
    destruct (length items <? 1)%nat; cbv beta iota zeta; cbn [fst];
      rewrite (parseItems_returns phoneNumberSchema p items 0
                 phoneNumberSchema_returns);
      apply (mergeArray_values _ _ HF _ []). }
  destruct (z_array phoneNumberSchema _ p (JArr items)) as [st iss];
    simpl in Hst |- *.
  destruct Hst as [-> | ->]; simpl; [|reflexivity].
  destruct (mainPhoneRefine p phones); simpl; [rewrite app_nil_r|]; reflexivity.
Qed.

Lemma filter_length_map {T U} (f : T -> bool) (g : U -> bool) :
  forall (l : list T) (l' : list U),
    map f l = map g l' -> length (filter f l) = length (filter g l').
Proof.
  induction l as [|a l IH]; intros [|b l'] H; simpl in *; try discriminate;
    [reflexivity|].
  injection H as H1 H2; rewrite H1.
  destruct (g b); simpl; rewrite (IH l' H2); reflexivity.
Qed.

Lemma map_marked_nth {T U} (f : T -> bool) (g : U -> bool) :
  forall (l : list T) (l' : list U) i,
    map f l = map g l' ->
    ((exists a, nth_error l i = Some a /\ f a = true)
     <-> (exists b, nth_error l' i = Some b /\ g b = true)).
Proof.
  induction l as [|a l IH]; intros [|b l'] i H; simpl in *; try discriminate.
  - split; intros (x & Hx & _); destruct i; discriminate.
  - injection H as H1 H2; destruct i; simpl.
    + split; intros (x & [= <-] & Hx); eexists; split; eauto; congruence.
    + apply IH; exact H2.
Qed.

(** The issues of the rule are among those of the field. *)
Lemma phoneNumbersField_rule_issues p items :
  List.forallb phoneEntryTyped items = true ->
  (length (filter markedMain items) = 0 ->
   In (rootIssue p) (snd (phoneNumbersField p (JArr items))))
  /\ (length (filter markedMain items) >= 2 ->
      forall i item,
        nth_error items i = Some item -> markedMain item = true ->
        In (entryIssue p i) (snd (phoneNumbersField p (JArr items)))).
Proof.
  intros H.
  destruct (phoneNumbersField_rule p items H) as (phones & Hmap & ->).
  pose proof (filter_length_map isMain markedMain phones items Hmap) as Hlen.
  destruct (mainPhoneRefine_cases p phones) as (H0 & _ & H2).
  cbv zeta in H0, H2; rewrite Hlen in H0, H2.
  split.
  - intros Hn; apply in_app_iff; right; rewrite (H0 Hn); left; reflexivity.
  - intros Hn i item Hnth Hm; apply in_app_iff; right.
    destruct (H2 Hn) as (_ & _ & _ & Hin); apply Hin.
    destruct (proj2 (map_marked_nth isMain markedMain phones items i Hmap))
      as (ph & Hph & Hmark); eauto.
Qed.

Lemma forallb_false_exists {T} (f : T -> bool) (l : list T) :
  List.forallb f l = false -> exists x, In x l /\ f x = false.
Proof.
  induction l as [|a l IH]; simpl; [discriminate|].
  destruct (f a) eqn:E; simpl.
  - intros H; destruct (IH H) as (x & Hx & Hf); eauto.
  - intros _; eauto.
Qed.

(** An entry one of whose fields has not its type aborts. *)
Lemma phoneNumberSchema_untyped p item :
  phoneEntryTyped item = false -> fst (phoneNumberSchema p item) = Aborted.
Proof.
  destruct item as [| | | | | |entry]; try reflexivity.
  unfold phoneEntryTyped; intros H.
  assert (Ht : fst (phoneTypeEnum (p ++ [PKey "type"]) (getProp "type" entry))
               = Aborted
               \/ (exists t, fst (phoneTypeEnum (p ++ [PKey "type"])
                                    (getProp "type" entry)) = Valid t)
                  /\ match getProp "type" entry with
                     | JStr s =>
                         existsb (String.eqb s) ["Home"; "Mobile"; "Work"; "Other"]
                     | _ => false
                     end = true).
  { unfold phoneTypeEnum, z_enum.
    destruct (getProp "type" entry); auto.
    destruct (existsb (String.eqb s) ["Home"; "Mobile"; "Work"; "Other"]);
      [right; split; [exists s|]; reflexivity | left; reflexivity]. }
  assert (Hn : fst (phoneNumberField (p ++ [PKey "number"])
                      (getProp "number" entry)) = Aborted
               \/ (exists n,
                     fst (phoneNumberField (p ++ [PKey "number"])
                            (getProp "number" entry)) = Valid n
                     \/ fst (phoneNumberField (p ++ [PKey "number"])
                               (getProp "number" entry)) = Dirty n)
                  /\ match getProp "number" entry with
                     | JStr _ => true
                     | _ => false
                     end = true).
  { unfold phoneNumberField, z_refine, z_superRefine.
    destruct (getProp "number" entry); auto.
    rewrite z_string_min1_eval; right; split; [exists s|reflexivity].
    destruct (falsy s); cbv beta iota;
      destruct (isValidIsraeliPhoneNumber (Some s)); simpl; auto. }
  assert (Hm : fst (isMainField (p ++ [PKey "isMain"]) (getProp "isMain" entry))
               = Aborted
               \/ (exists b, fst (isMainField (p ++ [PKey "isMain"])
                                    (getProp "isMain" entry)) = Valid b)
                  /\ match getProp "isMain" entry with
                     | JBool _ | JUndefined => true
                     | _ => false
                     end = true).
  { unfold isMainField, z_default, z_boolean.
    destruct (getProp "isMain" entry); auto;
      right; (split; [eexists; reflexivity | reflexivity]). }
  unfold phoneNumberSchema, z_object; rewrite !shape_field_status.
  destruct Ht as [Ht | [[t Ht] Et]];
    destruct Hn as [Hn | [[n [Hn | Hn]] En]];
    destruct Hm as [Hm | [[b Hm] Em]];
    rewrite Ht, Hn, Hm; try reflexivity;
    rewrite Et, En, Em in H; discriminate.
Qed.

(** When an entry aborts, the issues of the field are those of the array:
    the rule is not run. *)
Lemma phoneNumbersField_unruled p items :
  List.forallb phoneEntryTyped items = false ->
  snd (phoneNumbersField p (JArr items))
  = snd (z_array phoneNumberSchema
           (Some (1, "At least one phone number is required")) p (JArr items)).
Proof.
  intros H; unfold phoneNumbersField, z_superRefine.
  assert (Hst : fst (z_array phoneNumberSchema
                       (Some (1, "At least one phone number is required"))
                       p (JArr items)) = Aborted).
  { unfold z_array.
    assert (Hin : In Aborted (map fst (parseItems phoneNumberSchema p 0 items))).
    { apply forallb_false_exists in H as (item & Hitem & Hu).
      apply In_nth_error in Hitem as [i Hi].
      rewrite <- (phoneNumberSchema_untyped (p ++ [PIdx i]) item Hu).
      apply in_map, (nth_error_In _ i).
      exact (parseItems_nth phoneNumberSchema p items 0 i item Hi). }
    destruct (length items <? 1)%nat; cbv beta iota zeta; cbn [fst];
      rewrite (parseItems_returns phoneNumberSchema p items 0
                 phoneNumberSchema_returns);
      apply mergeArray_aborted; auto;
      apply parseItems_returns, phoneNumberSchema_returns. }
  destruct (z_array phoneNumberSchema _ p (JArr items)) as [st iss];
    simpl in Hst |- *; subst st; reflexivity.
Qed.

(** C3, as amended.  The issues of [phoneNumbers] are those of the array
    followed by those of the main-phone rule.  For a list of phone entries
    whose fields have their types (the type one of the four, the number a
    string, [isMain] a boolean or absent) the rule adds: with no entry
    marked main, one issue, at the root of the array; with exactly one,
    none; with [n >= 2], [n] issues, one on the [isMain] of each entry
    marked main and on no other, and none at the root.  For any other
    list the rule is not evaluated and adds nothing. *)
Theorem phoneNumbersField_main_rule (p : path) (items : list jsval) :
  let n := length (filter markedMain items) in
  exists added,
    snd (phoneNumbersField p (JArr items))
    = snd (z_array phoneNumberSchema
             (Some (1, "At least one phone number is required")) p (JArr items))
      ++ added
    /\ (List.forallb phoneEntryTyped items = false -> added = [])
    /\ (List.forallb phoneEntryTyped items = true ->
        (n = 0 -> added = [rootIssue p])
        /\ (n = 1 -> added = [])
        /\ (n >= 2 ->
            length added = n
            /\ NoDup added
            /\ ~ In (rootIssue p) added
            /\ (forall x, In x added <->
                  exists i item, nth_error items i = Some item
                                 /\ markedMain item = true
                                 /\ x = entryIssue p i))).
Proof.
  intros n.
  destruct (List.forallb phoneEntryTyped items) eqn:H.
  - destruct (phoneNumbersField_rule p items H) as (phones & Hmap & Hsnd).
    exists (mainPhoneRefine p phones); split; [exact Hsnd|].
    split; [discriminate|]; intros _.
    pose proof (filter_length_map isMain markedMain phones items Hmap) as Hlen.
    destruct (mainPhoneRefine_cases p phones) as (H0 & H1 & H2).
    cbv zeta in H0, H1, H2; rewrite Hlen in H0, H1, H2.
    split; [exact H0|]; split; [exact H1|].
    intros Hn; destruct (H2 Hn) as (Hl & Hnd & Hroot & Hin).
    repeat split; auto.
    + intros Hx; apply Hin in Hx as (i & ph & Hnth & Hm & ->).
      destruct (proj1 (map_marked_nth isMain markedMain phones items i Hmap))
        as (item & Hitem & Hmark); eauto.
    + intros (i & item & Hnth & Hm & ->); apply Hin.
      destruct (proj2 (map_marked_nth isMain markedMain phones items i Hmap))
        as (ph & Hph & Hmark); eauto.
  - exists []; split; [|split; [reflexivity | discriminate]].
    rewrite app_nil_r; apply phoneNumbersField_unruled; exact H.
Qed.
End MainRuleFacts.

Lemma phoneNumbersField_main_rule_witness :
  exists added,
    snd (Schema.phoneNumbersField [Zod.PKey "phoneNumbers"]
           (Zod.JArr [Samples.samplePhone [("isMain", Zod.JBool true)];
                      Samples.samplePhone [];
                      Samples.samplePhone [("isMain", Zod.JBool true)]]))
    = (snd (Zod.z_array Schema.phoneNumberSchema
              (Some (1, "At least one phone number is required"))
              [Zod.PKey "phoneNumbers"]
              (Zod.JArr [Samples.samplePhone [("isMain", Zod.JBool true)];
                         Samples.samplePhone [];
                         Samples.samplePhone [("isMain", Zod.JBool true)]]))
       ++ added)%list
    /\ length added = 2
    /\ (In (Schema.entryIssue [Zod.PKey "phoneNumbers"] 0) added
        /\ In (Schema.entryIssue [Zod.PKey "phoneNumbers"] 2) added).
Proof.
  destruct (phoneNumbersField_main_rule [Zod.PKey "phoneNumbers"]
              [Samples.samplePhone [("isMain", Zod.JBool true)];
               Samples.samplePhone [];
               Samples.samplePhone [("isMain", Zod.JBool true)]])
    as (added & Hsnd & _ & Htyped).
  destruct (Htyped eq_refl) as (_ & _ & Hn).
  destruct (Hn (le_n 2)) as (Hl & _ & _ & Hin).
  exists added; split; [exact Hsnd | split; [exact Hl|]].
  split; apply Hin.
  - exists 0, (Samples.samplePhone [("isMain", Zod.JBool true)]); auto.
  - exists 2, (Samples.samplePhone [("isMain", Zod.JBool true)]); auto.
Defined.

(** The rule is skipped when an entry aborts: with the entries of the
    example of the specification, which hold [isMain] only, no issue sits
    at the root though no entry is main; and of two entries marked main,
    one of an unknown type, none has an issue on its [isMain]. *)
Lemma phoneNumbersField_main_rule_counterexample :
  (length (filter Rules.markedMain (Samples.sampleFlagsOnly [false; false])) = 0
   /\ ~ In (Schema.rootIssue [Zod.PKey "phoneNumbers"])
          (snd (Schema.phoneNumbersField [Zod.PKey "phoneNumbers"]
                  (Zod.JArr (Samples.sampleFlagsOnly [false; false])))))
  /\ (length (filter Rules.markedMain Samples.sampleFaxAndMobile) = 2
      /\ snd (Schema.phoneNumbersField [Zod.PKey "phoneNumbers"]
                (Zod.JArr Samples.sampleFaxAndMobile))
         = [Zod.mkIssue Zod.invalid_enum_value
              [Zod.PKey "phoneNumbers"; Zod.PIdx 0; Zod.PKey "type"]
              Zod.DefaultMessage]).
Proof.
  split; split; try reflexivity.
  vm_compute; intros H.
  repeat (destruct H as [H|H]; [discriminate H|]); exact H.
Qed.

(** ** Validation returns every violation at once *)
Section CompletenessFacts.
Import JsString Zod Schema Validators Spec Accepted Rules.
Local Open Scope list_scope.

Variable StringToNumber : string -> jsnum.
Variable ObjectToNumber : jsval -> option jsnum.

Local Abbreviation Number := (Number StringToNumber ObjectToNumber).
Local Abbreviation streetNumberField :=
  (streetNumberField StringToNumber ObjectToNumber).
Local Abbreviation patientSchema := (patientSchema StringToNumber ObjectToNumber).
Local Abbreviation addressSchema := (addressSchema StringToNumber ObjectToNumber).
Local Abbreviation addressesField := (addressesField StringToNumber ObjectToNumber).
Local Abbreviation validate := (validate StringToNumber ObjectToNumber).
Local Abbreviation coercionThrows :=
  (coercionThrows StringToNumber ObjectToNumber).
Local Abbreviation addressRules := (addressRules StringToNumber ObjectToNumber).

Lemma addressSchema_issues p entry x :
  In x (snd (addressSchema p (JObj entry))) <->
  In x (snd (z_string [SMin 1 "City selection is required"]
               (p ++ [PKey "cityCode"]) (getProp "cityCode" entry)))
  \/ In x (snd (z_string [SMin 1 "City name is required"]
                  (p ++ [PKey "cityName"]) (getProp "cityName" entry)))
  \/ In x (snd (z_string [SMin 1 "Street selection is required"]
                  (p ++ [PKey "streetCode"]) (getProp "streetCode" entry)))
  \/ In x (snd (z_string [SMin 1 "Street name is required"]
                  (p ++ [PKey "streetName"]) (getProp "streetName" entry)))
  \/ In x (snd (streetNumberField (p ++ [PKey "streetNumber"])
                  (getProp "streetNumber" entry)))
  \/ In x (snd (addressTypeEnum (p ++ [PKey "addressType"])
                  (getProp "addressType" entry)))
  \/ In x (snd (commentsField (p ++ [PKey "comments"])
                  (getProp "comments" entry))).
Proof.
  unfold Schema.addressSchema, z_object.
  rewrite !shape_field_issues, !in_app_iff; simpl; tauto.
Qed.

(** A top-level key that breaks its rule has an issue at its path. *)
Lemma patientRules_reported fields key ok :
  In (key, ok) patientRules -> ~ ok (getProp key fields) ->
  exists x, In x (snd (patientSchema [] (JObj fields))) /\ ipath x = [PKey key].
Proof.
  intros Hin Hv; simpl in Hin.
  destruct Hin as [[= <- <-]|[[= <- <-]|[[= <- <-]|[[= <- <-]|[[= <- <-]|
                   [[= <- <-]|[]]]]]]].
  - destruct (leaf_reported idField idRule [PKey "id"] (getProp "id" fields))
      as (x & Hx & Hp); auto;
      try (unfold idField; solve [schema_coherent | schema_exact | schema_returns]).
    + intros a; apply idField_rule.
    + exists x; split; [apply patientSchema_issues; tauto | exact Hp].
  - destruct (leaf_reported firstNameField nameRule [PKey "firstName"]
                (getProp "firstName" fields)) as (x & Hx & Hp); auto;
      try (unfold firstNameField;
           solve [schema_coherent | schema_exact | schema_returns]).
    + intros a; apply name_rule.
    + exists x; split; [apply patientSchema_issues; tauto | exact Hp].
  - destruct (leaf_reported lastNameField nameRule [PKey "lastName"]
                (getProp "lastName" fields)) as (x & Hx & Hp); auto;
      try (unfold lastNameField;
           solve [schema_coherent | schema_exact | schema_returns]).
    + intros a; apply name_rule.
    + exists x; split; [apply patientSchema_issues; tauto | exact Hp].
  - destruct (collection_reported phoneNumberSchema
                "At least one phone number is required" [PKey "phoneNumbers"]
                (getProp "phoneNumbers" fields) Hv) as (x & Hx & Hp).
    exists x; split; [|exact Hp].
    apply patientSchema_issues; do 3 right; left.
    apply z_superRefine_incl; exact Hx.
  - destruct (leaf_reported hmoEnum
                (oneOf ["Clalit"; "Maccabi"; "Mehuedet"; "Leumit"])
                [PKey "hmo"] (getProp "hmo" fields)) as (x & Hx & Hp); auto;
      try (unfold hmoEnum;
           solve [schema_coherent | schema_exact | schema_returns]).
    + intros a; apply z_enum_rule.
    + exists x; split; [apply patientSchema_issues; tauto | exact Hp].
  - destruct (collection_reported addressSchema
                "At least one address is required" [PKey "addresses"]
                (getProp "addresses" fields) Hv) as (x & Hx & Hp).
    exists x; split; [|exact Hp].
    apply patientSchema_issues; do 5 right; exact Hx.
Qed.

(** A field of a phone entry that breaks its rule has an issue at its
    path. *)
Lemma phoneRules_reported p entry key ok :
  In (key, ok) phoneRules -> ~ ok (getProp key entry) ->
  exists x, In x (snd (phoneNumberSchema p (JObj entry)))
            /\ ipath x = p ++ [PKey key].
Proof.
  intros Hin Hv; simpl in Hin.
  destruct Hin as [[= <- <-]|[[= <- <-]|[[= <- <-]|[]]]].
  - destruct (leaf_reported phoneTypeEnum
                (oneOf ["Home"; "Mobile"; "Work"; "Other"])
                (p ++ [PKey "type"]) (getProp "type" entry)) as (x & Hx & Hp);
      auto;
      try (unfold phoneTypeEnum;
           solve [schema_coherent | schema_exact | schema_returns]).
    + intros a; apply z_enum_rule.
    + exists x; split; [apply phoneNumberSchema_issues; tauto | exact Hp].
  - destruct (leaf_reported phoneNumberField phoneRule
                (p ++ [PKey "number"]) (getProp "number" entry))
      as (x & Hx & Hp); auto;
      try (unfold phoneNumberField;
           solve [schema_coherent | schema_exact | schema_returns]).
    + intros a; apply phoneNumberField_rule.
    + exists x; split; [apply phoneNumberSchema_issues; tauto | exact Hp].
  - destruct (leaf_reported isMainField flagRule
                (p ++ [PKey "isMain"]) (getProp "isMain" entry))
      as (x & Hx & Hp); auto;
      try (unfold isMainField;
           solve [schema_coherent | schema_exact | schema_returns]).
    + intros a; apply isMainField_rule.
    + exists x; split; [apply phoneNumberSchema_issues; tauto | exact Hp].
Qed.

(** The same for an address entry, the coercion of whose street number
    does not throw. *)
Lemma addressRules_reported p entry key ok :
  Number (getProp "streetNumber" entry) <> None ->
  In (key, ok) addressRules -> ~ ok (getProp key entry) ->
  exists x, In x (snd (addressSchema p (JObj entry)))
            /\ ipath x = p ++ [PKey key].
Proof.
  intros Hnum Hin Hv; simpl in Hin.
  destruct Hin as [[= <- <-]|[[= <- <-]|[[= <- <-]|[[= <- <-]|[[= <- <-]|
                   [[= <- <-]|[[= <- <-]|[]]]]]]]].
  - destruct (leaf_reported (z_string [SMin 1 "City selection is required"])
                textRule (p ++ [PKey "cityCode"]) (getProp "cityCode" entry))
      as (x & Hx & Hp); auto;
      try solve [schema_coherent | schema_exact | schema_returns].
    + intros a; apply text_rule.
    + exists x; split; [apply addressSchema_issues; tauto | exact Hp].
  - destruct (leaf_reported (z_string [SMin 1 "City name is required"])
                textRule (p ++ [PKey "cityName"]) (getProp "cityName" entry))
      as (x & Hx & Hp); auto;
      try solve [schema_coherent | schema_exact | schema_returns].
    + intros a; apply text_rule.
    + exists x; split; [apply addressSchema_issues; tauto | exact Hp].
  - destruct (leaf_reported (z_string [SMin 1 "Street selection is required"])
                textRule (p ++ [PKey "streetCode"]) (getProp "streetCode" entry))
      as (x & Hx & Hp); auto;
      try solve [schema_coherent | schema_exact | schema_returns].
    + intros a; apply text_rule.
    + exists x; split; [apply addressSchema_issues; tauto | exact Hp].
  - destruct (leaf_reported (z_string [SMin 1 "Street name is required"])
                textRule (p ++ [PKey "streetName"]) (getProp "streetName" entry))
      as (x & Hx & Hp); auto;
      try solve [schema_coherent | schema_exact | schema_returns].
    + intros a; apply text_rule.
    + exists x; split; [apply addressSchema_issues; tauto | exact Hp].
  - destruct (leaf_reported streetNumberField
                (streetNumberRule StringToNumber ObjectToNumber)
                (p ++ [PKey "streetNumber"]) (getProp "streetNumber" entry))
      as (x & Hx & Hp); auto;
      try (unfold Schema.streetNumberField;
           solve [schema_coherent | schema_exact]).
    + intros E; apply z_coerce_number_threw in E; contradiction.
    + intros a Ha; apply streetNumberField_valid in Ha as [Hn Hw].
      exists a; split; [exact Hn | apply wholeAtLeastOne_positive; exact Hw].
    + exists x; split; [apply addressSchema_issues; tauto | exact Hp].
  - destruct (leaf_reported addressTypeEnum (oneOf ["Home"; "Work"; "Other"])
                (p ++ [PKey "addressType"]) (getProp "addressType" entry))
      as (x & Hx & Hp); auto;
      try (unfold addressTypeEnum;
           solve [schema_coherent | schema_exact | schema_returns]).
    + intros a; apply z_enum_rule.
    + exists x; split; [apply addressSchema_issues; tauto | exact Hp].
  - destruct (leaf_reported commentsField commentsRule
                (p ++ [PKey "comments"]) (getProp "comments" entry))
      as (x & Hx & Hp); auto;
      try (unfold commentsField;
           solve [schema_coherent | schema_exact | schema_returns]).
    + intros a; apply commentsField_rule.
    + exists x; split; [apply addressSchema_issues; tauto | exact Hp].
Qed.
(** C4, as amended.  Validation throws exactly when the coercion of the
    street number of an address entry does.  Otherwise it returns data, a
    normalized record or a list of issues that is not empty, and the list
    has an issue at the path of every field that breaks its rule, whatever
    else is wrong in the record: at the root for a value that is not an
    object, at each of the six keys, at each entry that is not an object
    and at each field of an entry; and, when the fields of every phone
    entry have their types, the issues of the main-phone rule. *)
Theorem validate_total_and_complete (raw : jsval) :
  (validate raw = Throws <-> coercionThrows raw)
  /\ (~ coercionThrows raw ->
      ((exists r, validate raw = Success r)
       \/ (exists errs, errs <> [] /\ validate raw = Failure errs))
      /\ ((forall fields, raw <> JObj fields) -> reportedAt (validate raw) [])
      /\ (forall fields,
            raw = JObj fields ->
            (forall key ok,
               In (key, ok) patientRules -> ~ ok (getProp key fields) ->
               reportedAt (validate raw) [PKey key])
            /\ (forall items i item,
                  getProp "phoneNumbers" fields = JArr items ->
                  nth_error items i = Some item ->
                  ((forall entry, item <> JObj entry) ->
                   reportedAt (validate raw) [PKey "phoneNumbers"; PIdx i])
                  /\ (forall entry key ok,
                        item = JObj entry ->
                        In (key, ok) phoneRules -> ~ ok (getProp key entry) ->
                        reportedAt (validate raw)
                          [PKey "phoneNumbers"; PIdx i; PKey key]))
            /\ (forall items i item,
                  getProp "addresses" fields = JArr items ->
                  nth_error items i = Some item ->
                  ((forall entry, item <> JObj entry) ->
                   reportedAt (validate raw) [PKey "addresses"; PIdx i])
                  /\ (forall entry key ok,
                        item = JObj entry ->
                        In (key, ok) addressRules -> ~ ok (getProp key entry) ->
                        reportedAt (validate raw)
                          [PKey "addresses"; PIdx i; PKey key]))
            /\ (forall items,
                  getProp "phoneNumbers" fields = JArr items ->
                  List.forallb phoneEntryTyped items = true ->
                  (length (filter markedMain items) = 0 ->
                   reports (validate raw) (rootIssue [PKey "phoneNumbers"]))
                  /\ (length (filter markedMain items) >= 2 ->
                      forall i item,
                        nth_error items i = Some item ->
                        markedMain item = true ->
                        reports (validate raw)
                          (entryIssue [PKey "phoneNumbers"] i))))).
Proof.
  split; [apply validate_throws|].
  intros Hn.
  assert (Hrep : forall x, In x (snd (patientSchema [] raw)) ->
                           reports (validate raw) x)
    by (intros x; apply validate_reports; exact Hn).
  split; [apply validate_returns; exact Hn|].
  split.
  { intros Hobj.
    exists (mkIssue invalid_type [] (typeErrorMessage noParams raw)).
    split; [|reflexivity].
    apply Hrep; unfold Schema.patientSchema, z_object.
    destruct raw; try (left; reflexivity).
    destruct (Hobj fields eq_refl). }
  intros fields ->.
  assert (Hphones : forall items i item x,
             getProp "phoneNumbers" fields = JArr items ->
             nth_error items i = Some item ->
             In x (snd (phoneNumberSchema [PKey "phoneNumbers"; PIdx i] item)) ->
             reports (validate (JObj fields)) x).
  { intros items i item x Harr Hnth Hx.
    apply Hrep, patientSchema_issues; do 3 right; left.
    rewrite Harr; apply z_superRefine_incl.
    apply (z_array_incl phoneNumberSchema _ [PKey "phoneNumbers"] items i item x
             Hnth Hx). }
  assert (Haddresses : forall items i item x,
             getProp "addresses" fields = JArr items ->
             nth_error items i = Some item ->
             In x (snd (addressSchema [PKey "addresses"; PIdx i] item)) ->
             reports (validate (JObj fields)) x).
  { intros items i item x Harr Hnth Hx.
    apply Hrep, patientSchema_issues; do 5 right.
    rewrite Harr.
    apply (z_array_incl addressSchema _ [PKey "addresses"] items i item x
             Hnth Hx). }
  split; [|split; [|split]].
  - intros key ok Hin Hv.
    destruct (patientRules_reported fields key ok Hin Hv) as (x & Hx & Hp).
    exists x; split; [apply Hrep; exact Hx | exact Hp].
  - intros items i item Harr Hnth; split.
    + intros Hobj.
      destruct (entry_reported
                  (shape_field
                     (shape_field (shape_field (shape_pure mkPhone) "type"
                                     phoneTypeEnum)
                        "number" phoneNumberField)
                     "isMain" isMainField)
                  [PKey "phoneNumbers"; PIdx i] item Hobj) as (x & Hx & Hp).
      exists x; split; [|exact Hp].
      apply (Hphones items i item x Harr Hnth); exact Hx.
    + intros entry key ok -> Hin Hv.
      destruct (phoneRules_reported [PKey "phoneNumbers"; PIdx i] entry key ok
                  Hin Hv) as (x & Hx & Hp).
      exists x; split; [|exact Hp].
      apply (Hphones items i (JObj entry) x Harr Hnth); exact Hx.
  - intros items i item Harr Hnth; split.
    + intros Hobj.
      assert (Hx : In (mkIssue invalid_type [PKey "addresses"; PIdx i]
                         (typeErrorMessage noParams item))
                      (snd (addressSchema [PKey "addresses"; PIdx i] item))).
      { unfold Schema.addressSchema, z_object.
        destruct item; try (left; reflexivity).
        destruct (Hobj fields0 eq_refl). }
      exists (mkIssue invalid_type [PKey "addresses"; PIdx i]
                (typeErrorMessage noParams item)).
      split; [|reflexivity].
      apply (Haddresses items i item _ Harr Hnth); exact Hx.
    + intros entry key ok -> Hin Hv.
      assert (Hnum : Number (getProp "streetNumber" entry) <> None).
      { intros E; apply Hn; exists fields, items, i, entry; auto. }
      destruct (addressRules_reported [PKey "addresses"; PIdx i] entry key ok
                  Hnum Hin Hv) as (x & Hx & Hp).
      exists x; split; [|exact Hp].
      apply (Haddresses items i (JObj entry) x Harr Hnth); exact Hx.
  - intros items Harr Htyped.
    destruct (phoneNumbersField_rule_issues [PKey "phoneNumbers"] items Htyped)
      as [H0 H2].
    split.
    + intros Hc; apply Hrep, patientSchema_issues; do 3 right; left.
      rewrite Harr; exact (H0 Hc).
    + intros Hc i item Hnth Hm.
      apply Hrep, patientSchema_issues; do 3 right; left.
      rewrite Harr; exact (H2 Hc i item Hnth Hm).
Qed.
End CompletenessFacts.

Lemma validate_total_and_complete_witness :
  Zod.reportedAt
    (Schema.validate Samples.decimalToNumber Samples.plainObjectToNumber
       Samples.sampleManyErrors)
    [Zod.PKey "addresses"; Zod.PIdx 0; Zod.PKey "streetNumber"].
Proof.
  assert (Hn : ~ Rules.coercionThrows Samples.decimalToNumber
                   Samples.plainObjectToNumber Samples.sampleManyErrors).
  { intros T; apply validate_throws in T; vm_compute in T; discriminate. }
  destruct (validate_total_and_complete Samples.decimalToNumber
              Samples.plainObjectToNumber Samples.sampleManyErrors)
    as (_ & H).
  destruct (H Hn) as (_ & _ & Hfields).
  destruct (Hfields _ eq_refl) as (_ & _ & Haddr & _).
  destruct (Haddr _ 0 _ eq_refl eq_refl) as (_ & Hentry).
  apply (Hentry _ "streetNumber"
           (Rules.streetNumberRule Samples.decimalToNumber
              Samples.plainObjectToNumber) eq_refl).
  - do 4 right; left; reflexivity.
  - intros (n & E & q & z & Eq & Hz & Hq).
    vm_compute in E; injection E as <-; injection Eq as <-.
    unfold Qeq in Hq; simpl in Hq; lia.
Defined.

(** Validation throws on a record whose street number cannot be coerced;
    and of two phones marked main, one of an unknown type, the failure
    carries the issue of the type and nothing for the main-phone rule. *)
Lemma validate_total_and_complete_counterexample :
  Schema.validate Samples.decimalToNumber Samples.plainObjectToNumber
    (Zod.JObj Samples.sampleThrowing) = Zod.Throws
  /\ (length (filter Rules.markedMain Samples.sampleFaxAndMobile) = 2
      /\ Schema.validate Samples.decimalToNumber Samples.plainObjectToNumber
           Samples.sampleTwoMain
         = Zod.Failure
             [Zod.mkIssue Zod.invalid_enum_value
                [Zod.PKey "phoneNumbers"; Zod.PIdx 0; Zod.PKey "type"]
                Zod.DefaultMessage]).
Proof. repeat split; vm_compute; reflexivity. Qed.

(** A record with no phone on which validation throws reports nothing. *)
Lemma empty_collection_rejected_counterexample :
  Zod.getProp "phoneNumbers" Samples.sampleThrowing = Zod.JArr nil
  /\ Schema.validate Samples.decimalToNumber Samples.plainObjectToNumber
       (Zod.JObj Samples.sampleThrowing) = Zod.Throws
  /\ ~ (exists errs,
          Schema.validate Samples.decimalToNumber Samples.plainObjectToNumber
            (Zod.JObj Samples.sampleThrowing) = Zod.Failure errs).
Proof.
  split; [reflexivity|]; split; [vm_compute; reflexivity|].
  intros [errs H]; vm_compute in H; discriminate.
Qed.
